(** * DHAVinci: a shallow embedding of the DHAV frame carver

    The development follows [DHAVinci.py]: the packed date codec
    ([date_to_timestamp], [date_to_str]), the header parser
    ([DHAVContext.read_data]) over a memory map with a file position, the
    time-window filter ([timestamp_ok]), the exporter ([write_dav]) and the
    scan loop of [main], whose local variables ([offset], [frames],
    [timestamp]) and whose effects (the two CSV tables, the calls that wrote
    container files and the files they leave, the two log streams) are
    threaded through an explicit state.

    Conventions.
    - Python integers are [Z]; byte strings are [list byte].
    - An uncaught exception is a value of [exn]; a fallible step returns it.
    - The loop [while True] is run with fuel; [OutOfFuel] means that the loop
      is still running after that many iterations.
    - Wall-clock time is not modelled: the ETA text of the progress line is
      left out of the log (the source computes it from [time.time()]); the
      progress line keeps the two integers it prints, [found_location] and
      [filesize].
    - Writing to an opened file never fails and memory is unbounded.
    - An integer handed to C is converted as on a 64-bit platform
      ([ssize_t] of 64 bits). *)

From Stdlib Require Import ZArith List Bool Lia String Ascii.
From Stdlib Require Import Strings.Byte.
From Stdlib Require Import DecimalString.
Import ListNotations.

Local Open Scope Z_scope.

(** ** Python's [datetime] *)

(** A naive [datetime.datetime] value, as built by
    [datetime(year, month, day, hour, min, sec)]. *)
Record datetime : Set := mk_dt {
  year : Z; month : Z; day : Z; hour : Z; minute : Z; second : Z
}.

Definition is_leap (y : Z) : bool :=
  (y mod 4 =? 0) && (negb (y mod 100 =? 0) || (y mod 400 =? 0)).

Definition days_in_month (y m : Z) : Z :=
  if m =? 2 then (if is_leap y then 29 else 28)
  else if (m =? 4) || (m =? 6) || (m =? 9) || (m =? 11) then 30
  else 31.

(** The range check of the [datetime] constructor (MINYEAR = 1,
    MAXYEAR = 9999); Python raises [ValueError] where this is [false]. *)
Definition valid_datetime (y mo d h mi s : Z) : bool :=
  (1 <=? y) && (y <=? 9999) &&
  (1 <=? mo) && (mo <=? 12) &&
  (1 <=? d) && (d <=? days_in_month y mo) &&
  (0 <=? h) && (h <=? 23) &&
  (0 <=? mi) && (mi <=? 59) &&
  (0 <=? s) && (s <=? 59).

(** [datetime(y, mo, d, h, mi, s)]: [None] stands for [ValueError]. *)
Definition new_datetime (y mo d h mi s : Z) : option datetime :=
  if valid_datetime y mo d h mi s then Some (mk_dt y mo d h mi s) else None.

(** Comparison of naive datetimes: lexicographic on the fields. *)
Definition dt_key (t : datetime) : list Z :=
  [year t; month t; day t; hour t; minute t; second t].

Fixpoint lex_ltb (a b : list Z) : bool :=
  match a, b with
  | x :: a', y :: b' => (x <? y) || ((x =? y) && lex_ltb a' b')
  | [], _ :: _ => true
  | _, [] => false
  end.

Definition dt_ltb (a b : datetime) : bool := lex_ltb (dt_key a) (dt_key b).

(** ** The packed date (TimestampCodec) *)

(** [date_to_timestamp], lines 83-90. *)
Definition date_to_timestamp (date : Z) : option datetime :=
  let sec   := Z.land date 63 in
  let min   := Z.land (Z.shiftr date 6) 63 in
  let hour  := Z.land (Z.shiftr date 12) 31 in
  let day   := Z.land (Z.shiftr date 17) 31 in
  let month := Z.land (Z.shiftr date 22) 15 in
  let year  := Z.land (Z.shiftr date 26) 63 + 2000 in
  new_datetime year month day hour min sec.

(** Modelled from the spec: the encoder of the packed date.  The source has
    only the decoder; the layout is the one the specification gives (seconds
    in bits 0-5, minutes in 6-11, hours in 12-16, day in 17-21, month in
    22-25, year minus 2000 in 26-31). *)
Definition pack_date (t : datetime) : Z :=
  Z.lor (second t)
    (Z.lor (Z.shiftl (minute t) 6)
       (Z.lor (Z.shiftl (hour t) 12)
          (Z.lor (Z.shiftl (day t) 17)
             (Z.lor (Z.shiftl (month t) 22)
                (Z.shiftl (year t - 2000) 26))))).

(** A date-time of the representable range: a calendar-valid one whose year
    is in 2000..2063. *)
Definition representable (t : datetime) : Prop :=
  2000 <= year t <= 2063 /\
  valid_datetime (year t) (month t) (day t) (hour t) (minute t) (second t) = true.

(** [date_to_str], lines 95-102: the decimal text of the six sub-fields,
    all but the year padded to two digits by [zfill(2)]. *)
Definition str_of_int (n : Z) : string :=
  NilZero.string_of_uint (N.to_uint (Z.to_N n)).

Definition zfill2 (s : string) : string :=
  if (String.length s <? 2)%nat
  then String.append (string_of_list_ascii (repeat "0"%char (2 - String.length s))) s
  else s.

Definition date_to_str (date : Z) : string :=
  let sec   := Z.land date 63 in
  let min   := Z.land (Z.shiftr date 6) 63 in
  let hour  := Z.land (Z.shiftr date 12) 31 in
  let day   := Z.land (Z.shiftr date 17) 31 in
  let month := Z.land (Z.shiftr date 22) 15 in
  let year  := Z.land (Z.shiftr date 26) 63 + 2000 in
  (str_of_int year ++ zfill2 (str_of_int month) ++ zfill2 (str_of_int day)
   ++ zfill2 (str_of_int hour) ++ zfill2 (str_of_int min)
   ++ zfill2 (str_of_int sec))%string.

(** [timestamp_ok], lines 111-116.  A bound that is [None] (or the empty
    string the parser leaves) is falsy. *)
Definition timestamp_ok (timestamp : datetime) (starttime stoptime : option datetime) : bool :=
  if match starttime with Some s => dt_ltb timestamp s | None => false end then false
  else if match stoptime with Some s => dt_ltb s timestamp | None => false end then false
  else true.

(** ** Exceptions and results *)

Inductive exn : Set := ValueError | OverflowError | UnboundLocalError | IndexError.

Inductive result (A : Type) : Type :=
| Ok (a : A)
| Raise (e : exn).
Arguments Ok {A} a.
Arguments Raise {A} e.

(** ** Byte strings and the memory map *)

Definition byte_val (b : byte) : Z := Z.of_N (Byte.to_N b).

(** [int.from_bytes(bs, byteorder='little')]; the empty string gives 0. *)
Fixpoint from_bytes_little (bs : list byte) : Z :=
  match bs with
  | [] => 0
  | b :: t => byte_val b + 256 * from_bytes_little t
  end.

(** [int.from_bytes(bs)]: big-endian by default. *)
Definition from_bytes_big (bs : list byte) : Z := from_bytes_little (rev bs).

(** The object [mmap.mmap] returns: the mapped bytes, and the size of the
    underlying file, which is what [mm.size()] reports. *)
Record mmap : Set := mk_mmap {
  mm_data : list byte;
  mm_file_size : Z
}.

Definition mm_len (mm : mmap) : Z := Z.of_nat (List.length (mm_data mm)).

(** [mmap.mmap(fileno, length, access=ACCESS_READ)] on a file whose content
    is [file]; the map starts at file offset 0 (the [offset] keyword is not
    given).  The [length] is converted to a C [ssize_t] of 64 bits: one of
    2^63 or more raises [OverflowError], as does a negative one, before the
    file is looked at.  A [length] of 0 maps the whole file; an empty file
    cannot be mapped, and a [length] beyond the file is refused. *)
Definition mmap_open (file : list byte) (length : Z) : result mmap :=
  let size := Z.of_nat (List.length file) in
  if (length <? 0) || (2 ^ 63 <=? length) then Raise OverflowError
  else if length =? 0 then
    (if size =? 0 then Raise ValueError else Ok (mk_mmap file size))
  else if size <? length then Raise ValueError
  else Ok (mk_mmap (firstn (Z.to_nat length) file) size).

(** [bytes.startswith]. *)
Fixpoint starts_with (sub l : list byte) : bool :=
  match sub, l with
  | [], _ => true
  | _ :: _, [] => false
  | a :: sub', b :: l' => Byte.eqb a b && starts_with sub' l'
  end.

(** Lowest index of [sub] in [l], whose first byte has index [i]. *)
Fixpoint find_in (sub l : list byte) (i : Z) : option Z :=
  if starts_with sub l then Some i
  else match l with
       | [] => None
       | _ :: t => find_in sub t (i + 1)
       end.

(** [mm.find(sub, start)]: [None] stands for -1.  A negative [start] counts
    from the end, and [start] is clipped to the map. *)
Definition mm_find (mm : mmap) (sub : list byte) (start : Z) : option Z :=
  let size := mm_len mm in
  let start := if start <? 0 then Z.max 0 (start + size) else Z.min start size in
  find_in sub (skipn (Z.to_nat start) (mm_data mm)) start.

(** Reads and seeks move the position of the map: a computation over the
    mapped bytes takes the position and returns the new one. *)
Definition File (A : Type) : Type := list byte -> Z -> result (A * Z).

Definition ret {A} (a : A) : File A := fun _ pos => Ok (a, pos).

Definition bind {A B} (m : File A) (k : A -> File B) : File B :=
  fun bytes pos =>
    match m bytes pos with
    | Ok (a, pos') => k a bytes pos'
    | Raise e => Raise e
    end.

Notation "x <- m ;; k" := (bind m (fun x => k))
  (at level 61, m at next level, right associativity).

(** [f.read(n)]: up to [n] bytes from the position (all the rest when [n] is
    negative); the position moves by the number of bytes returned. *)
Definition f_read (n : Z) : File (list byte) :=
  fun bytes pos =>
    let rest := skipn (Z.to_nat pos) bytes in
    let got := if n <? 0 then rest else firstn (Z.to_nat n) rest in
    Ok (got, pos + Z.of_nat (List.length got)).

(** [f.seek(dist, os.SEEK_CUR)]: [ValueError] outside of the map. *)
Definition f_seek_cur (dist : Z) : File unit :=
  fun bytes pos =>
    let target := pos + dist in
    if (target <? 0) || (Z.of_nat (List.length bytes) <? target)
    then Raise ValueError else Ok (tt, target).

(** The position after the last read, as a value. *)
Definition f_tell : File Z := fun _ pos => Ok (pos, pos).

(** ** Frames *)

(** The attributes [read_data] sets on a [DHAVContext].  [header_offset] is
    a ghost field: the position of the map at which the header was read.
    The source keeps it in the loop variable of the same name, not in the
    object; nothing below computes with it, it is there to state where a
    buffered frame came from. *)
Record DHAVContext : Set := mk_dhav {
  signature : list byte;
  type : list byte;
  subtype : list byte;
  channel : Z;
  frame_subnumber : Z;
  frame_number : Z;
  frame_length : Z;
  date : Z;
  timestamp : Z;
  data : list byte;
  header_offset : Z
}.

(** [DHAVContext.read_data], lines 68-81. *)
Definition read_data : File DHAVContext :=
  start <- f_tell ;;
  signature <- f_read 4 ;;
  type <- f_read 1 ;;
  subtype <- f_read 1 ;;
  channel <- f_read 1 ;;
  frame_subnumber <- f_read 1 ;;
  frame_number <- f_read 4 ;;
  frame_length <- f_read 4 ;;
  date <- f_read 4 ;;
  timestamp <- f_read 2 ;;
  _ <- f_seek_cur (-22) ;;
  data <- f_read (from_bytes_little frame_length) ;;
  ret (mk_dhav signature type subtype
         (from_bytes_big channel) (from_bytes_big frame_subnumber)
         (from_bytes_little frame_number) (from_bytes_little frame_length)
         (from_bytes_little date) (from_bytes_little timestamp)
         data start).

(** [mm.seek(header_offset, 0)] followed by [dhav.read_data(mm)], lines
    192-194.  The absolute seek cannot fail: [header_offset] comes from
    [mm.find]. *)
Definition parse_at (mm : mmap) (header_offset : Z) : result DHAVContext :=
  match read_data (mm_data mm) header_offset with
  | Ok (dhav, _) => Ok dhav
  | Raise e => Raise e
  end.

(** ** Arguments, outputs and the variables of [main] *)

(** The parsed command line: [outputfolder], [skip] (before rounding),
    [starttime] and [stoptime] after [str_to_timestamp] ([None] when the
    option is absent), [csv] and [dryrun]. *)
Record Args : Set := mk_args {
  outputfolder : string;
  skip : Z;
  starttime : option datetime;
  stoptime : option datetime;
  csv : bool;
  dryrun : bool
}.

(** One line of a CSV table: the nine values the f-string of lines 204-205
    interpolates, in column order. *)
Record Row : Set := mk_row {
  row_timestamp : datetime;
  row_offset : Z;
  row_type : list byte;
  row_subtype : list byte;
  row_channel : Z;
  row_frame_number : Z;
  row_frame_subnumber : Z;
  row_frame_length : Z;
  row_extra_timestamp : Z
}.

(** [open(path, 'wb')], the writes and the close, on the files [fs] of the
    output folder: the file at [path] is created, or truncated if there is
    one, and holds [content]; the other files stay as they are. *)
Definition put_file (fs : list (string * list byte)) (path : string) (content : list byte)
    : list (string * list byte) :=
  filter (fun f => negb (String.eqb (fst f) path)) fs ++ [(path, content)].

(** The content of the file at [path], if there is one. *)
Definition file_at (fs : list (string * list byte)) (path : string) : option (list byte) :=
  match find (fun f => String.eqb (fst f) path) fs with
  | Some f => Some (snd f)
  | None => None
  end.

(** What a run leaves behind.  A CSV handle is [None] while its variable is
    unbound, else the rows written after the heading.  [written] is the
    record of the calls of [write_dav] that wrote: one entry for each
    [open(output, 'wb')], in their order, with the path and the bytes
    written.  [files] has the container files in the output folder, which
    is taken to hold none when the run starts: one entry for each path, a
    later write to a path replacing what an earlier one left there.
    [info_log] has the pair [(found_location, filesize)] of every progress
    line, [debug_log] the pair [(date, header_offset)] of every illegal-date
    trace. *)
Record World : Set := mk_world {
  alloutputfile : option (list Row);
  selectionoutputfile : option (list Row);
  written : list (string * list byte);
  files : list (string * list byte);
  info_log : list (Z * Z);
  debug_log : list (Z * Z)
}.

(** The loop's variables [offset], [frames] and [timestamp] ([None] while
    unbound), and the outputs so far.  [flushed] is a ghost variable: the
    segments that reached an export decision (lines 169 and 188), in order. *)
Record State : Set := mk_state {
  offset : Z;
  frames : list DHAVContext;
  timestamp_var : option datetime;
  world : World;
  flushed : list (list DHAVContext)
}.

Definition set_offset (st : State) (o : Z) : State :=
  mk_state o (frames st) (timestamp_var st) (world st) (flushed st).
Definition set_frames (st : State) (fs : list DHAVContext) : State :=
  mk_state (offset st) fs (timestamp_var st) (world st) (flushed st).
Definition set_timestamp (st : State) (t : datetime) : State :=
  mk_state (offset st) (frames st) (Some t) (world st) (flushed st).
Definition set_world (st : State) (w : World) : State :=
  mk_state (offset st) (frames st) (timestamp_var st) w (flushed st).
Definition note_flush (st : State) : State :=
  mk_state (offset st) (frames st) (timestamp_var st) (world st)
    (flushed st ++ [frames st]).

Definition add_info (w : World) (line : Z * Z) : World :=
  mk_world (alloutputfile w) (selectionoutputfile w) (written w) (files w)
    (info_log w ++ [line]) (debug_log w).
Definition add_debug (w : World) (line : Z * Z) : World :=
  mk_world (alloutputfile w) (selectionoutputfile w) (written w) (files w)
    (info_log w) (debug_log w ++ [line]).
Definition add_file (w : World) (path : string) (content : list byte) : World :=
  mk_world (alloutputfile w) (selectionoutputfile w)
    (written w ++ [(path, content)]) (put_file (files w) path content)
    (info_log w) (debug_log w).

(** [handle.write(row)] on a CSV handle. *)
Definition write_row (handle : option (list Row)) (r : Row) : result (option (list Row)) :=
  match handle with
  | Some rows => Ok (Some (rows ++ [r]))
  | None => Raise UnboundLocalError
  end.

Definition write_all (w : World) (r : Row) : result World :=
  match write_row (alloutputfile w) r with
  | Ok h => Ok (mk_world h (selectionoutputfile w) (written w) (files w)
                  (info_log w) (debug_log w))
  | Raise e => Raise e
  end.
Definition write_selection (w : World) (r : Row) : result World :=
  match write_row (selectionoutputfile w) r with
  | Ok h => Ok (mk_world (alloutputfile w) h (written w) (files w)
                  (info_log w) (debug_log w))
  | Raise e => Raise e
  end.

(** [os.path.join(a, b)] (POSIX). *)
Definition ends_with_slash (a : string) : bool :=
  match rev (list_ascii_of_string a) with
  | c :: _ => Ascii.eqb c "/"%char
  | [] => false
  end.

Definition path_join (a b : string) : string :=
  match b with
  | String c _ =>
      if Ascii.eqb c "/"%char then b
      else if String.eqb a EmptyString || ends_with_slash a then (a ++ b)%string
      else (a ++ "/" ++ b)%string
  | EmptyString =>
      if String.eqb a EmptyString || ends_with_slash a then a else (a ++ "/")%string
  end.

(** [write_dav], lines 104-109: one file, named after the first frame's
    channel and the dates of the first and the last frame, holding the
    frames' [data] one after the other. *)
Definition dav_filename (first final : DHAVContext) : string :=
  ("NVR_" ++ str_of_int (channel first) ++ "_main_"
   ++ date_to_str (date first) ++ "_" ++ date_to_str (date final) ++ ".dav")%string.

Definition write_dav (folder : string) (frames : list DHAVContext) (w : World) : result World :=
  match frames with
  | [] => Raise IndexError
  | first :: _ =>
      let filename := dav_filename first (last frames first) in
      Ok (add_file w (path_join folder filename) (List.concat (map data frames)))
  end.

(** The signature [b'DHAV']. *)
Definition DHAV : list byte := [x44; x48; x41; x56].

Definition truthy {A} (o : option A) : bool :=
  match o with Some _ => true | None => false end.

Definition nonempty {A} (l : list A) : bool :=
  match l with [] => false | _ :: _ => true end.

(** ** The scan loop, lines 165-209 *)

Inductive Step : Set :=
| Continue (st : State)
| Break (st : State)
| Raised (e : exn) (st : State).

Inductive Outcome : Set :=
| Done (st : State)
| Failed (e : exn) (st : State)
| OutOfFuel.

Section Scan.

Variable args : Args.
Variable mm : mmap.
(** The rounded-down [startoffset] of line 155. *)
Variable startoffset : Z.

Definition davoutputfolder : string := path_join (outputfolder args) "video".
Definition mapsize : Z := mm_file_size mm.
Definition filesize : Z := startoffset + mapsize.

(** The export decision, lines 188-190 and 169-171: the filter on
    [timestamp], then the write unless this is a dry run. *)
Definition export (fs : list DHAVContext) (tstamp : datetime) (w : World) : result World :=
  if timestamp_ok tstamp (starttime args) (stoptime args)
  then (if negb (dryrun args) then write_dav davoutputfolder fs w else Ok w)
  else Ok w.

(** Lines 185-191: the found header is beyond the cursor and frames are
    buffered. *)
Definition close_run (header_offset : Z) (st : State) : result State :=
  if (offset st <? header_offset) && nonempty (frames st) then
    match frames st with
    | [] => Raise IndexError
    | first :: _ =>
        match date_to_timestamp (date first) with
        | None => Raise ValueError
        | Some tstamp =>
            let st := set_timestamp st tstamp in
            match export (frames st) tstamp (world st) with
            | Ok w => Ok (set_frames (set_world (note_flush st) w) [])
            | Raise e => Raise e
            end
        end
    end
  else Ok st.

Definition row_of (tstamp : datetime) (header_offset : Z) (dhav : DHAVContext) : Row :=
  mk_row tstamp (header_offset + startoffset) (type dhav) (subtype dhav)
    (channel dhav) (frame_number dhav) (frame_subnumber dhav)
    (frame_length dhav) (timestamp dhav).

(** Lines 200-205: the CSV rows of a frame whose date decoded. *)
Definition write_csv (tstamp : datetime) (header_offset : Z) (dhav : DHAVContext)
    (w : World) : result World :=
  if csv args then
    let r := row_of tstamp header_offset dhav in
    match
      (if truthy (starttime args) || truthy (stoptime args) then
         (if timestamp_ok tstamp (starttime args) (stoptime args)
          then write_selection w r else Ok w)
       else Ok w)
    with
    | Ok w => write_all w r
    | Raise e => Raise e
    end
  else Ok w.

(** Lines 195-207: [try] the date; an illegal one leaves a debug trace,
    a legal one binds [timestamp], writes the rows and appends the frame. *)
Definition take_frame (header_offset : Z) (dhav : DHAVContext) (st : State) : result State :=
  match date_to_timestamp (date dhav) with
  | None => Ok (set_world st (add_debug (world st) (date dhav, header_offset)))
  | Some tstamp =>
      let st := set_timestamp st tstamp in
      match write_csv tstamp header_offset dhav (world st) with
      | Ok w => Ok (set_frames (set_world st w) (frames st ++ [dhav]))
      | Raise e => Raise e
      end
  end.

(** One pass through the body of [while True]. *)
Definition loop_body (st : State) : Step :=
  match mm_find mm DHAV (offset st) with
  | None =>
      match frames st with
      | [] => Break st
      | _ :: _ =>
          match timestamp_var st with
          | None => Raised UnboundLocalError st
          | Some tstamp =>
              match export (frames st) tstamp (world st) with
              | Ok w => Break (set_world (note_flush st) w)
              | Raise e => Raised e st
              end
          end
      end
  | Some header_offset =>
      let found_location := header_offset + startoffset in
      let st := set_world st (add_info (world st) (found_location, filesize)) in
      match close_run header_offset st with
      | Raise e => Raised e st
      | Ok st =>
          match parse_at mm header_offset with
          | Raise e => Raised e st
          | Ok dhav =>
              match take_frame header_offset dhav st with
              | Raise e => Raised e st
              | Ok st => Continue (set_offset st (header_offset + frame_length dhav))
              end
          end
      end
  end.

Fixpoint loop (fuel : nat) (st : State) : Outcome :=
  match fuel with
  | O => OutOfFuel
  | S fuel' =>
      match loop_body st with
      | Continue st' => loop fuel' st'
      | Break st' => Done st'
      | Raised e st' => Failed e st'
      end
  end.

(** The state at the head of the loop after [k] full passes. *)
Fixpoint iter (k : nat) (st : State) : option State :=
  match k with
  | O => Some st
  | S k' =>
      match loop_body st with
      | Continue st' => iter k' st'
      | _ => None
      end
  end.

End Scan.

(** ** [main], lines 118-215 *)

(** Lines 130-137: the CSV files that are opened. *)
Definition open_csv (args : Args) : World :=
  mk_world
    (if csv args then Some [] else None)
    (if csv args && (truthy (starttime args) || truthy (stoptime args))
     then Some [] else None)
    [] [] [] [].

(** Line 156 and 161: the variables before the loop. *)
Definition initial (args : Args) : State :=
  mk_state 0 [] None (open_csv args) [].

(** Lines 154-155. *)
Definition round_down (granularity startoffset : Z) : Z :=
  let over := startoffset mod granularity in
  startoffset - over.

(** Lines 211-215: closing the CSV files. *)
Definition close_csv (args : Args) (st : State) : Outcome :=
  if csv args then
    match selectionoutputfile (world st) with
    | None => Failed UnboundLocalError st
    | Some _ =>
        match alloutputfile (world st) with
        | None => Failed UnboundLocalError st
        | Some _ => Done st
        end
    end
  else Done st.

(** [main] on an input file with content [file], on a platform whose
    [mmap.ALLOCATIONGRANULARITY] is [granularity] (positive). *)
Definition main (granularity : Z) (args : Args) (file : list byte) (fuel : nat) : Outcome :=
  let startoffset := round_down granularity (skip args) in
  match mmap_open file startoffset with
  | Raise e => Failed e (initial args)
  | Ok mm =>
      match loop args mm startoffset fuel (initial args) with
      | Done st => close_csv args st
      | other => other
      end
  end.

(** The files one export decision writes: none when the filter rejects
    [tstamp] or in a dry run, else the one of [write_dav]. *)
Definition exported (args : Args) (fs : list DHAVContext) (tstamp : datetime)
    : list (string * list byte) :=
  match fs with
  | first :: _ =>
      if timestamp_ok tstamp (starttime args) (stoptime args) && negb (dryrun args)
      then [(path_join (davoutputfolder args) (dav_filename first (last fs first)),
             List.concat (map data fs))]
      else []
  | [] => []
  end.

(** The state with which an outcome ends, if the run ended. *)
Definition final_state (o : Outcome) : option State :=
  match o with
  | Done st | Failed _ st => Some st
  | OutOfFuel => None
  end.

(** ** Properties of buffered frames and segments *)

(** [R a b] for every two neighbours [a] then [b] of [l]. *)
Definition consecutive {A} (R : A -> A -> Prop) (l : list A) : Prop :=
  forall pre a b post, l = pre ++ a :: b :: post -> R a b.

(** [P z] for the last element [z] of [l], if there is one. *)
Definition ends_with {A} (P : A -> Prop) (l : list A) : Prop :=
  forall pre z, l = pre ++ [z] -> P z.

(** The span a frame declares ends where it is said to end. *)
Definition span_end (d : DHAVContext) : Z := header_offset d + frame_length d.

(** [b] starts exactly where [a]'s declared span ends. *)
Definition touches (a b : DHAVContext) : Prop := header_offset b = span_end a.

(** [b] starts at or after the end of [a]'s declared span. *)
Definition follows (a b : DHAVContext) : Prop := span_end a <= header_offset b.

(** The frame's packed date decodes. *)
Definition date_ok (d : DHAVContext) : Prop := date_to_timestamp (date d) <> None.

(** The offset the progress line and the CSV tables report for a frame
    found at [header_offset] (lines 175, 204, 205). *)
Definition absolute_offset (startoffset : Z) (d : DHAVContext) : Z :=
  header_offset d + startoffset.

(** The row a frame with a legal date leaves in a CSV table. *)
Definition row_from_frame (startoffset : Z) (r : Row) : Prop :=
  exists d, date_to_timestamp (date d) = Some (row_timestamp r) /\
            r = row_of startoffset (row_timestamp r) (header_offset d) d.

(** What holds of the variables of [main] at every point of the scan. *)
Record Inv (args : Args) (startoffset : Z) (st : State) : Prop := mk_inv {
  inv_dates : Forall date_ok (frames st);
  inv_lengths : Forall (fun d => 0 <= frame_length d) (frames st);
  inv_timestamp :
    ends_with (fun z => timestamp_var st = date_to_timestamp (date z)) (frames st);
  inv_all : csv args = true -> alloutputfile (world st) <> None;
  inv_selection :
    selectionoutputfile (world st) = None <->
    csv args && (truthy (starttime args) || truthy (stoptime args)) = false;
  inv_rows_all :
    forall rows, alloutputfile (world st) = Some rows ->
                 Forall (row_from_frame startoffset) rows;
  inv_rows_selection :
    forall rows, selectionoutputfile (world st) = Some rows ->
                 Forall (row_from_frame startoffset) rows;
  inv_ordered : consecutive follows (frames st);
  inv_flushed :
    Forall (fun seg => seg <> [] /\ Forall date_ok seg /\ consecutive follows seg)
           (flushed st);
  inv_written :
    Forall (fun f => exists seg, In seg (flushed st) /\
                                 snd f = List.concat (map data seg))
           (written (world st));
  inv_adjacent :
    debug_log (world st) = [] ->
    consecutive touches (frames st) /\ Forall (consecutive touches) (flushed st)
}.

(** The cursor [c] is at or after the end of the last buffered frame, and
    exactly there as long as no frame was dropped for its date. *)
Record Cursor (c : Z) (st : State) : Prop := mk_cursor {
  cur_nonneg : 0 <= c;
  cur_after : ends_with (fun z => span_end z <= c) (frames st);
  cur_exact : debug_log (world st) = [] -> ends_with (fun z => span_end z = c) (frames st)
}.

(** Scan state: the invariant holds and the cursor is the variable
    [offset]. *)
Definition Good (args : Args) (startoffset : Z) (st : State) : Prop :=
  Inv args startoffset st /\ Cursor (offset st) st.

(** A CSV handle after one more row, if it is bound. *)
Definition snoc_row (r : Row) (handle : option (list Row)) : option (list Row) :=
  option_map (fun rows => rows ++ [r]) handle.

(** ** Sample inputs *)

(** [n] bytes, least significant first: the inverse of [from_bytes_little]
    on numbers below [256 ^ n]. *)
Fixpoint to_bytes_little (n : nat) (z : Z) : list byte :=
  match n with
  | O => []
  | S n' =>
      match Byte.of_N (Z.to_N (z mod 256)) with
      | Some b => b
      | None => x00
      end :: to_bytes_little n' (z / 256)
  end.

(** A 22-byte header: signature, type [fd], subtype 0, channel 1,
    sub-number 0, frame number 7, the given length and packed date, and the
    extra timestamp 9. *)
Definition sample_header (len date : Z) : list byte :=
  DHAV ++ [xfd; x00; x01; x00] ++ to_bytes_little 4 7 ++ to_bytes_little 4 len
       ++ to_bytes_little 4 date ++ to_bytes_little 2 9.

(** A header followed by zero bytes, [total] bytes in all. *)
Definition sample_frame (len date : Z) (total : nat) : list byte :=
  sample_header len date ++ repeat x00 (total - 22).

Definition date_2024_01_01 : Z := pack_date (mk_dt 2024 1 1 0 0 0).
Definition date_2024_06_01 : Z := pack_date (mk_dt 2024 6 1 12 0 0).
Definition date_2024_08_02 : Z := pack_date (mk_dt 2024 8 2 15 42 0).

(** No options but the input file. *)
Definition plain_args : Args := mk_args "" 0 None None false false.

(** Frames at 0, 100 and 200 of 100 bytes each, a hole, a frame at 500. *)
Definition file_contiguity : list byte :=
  sample_frame 100 date_2024_08_02 100 ++ sample_frame 100 date_2024_08_02 100
  ++ sample_frame 100 date_2024_08_02 100 ++ repeat x00 200
  ++ sample_frame 100 date_2024_08_02 100.

(** A frame at 0, a hole, and at 30 a frame whose packed date is 0
    (month 0, day 0). *)
Definition file_gap_then_illegal : list byte :=
  sample_frame 22 date_2024_08_02 22 ++ repeat x00 8 ++ sample_frame 22 0 22.

(** Three frames back to back, the one in the middle with packed date 0. *)
Definition file_illegal_between : list byte :=
  sample_frame 22 date_2024_08_02 22 ++ sample_frame 22 0 22
  ++ sample_frame 22 date_2024_08_02 22.

(** Two frames back to back: the first of January 2024, the second of
    June 2024. *)
Definition file_two_dates : list byte :=
  sample_frame 22 date_2024_01_01 22 ++ sample_frame 22 date_2024_06_01 22.

(** [--start 20240301000000]. *)
Definition args_from_march : Args :=
  mk_args "" 0 (Some (mk_dt 2024 3 1 0 0 0)) None false false.

(** Two filler bytes, then a header cut after its date field: the input
    ends 20 bytes after the signature. *)
Definition file_cut_header : list byte :=
  [xaa; xbb] ++ firstn 20 (sample_header 20 date_2024_08_02).

(** A complete header that declares 100 bytes in an input of 30. *)
Definition file_short_frame : list byte := sample_frame 100 date_2024_08_02 30.

(** 8192 bytes: a frame at 0 and a frame at 4096. *)
Definition file_two_pages : list byte :=
  sample_frame 22 date_2024_08_02 4096 ++ sample_frame 22 date_2024_06_01 4096.

(** [--skip 4096]. *)
Definition args_skip_page : Args := mk_args "" 4096 None None false false.

(** A single frame that declares a length of 0. *)
Definition file_zero_length : list byte := sample_frame 0 date_2024_08_02 22.

(** [--csv] alone. *)
Definition args_csv : Args := mk_args "" 0 None None true false.

(** [--skip 9223372036854775808]. *)
Definition args_skip_huge : Args := mk_args "" (2 ^ 63) None None false false.

(** The map [mmap_open file 0] returns for a non-empty [file]. *)
Definition map_of (file : list byte) : mmap :=
  mk_mmap file (Z.of_nat (List.length file)).

(** The frame [parse_at] reads at [header_offset], for a sample map on
    which it does not fail. *)
Definition frame_at (mm : mmap) (header_offset : Z) : DHAVContext :=
  match parse_at mm header_offset with
  | Ok dhav => dhav
  | Raise _ => mk_dhav [] [] [] 0 0 0 0 0 0 [] header_offset
  end.

(** [--csv --start 20240301000000]. *)
Definition args_csv_from_march : Args :=
  mk_args "" 0 (Some (mk_dt 2024 3 1 0 0 0)) None true false.

(** The state after [k] passes of the loop, for a sample run. *)
Definition state_after (args : Args) (mm : mmap) (startoffset : Z) (k : nat) : State :=
  match iter args mm startoffset k (initial args) with
  | Some st => st
  | None => initial args
  end.

(** The state a sample run ends with. *)
Definition final_of (o : Outcome) : State :=
  match final_state o with
  | Some st => st
  | None => initial plain_args
  end.

(** ** Notions for whole runs *)

(** [bytes[o:o+n]] of the map, for non-negative [o] and [n]. *)
Definition slice (mm : mmap) (o n : Z) : list byte :=
  firstn (Z.to_nat n) (skipn (Z.to_nat o) (mm_data mm)).

(** The frames appended so far, in the order of their appending: those of
    the flushed segments, then the buffered ones. *)
Definition history (st : State) : list DHAVContext :=
  List.concat (flushed st) ++ frames st.

(** The rows of lines 204-205 for a list of frames. *)
Definition frame_rows (startoffset : Z) (fs : list DHAVContext) : list Row :=
  flat_map (fun d => match date_to_timestamp (date d) with
                     | Some tstamp => [row_of startoffset tstamp (header_offset d) d]
                     | None => []
                     end) fs.

(** [starttime or stoptime], lines 135 and 202. *)
Definition window (args : Args) : bool :=
  truthy (starttime args) || truthy (stoptime args).

(** The filter of line 203 on a row's own timestamp. *)
Definition in_window (args : Args) (r : Row) : bool :=
  timestamp_ok (row_timestamp r) (starttime args) (stoptime args).

(** The frame was parsed at an offset that the search returned. *)
Definition found_at (mm : mmap) (d : DHAVContext) : Prop :=
  exists o, 0 <= o /\ mm_find mm DHAV o = Some (header_offset d) /\
            parse_at mm (header_offset d) = Ok d.

(** The files the pass at header [H] writes before it parses (lines
    185-190). *)
Definition gap_export (args : Args) (st : State) (H : Z) : list (string * list byte) :=
  if (offset st <? H) && nonempty (frames st) then
    match frames st with
    | first :: _ =>
        match date_to_timestamp (date first) with
        | Some tstamp => exported args (frames st) tstamp
        | None => []
        end
    | [] => []
    end
  else [].

(** The files the last pass writes (lines 169-171). *)
Definition last_export (args : Args) (st : State) : list (string * list byte) :=
  match frames st, timestamp_var st with
  | _ :: _, Some tstamp => exported args (frames st) tstamp
  | _, _ => []
  end.

(** What the outputs of a scan say about the frames appended. *)
Record Trace (args : Args) (mm : mmap) (startoffset : Z) (st : State) : Prop := mk_trace {
  tr_found : Forall (found_at mm) (history st);
  tr_dates : Forall date_ok (history st);
  tr_order : consecutive follows (history st);
  tr_cursor : ends_with (fun z => span_end z <= offset st) (history st);
  tr_all :
    csv args = true ->
    alloutputfile (world st) = Some (frame_rows startoffset (history st));
  tr_selection :
    csv args && window args = true ->
    selectionoutputfile (world st)
    = Some (filter (in_window args) (frame_rows startoffset (history st)));
  tr_info :
    Forall (fun line => exists H o, 0 <= o /\ mm_find mm DHAV o = Some H /\
                                    line = (H + startoffset, filesize mm startoffset))
           (info_log (world st));
  tr_debug :
    Forall (fun line => exists d, found_at mm d /\ date_to_timestamp (date d) = None /\
                                  line = (date d, header_offset d))
           (debug_log (world st));
  tr_count :
    List.length (info_log (world st))
    = (List.length (history st) + List.length (debug_log (world st)))%nat
}.

(** [args] with [--dryrun] set or cleared. *)
Definition with_dryrun (args : Args) (b : bool) : Args :=
  mk_args (outputfolder args) (skip args) (starttime args) (stoptime args) (csv args) b.

(** The state without the container files written. *)
Definition without_files (st : State) : State :=
  set_world st (mk_world (alloutputfile (world st)) (selectionoutputfile (world st))
                  [] [] (info_log (world st)) (debug_log (world st))).

(** Every frame of the segment, its last one in particular, declares a
    span that ends before [b]. *)
Definition gap_before (b : Z) (seg : list DHAVContext) : Prop :=
  ends_with (fun z => span_end z < b) seg.

(** The segment [s1] ends before the first frame of [s2] starts, with
    bytes in between. *)
Definition apart (s1 s2 : list DHAVContext) : Prop :=
  match s2 with
  | first :: _ => gap_before (header_offset first) s1
  | [] => True
  end.

(** The flushed segments lie apart, and the last of them ends before the
    buffered frames start (before the cursor when nothing is buffered). *)
Record Runs (st : State) : Prop := mk_runs {
  runs_flushed : consecutive apart (flushed st);
  runs_buffer :
    ends_with (fun s => match frames st with
                        | first :: _ => gap_before (header_offset first) s
                        | [] => gap_before (offset st) s
                        end) (flushed st)
}.

(** A decimal digit, and a string made of decimal digits only. *)
Definition is_digit (c : ascii) : bool :=
  (48 <=? nat_of_ascii c)%nat && (nat_of_ascii c <=? 57)%nat.

Definition all_digits (s : string) : bool :=
  forallb is_digit (list_ascii_of_string s).

(** The date-time of a decoded date as [date_to_str] would print it. *)
Definition datetime_digits (t : datetime) : string :=
  (str_of_int (year t) ++ zfill2 (str_of_int (month t)) ++ zfill2 (str_of_int (day t))
   ++ zfill2 (str_of_int (hour t)) ++ zfill2 (str_of_int (minute t))
   ++ zfill2 (str_of_int (second t)))%string.

(** The files of a segment closed by a gap (lines 185-190): the filter is
    on the date of its first frame. *)
Definition gap_files (args : Args) (seg : list DHAVContext) : list (string * list byte) :=
  match seg with
  | first :: _ =>
      match date_to_timestamp (date first) with
      | Some tstamp => exported args seg tstamp
      | None => []
      end
  | [] => []
  end.

(** The files of the frames buffered when the search ends (lines 169-171):
    the filter is on the date of the last of them. *)
Definition end_files (args : Args) (seg : list DHAVContext) : list (string * list byte) :=
  match seg with
  | first :: _ =>
      match date_to_timestamp (date (last seg first)) with
      | Some tstamp => exported args seg tstamp
      | None => []
      end
  | [] => []
  end.

(** The bytes the last of the writes [calls] that went to [path] wrote
    there, if one did. *)
Definition last_write (calls : list (string * list byte)) (path : string)
    : option (list byte) :=
  file_at (rev calls) path.

(** The files are what the writes left. *)
Definition Stored (w : World) : Prop :=
  forall path, file_at (files w) path = last_write (written w) path.

(** [b] comes next to [a] in a segment: it starts where the span [a]
    declares ends, or a frame that was dropped for its date (a line of the
    debug log) starts there, before [b]. *)
Definition joined (log : list (Z * Z)) (a b : DHAVContext) : Prop :=
  header_offset b = span_end a \/
  exists line, In line log /\ date_to_timestamp (fst line) = None /\
               snd line = span_end a /\ snd line < header_offset b.

(** The cursor [c] is where the span [z] declares ends, or a frame that was
    dropped for its date starts there and the cursor is not before it. *)
Definition joined_to (log : list (Z * Z)) (c : Z) (z : DHAVContext) : Prop :=
  c = span_end z \/
  exists line, In line log /\ date_to_timestamp (fst line) = None /\
               snd line = span_end z /\ snd line <= c.

(** Within the flushed segments and the buffer, a frame and the next are
    joined; the cursor is joined to the last buffered frame. *)
Record Tiled (st : State) : Prop := mk_tiled {
  tiled_flushed : Forall (consecutive (joined (debug_log (world st)))) (flushed st);
  tiled_frames : consecutive (joined (debug_log (world st))) (frames st);
  tiled_cursor : ends_with (joined_to (debug_log (world st)) (offset st)) (frames st)
}.

(** The states of a run of [main]: the state it ends with, and, whether it
    ends or not, the state at the head of the loop after any number of
    passes. *)
Definition reached (granularity : Z) (args : Args) (file : list byte) (st : State) : Prop :=
  (exists fuel, final_state (main granularity args file fuel) = Some st) \/
  (exists mm k, mmap_open file (round_down granularity (skip args)) = Ok mm /\
                iter args mm (round_down granularity (skip args)) k (initial args)
                = Some st).

(** An outcome with its state changed. *)
Definition map_step (f : State -> State) (s : Step) : Step :=
  match s with
  | Continue st => Continue (f st)
  | Break st => Break (f st)
  | Raised e st => Raised e (f st)
  end.

Definition map_outcome (f : State -> State) (o : Outcome) : Outcome :=
  match o with
  | Done st => Done (f st)
  | Failed e st => Failed e (f st)
  | OutOfFuel => OutOfFuel
  end.

(** [a <= b] on date-times. *)
Definition dt_leb (a b : datetime) : bool := negb (dt_ltb b a).

(** * Lemmas *)

(** ** Neighbours and last elements *)

Section Neighbours.
Context {A : Type}.
Implicit Types (R : A -> A -> Prop) (P : A -> Prop) (l : list A).

Lemma consecutive_nil R : consecutive R [].
Proof. intros pre a b post E. destruct pre; discriminate. Qed.

Lemma consecutive_one R x : consecutive R [x].
Proof.
  intros pre a b post E. destruct pre as [|p [|q pre]]; discriminate.
Qed.

Lemma ends_with_nil P : ends_with P [].
Proof. intros pre z E. destruct pre; discriminate. Qed.

Lemma ends_with_snoc P l x : P x -> ends_with P (l ++ [x]).
Proof.
  intros Hx pre z E. apply app_inj_tail in E. destruct E as [_ <-]. exact Hx.
Qed.

Lemma consecutive_snoc R l x :
  consecutive R l -> ends_with (fun y => R y x) l -> consecutive R (l ++ [x]).
Proof.
  intros Hl Hlast pre a b post E.
  destruct post as [|c post'] using rev_ind.
  - (* [b] is the new element *)
    change (pre ++ [a; b]) with (pre ++ [a] ++ [b]) in E.
    rewrite app_assoc in E. apply app_inj_tail in E. destruct E as [El <-].
    apply (Hlast pre a El).
  - clear IHpost'.
    change (a :: b :: post' ++ [c]) with ((a :: b :: post') ++ [c]) in E.
    rewrite app_assoc in E. apply app_inj_tail in E. destruct E as [El _].
    apply (Hl pre a b post' El).
Qed.

Lemma ends_with_impl P (Q : A -> Prop) l :
  (forall z, P z -> Q z) -> ends_with P l -> ends_with Q l.
Proof. intros HPQ H pre z E. apply HPQ, (H pre z E). Qed.

Lemma consecutive_impl R (S : A -> A -> Prop) l :
  (forall a b, R a b -> S a b) -> consecutive R l -> consecutive S l.
Proof. intros HRS H pre a b post E. apply HRS, (H pre a b post E). Qed.
End Neighbours.

(** ** The signature search *)

Lemma find_in_bounds sub l i H :
  find_in sub l i = Some H -> i <= H <= i + Z.of_nat (List.length l).
Proof.
  revert i. induction l as [|b l IH]; intros i; simpl.
  - destruct (starts_with sub []); [|discriminate]. intros [= <-]. lia.
  - destruct (starts_with sub (b :: l)).
    + intros [= <-]. lia.
    + intros E. apply IH in E. lia.
Qed.

Lemma find_in_starts sub l i H :
  find_in sub l i = Some H ->
  starts_with sub (skipn (Z.to_nat (H - i)) l) = true.
Proof.
  revert i. induction l as [|b l IH]; intros i; simpl.
  - destruct (starts_with sub []) eqn:E; [|discriminate]. intros [= <-].
    now rewrite skipn_nil.
  - destruct (starts_with sub (b :: l)) eqn:E.
    + intros [= <-]. now rewrite Z.sub_diag.
    + intros F. pose proof (find_in_bounds _ _ _ _ F) as Hb.
      apply IH in F.
      replace (Z.to_nat (H - i)) with (S (Z.to_nat (H - (i + 1)))) by lia.
      exact F.
Qed.

Lemma find_in_here sub l i :
  starts_with sub l = true -> find_in sub l i = Some i.
Proof. intros E. destruct l; simpl; now rewrite E. Qed.

Lemma find_in_inside sub l i H :
  sub <> [] -> find_in sub l i = Some H -> H < i + Z.of_nat (List.length l).
Proof.
  intros Hsub. revert i. induction l as [|b l IH]; intros i; simpl.
  - destruct sub; [contradiction | discriminate].
  - destruct (starts_with sub (b :: l)).
    + intros [= <-]. lia.
    + intros E. apply IH in E. lia.
Qed.

Lemma mm_find_bounds mm sub o H :
  sub <> [] -> 0 <= o -> mm_find mm sub o = Some H -> o <= H < mm_len mm.
Proof.
  unfold mm_find, mm_len. intros Hsub Ho E.
  destruct (Z.ltb_spec o 0); [lia|].
  pose proof (find_in_bounds _ _ _ _ E) as Hb.
  apply find_in_inside in E; [|assumption].
  rewrite length_skipn in *. lia.
Qed.

Lemma mm_find_again mm sub o H :
  sub <> [] -> 0 <= o -> mm_find mm sub o = Some H -> mm_find mm sub H = Some H.
Proof.
  intros Hsub Ho E. pose proof (mm_find_bounds _ _ _ _ Hsub Ho E) as Hb.
  unfold mm_find, mm_len in *.
  destruct (Z.ltb_spec o 0); [lia|]. destruct (Z.ltb_spec H 0); [lia|].
  apply find_in_starts in E. rewrite skipn_skipn in E.
  rewrite Z.min_l by lia.
  apply find_in_here.
  replace (Z.to_nat H) with (Z.to_nat (H - Z.min o (Z.of_nat (List.length (mm_data mm))))
                             + Z.to_nat (Z.min o (Z.of_nat (List.length (mm_data mm)))))%nat by lia.
  exact E.
Qed.

Lemma DHAV_nonempty : DHAV <> [].
Proof. discriminate. Qed.

(** ** The packed date *)

Lemma lor_disjoint_add (a b c k : Z) :
  0 <= k -> 0 <= a < 2 ^ k -> b = c * 2 ^ k -> Z.lor a b = a + b.
Proof.
  intros Hk Ha ->.
  assert (Hland : Z.land a (c * 2 ^ k) = 0).
  { apply Z.bits_inj'. intros n Hn.
    rewrite Z.land_spec, Z.bits_0.
    destruct (Z.ltb_spec n k).
    - rewrite Z.mul_pow2_bits_low by lia. apply andb_false_r.
    - destruct (Z.eq_dec a 0) as [->|Hnz].
      + now rewrite Z.bits_0.
      + rewrite (Z.bits_above_log2 a n); [reflexivity | lia |].
        apply Z.log2_lt_pow2; [lia|].
        apply Z.lt_le_trans with (2 ^ k); [lia|].
        apply Z.pow_le_mono_r; lia. }
  pose proof (Z.add_lor_land a (c * 2 ^ k)) as H. rewrite Hland in H. lia.
Qed.

Lemma days_in_month_le (y m : Z) : days_in_month y m <= 31.
Proof.
  unfold days_in_month.
  destruct (m =? 2); [destruct (is_leap y); lia|].
  destruct ((m =? 4) || (m =? 6) || (m =? 9) || (m =? 11)); lia.
Qed.

Lemma pack_date_sum (t : datetime) :
  0 <= second t < 64 -> 0 <= minute t < 64 -> 0 <= hour t < 32 ->
  0 <= day t < 32 -> 0 <= month t < 16 ->
  pack_date t =
    second t + 64 * minute t + 4096 * hour t + 131072 * day t
    + 4194304 * month t + 67108864 * (year t - 2000).
Proof.
  intros Hs Hmi Hh Hd Hmo. unfold pack_date.
  rewrite !Z.shiftl_mul_pow2 by lia.
  rewrite (lor_disjoint_add (month t * 2 ^ 22) _ (year t - 2000) 26) by lia.
  rewrite (lor_disjoint_add (day t * 2 ^ 17) _ (month t + 16 * (year t - 2000)) 22) by lia.
  rewrite (lor_disjoint_add (hour t * 2 ^ 12) _
             (day t + 32 * (month t + 16 * (year t - 2000))) 17) by lia.
  rewrite (lor_disjoint_add (minute t * 2 ^ 6) _
             (hour t + 32 * (day t + 32 * (month t + 16 * (year t - 2000)))) 12) by lia.
  rewrite (lor_disjoint_add (second t) _
             (minute t + 64 * (hour t + 32 * (day t + 32 * (month t + 16 * (year t - 2000))))) 6) by lia.
  lia.
Qed.

Lemma valid_datetime_bounds (y mo d h mi s : Z) :
  valid_datetime y mo d h mi s = true ->
  1 <= mo <= 12 /\ 1 <= d <= 31 /\ 0 <= h <= 23 /\ 0 <= mi <= 59 /\ 0 <= s <= 59.
Proof.
  unfold valid_datetime. intros H.
  repeat (apply andb_true_iff in H; destruct H as [H ?]).
  pose proof (days_in_month_le y mo).
  repeat match goal with
         | X : (_ <=? _) = true |- _ => apply Z.leb_le in X
         end.
  lia.
Qed.

(** ** The header parser *)

Lemma from_bytes_little_nonneg bs : 0 <= from_bytes_little bs.
Proof.
  induction bs as [|b t IH]; cbn [from_bytes_little]; [lia|].
  unfold byte_val. pose proof (N2Z.is_nonneg (Byte.to_N b)). lia.
Qed.

Lemma bind_Ok {A B} (m : File A) (k : A -> File B) bytes pos r :
  bind m k bytes pos = Ok r ->
  exists a p, m bytes pos = Ok (a, p) /\ k a bytes p = Ok r.
Proof.
  unfold bind. destruct (m bytes pos) as [[a p]|e]; [|discriminate].
  intros E. now exists a, p.
Qed.

Lemma read_data_fields bytes pos d p :
  read_data bytes pos = Ok (d, p) -> header_offset d = pos /\ 0 <= frame_length d.
Proof.
  unfold read_data. intros E.
  apply bind_Ok in E. destruct E as (start & p0 & Htell & E).
  unfold f_tell in Htell. injection Htell as <- <-.
  do 11 (apply bind_Ok in E; destruct E as (? & ? & _ & E)).
  unfold ret in E. injection E as <- _. cbn [header_offset frame_length].
  split; [reflexivity | apply from_bytes_little_nonneg].
Qed.

Lemma parse_at_fields mm H d :
  parse_at mm H = Ok d -> header_offset d = H /\ 0 <= frame_length d.
Proof.
  unfold parse_at.
  destruct (read_data (mm_data mm) H) as [[d' p]|e] eqn:E; [|discriminate].
  intros [= ->]. exact (read_data_fields _ _ _ _ E).
Qed.

Lemma f_read_full n bytes pos :
  0 <= pos -> 0 <= n -> pos + n <= Z.of_nat (List.length bytes) ->
  f_read n bytes pos
  = Ok (firstn (Z.to_nat n) (skipn (Z.to_nat pos) bytes), pos + n).
Proof.
  intros Hpos Hn Hfit. unfold f_read.
  destruct (Z.ltb_spec n 0); [lia|].
  rewrite length_firstn, length_skipn. do 2 f_equal. lia.
Qed.

Lemma parse_at_complete mm H :
  0 <= H -> H + 22 <= mm_len mm ->
  exists d, parse_at mm H = Ok d /\
            frame_length d
            = from_bytes_little (firstn 4 (skipn (Z.to_nat (H + 12)) (mm_data mm))) /\
            data d = firstn (Z.to_nat (frame_length d)) (skipn (Z.to_nat H) (mm_data mm)).
Proof.
  unfold mm_len. intros H0 Hfit.
  unfold parse_at, read_data, bind, f_tell.
  rewrite (f_read_full 4 _ H) by lia.
  rewrite (f_read_full 1 _ (H + 4)) by lia.
  rewrite (f_read_full 1 _ (H + 4 + 1)) by lia.
  rewrite (f_read_full 1 _ (H + 4 + 1 + 1)) by lia.
  rewrite (f_read_full 1 _ (H + 4 + 1 + 1 + 1)) by lia.
  rewrite (f_read_full 4 _ (H + 4 + 1 + 1 + 1 + 1)) by lia.
  rewrite (f_read_full 4 _ (H + 4 + 1 + 1 + 1 + 1 + 4)) by lia.
  rewrite (f_read_full 4 _ (H + 4 + 1 + 1 + 1 + 1 + 4 + 4)) by lia.
  rewrite (f_read_full 2 _ (H + 4 + 1 + 1 + 1 + 1 + 4 + 4 + 4)) by lia.
  unfold f_seek_cur.
  replace (H + 4 + 1 + 1 + 1 + 1 + 4 + 4 + 4 + 2 + -22) with H by lia.
  destruct (Z.ltb_spec H 0); [lia|].
  destruct (Z.ltb_spec (Z.of_nat (List.length (mm_data mm))) H); [lia|].
  cbn [orb]. unfold f_read at 1, ret.
  pose proof (from_bytes_little_nonneg
                (firstn (Z.to_nat 4) (skipn (Z.to_nat (H + 4 + 1 + 1 + 1 + 1 + 4)) (mm_data mm)))) as Hlen.
  destruct (Z.ltb_spec (from_bytes_little
                (firstn (Z.to_nat 4) (skipn (Z.to_nat (H + 4 + 1 + 1 + 1 + 1 + 4)) (mm_data mm)))) 0); [lia|].
  eexists. split; [reflexivity|]. cbn [frame_length data].
  replace (H + 4 + 1 + 1 + 1 + 1 + 4) with (H + 12) by lia.
  split; reflexivity.
Qed.

(** ** The scan loop keeps its invariants *)

Section ScanFacts.
Variable args : Args.
Variable mm : mmap.
Variable startoffset : Z.

Local Abbreviation Inv' := (Inv args startoffset).
Local Abbreviation Good' := (Good args startoffset).
Local Abbreviation loop_body' := (loop_body args mm startoffset).
Local Abbreviation iter' := (iter args mm startoffset).
Local Abbreviation loop' := (loop args mm startoffset).

Lemma export_spec fs tstamp w :
  fs <> [] ->
  exists w', export args fs tstamp w = Ok w' /\
             alloutputfile w' = alloutputfile w /\
             selectionoutputfile w' = selectionoutputfile w /\
             info_log w' = info_log w /\
             debug_log w' = debug_log w /\
             written w' = written w ++ exported args fs tstamp.
Proof.
  intros Hfs. unfold export, exported, write_dav.
  destruct fs as [|first rest]; [contradiction|].
  destruct (timestamp_ok tstamp (starttime args) (stoptime args));
    destruct (dryrun args); cbn [negb andb];
    eexists; (split; [reflexivity|]); cbn; rewrite ?app_nil_r; auto.
Qed.

Lemma exported_from fs tstamp f :
  In f (exported args fs tstamp) -> snd f = List.concat (map data fs).
Proof.
  unfold exported. destruct fs as [|first rest]; [intros []|].
  destruct (_ && _); [|intros []]. intros [<-|[]]. reflexivity.
Qed.

Lemma initial_good : Good' (initial args).
Proof.
  split.
  - constructor; cbn; try (constructor; fail);
      try apply consecutive_nil; try apply ends_with_nil.
    + intros H. rewrite H. discriminate.
    + destruct (csv args && _); split; congruence.
    + destruct (csv args); intros rows [= <-]; constructor.
    + destruct (csv args && _); intros rows [= <-]; constructor.
    + intros _. split; [apply consecutive_nil | constructor].
  - constructor; cbn; [lia | apply ends_with_nil | intros _; apply ends_with_nil].
Qed.

Lemma inv_add_info st line :
  Inv' st -> Inv' (set_world st (add_info (world st) line)).
Proof. intros H; destruct H. constructor; cbn; assumption. Qed.

Lemma cursor_add_info c st line :
  Cursor c st -> Cursor c (set_world st (add_info (world st) line)).
Proof. intros H; destruct H. constructor; cbn; assumption. Qed.

Lemma first_date_ok st first rest :
  Inv' st -> frames st = first :: rest ->
  exists tstamp, date_to_timestamp (date first) = Some tstamp.
Proof.
  intros HI E. pose proof (inv_dates _ _ _ HI) as Hd. rewrite E in Hd.
  inversion Hd as [|? ? Hf _]. unfold date_ok in Hf.
  destruct (date_to_timestamp (date first)) as [t|]; [now exists t | contradiction].
Qed.

(** The state [close_run] leaves when it closes the buffered run. *)
Lemma close_run_flush st H first rest :
  Inv' st -> offset st < H -> frames st = first :: rest ->
  exists tstamp w,
    date_to_timestamp (date first) = Some tstamp /\
    export args (frames st) tstamp (world st) = Ok w /\
    close_run args H st
    = Ok (set_frames (set_world (note_flush (set_timestamp st tstamp)) w) []).
Proof.
  intros HI Hlt E.
  destruct (first_date_ok _ _ _ HI E) as (tstamp & Ht).
  destruct (export_spec (frames st) tstamp (world st)) as (w & Hw & _);
    [rewrite E; discriminate|].
  exists tstamp, w. split; [exact Ht|]. split; [exact Hw|].
  unfold close_run. apply Z.ltb_lt in Hlt. rewrite Hlt.
  rewrite E. cbn [nonempty andb]. rewrite Ht.
  cbn [frames world set_timestamp]. rewrite Hw. reflexivity.
Qed.

Lemma close_run_keep st H :
  (H <= offset st \/ frames st = []) -> close_run args H st = Ok st.
Proof.
  intros Hc. unfold close_run.
  destruct Hc as [Hle|E].
  - apply Z.ltb_ge in Hle. now rewrite Hle.
  - rewrite E. now rewrite andb_false_r.
Qed.

Lemma good_after_flush st first rest tstamp w c :
  Inv' st -> frames st = first :: rest -> 0 <= c ->
  alloutputfile w = alloutputfile (world st) ->
  selectionoutputfile w = selectionoutputfile (world st) ->
  debug_log w = debug_log (world st) ->
  written w = written (world st) ++ exported args (frames st) tstamp ->
  Inv' (set_frames (set_world (note_flush (set_timestamp st tstamp)) w) []) /\
  Cursor c (set_frames (set_world (note_flush (set_timestamp st tstamp)) w) []).
Proof.
  intros HI E Hc Hall Hsel Hdbg Hwr. destruct HI as [Idates Ilen Its Iall Isel Irall Irsel Iord Ifl Iwr Iadj].
  split.
  - constructor; cbn; rewrite ?Hall, ?Hsel, ?Hdbg, ?Hwr; try assumption;
      try (constructor; fail); try apply consecutive_nil; try apply ends_with_nil.
    + apply Forall_app. split; [assumption|]. constructor; [|constructor].
      split; [rewrite E; discriminate|]. split; assumption.
    + apply Forall_app. split.
      * eapply Forall_impl; [|exact Iwr].
        intros f (seg & Hin & Hf). exists seg. split; [|exact Hf].
        apply in_or_app. now left.
      * apply Forall_forall. intros f Hf. exists (frames st). split.
        -- apply in_or_app. right. now left.
        -- exact (exported_from _ _ _ Hf).
    + intros Hnil. destruct (Iadj Hnil) as [Ht Hfl].
      split; [apply consecutive_nil|].
      apply Forall_app. split; [assumption|]. constructor; [assumption|constructor].
  - constructor; cbn; [assumption | apply ends_with_nil | intros _; apply ends_with_nil].
Qed.

Lemma write_csv_spec tstamp H d w :
  (csv args = true -> alloutputfile w <> None) ->
  (selectionoutputfile w = None <->
   csv args && (truthy (starttime args) || truthy (stoptime args)) = false) ->
  exists w',
    write_csv args startoffset tstamp H d w = Ok w' /\
    written w' = written w /\ info_log w' = info_log w /\ debug_log w' = debug_log w /\
    alloutputfile w'
    = (if csv args then snoc_row (row_of startoffset tstamp H d) (alloutputfile w)
       else alloutputfile w) /\
    selectionoutputfile w'
    = (if csv args && (truthy (starttime args) || truthy (stoptime args))
          && timestamp_ok tstamp (starttime args) (stoptime args)
       then snoc_row (row_of startoffset tstamp H d) (selectionoutputfile w)
       else selectionoutputfile w).
Proof.
  intros Hall Hsel. unfold write_csv.
  destruct (csv args); cbn [andb] in *; [|now exists w].
  destruct (alloutputfile w) as [rows|] eqn:Ea; [|now destruct Hall].
  destruct (truthy (starttime args) || truthy (stoptime args)).
  - destruct (selectionoutputfile w) as [srows|] eqn:Es;
      [|destruct Hsel as [Hs _]; specialize (Hs eq_refl); discriminate].
    destruct (timestamp_ok tstamp (starttime args) (stoptime args)).
    + unfold write_selection, write_all. rewrite Es. cbn. rewrite Ea. cbn.
      eexists. split; [reflexivity|]. cbn. auto 10.
    + unfold write_all. rewrite Ea. cbn.
      eexists. split; [reflexivity|]. cbn. rewrite Es. auto 10.
  - unfold write_all. rewrite Ea. cbn.
    eexists. split; [reflexivity|]. cbn. auto 10.
Qed.

Lemma row_of_from_frame H d tstamp :
  header_offset d = H -> date_to_timestamp (date d) = Some tstamp ->
  row_from_frame startoffset (row_of startoffset tstamp H d).
Proof.
  intros <- Ht. exists d. cbn. split; [exact Ht | reflexivity].
Qed.

Lemma snoc_row_none r handle : snoc_row r handle = None <-> handle = None.
Proof. destruct handle; cbn; split; congruence. Qed.

Lemma snoc_row_rows r handle rows' (P : Row -> Prop) :
  P r -> (forall rows, handle = Some rows -> Forall P rows) ->
  snoc_row r handle = Some rows' -> Forall P rows'.
Proof.
  intros Hr Hh. destruct handle as [rows|]; cbn; [|discriminate].
  intros [= <-]. apply Forall_app. split; [now apply Hh | now constructor].
Qed.

(** A frame with a legal date is appended. *)
Lemma take_frame_append st H d tstamp :
  Inv' st -> Cursor H st -> parse_at mm H = Ok d ->
  date_to_timestamp (date d) = Some tstamp ->
  exists w,
    write_csv args startoffset tstamp H d (world st) = Ok w /\
    take_frame args startoffset H d st
    = Ok (set_frames (set_world (set_timestamp st tstamp) w) (frames st ++ [d])) /\
    Inv' (set_frames (set_world (set_timestamp st tstamp) w) (frames st ++ [d])) /\
    Cursor (H + frame_length d)
           (set_frames (set_world (set_timestamp st tstamp) w) (frames st ++ [d])).
Proof.
  intros HI HC Hp Ht. destruct (parse_at_fields _ _ _ Hp) as [Hoff Hlen].
  destruct HI as [Idates Ilen Its Iall Isel Irall Irsel Iord Ifl Iwr Iadj], HC as [Cnn Caft Cex].
  destruct (write_csv_spec tstamp H d (world st) Iall Isel)
    as (w & Hw & Hwr & Hinfo & Hdbg & Hall & Hsel).
  exists w. split; [exact Hw|]. split.
  { unfold take_frame. rewrite Ht. cbn [world set_timestamp]. now rewrite Hw. }
  pose proof (row_of_from_frame H d tstamp Hoff Ht) as Hrow.
  split.
  - constructor; cbn; rewrite ?Hwr, ?Hdbg; try assumption.
    + apply Forall_app. split; [assumption|]. constructor; [|constructor].
      unfold date_ok. rewrite Ht. discriminate.
    + apply Forall_app. split; [assumption|]. now constructor.
    + apply ends_with_snoc. now rewrite Ht.
    + intros Hc. rewrite Hall, Hc. rewrite snoc_row_none. now apply Iall.
    + rewrite Hsel. destruct (_ && _ && _); [rewrite snoc_row_none|]; exact Isel.
    + intros rows. rewrite Hall. destruct (csv args); [|apply Irall].
      apply snoc_row_rows; assumption.
    + intros rows. rewrite Hsel. destruct (_ && _ && _); [|apply Irsel].
      apply snoc_row_rows; assumption.
    + apply consecutive_snoc; [assumption|].
      eapply ends_with_impl; [|exact Caft]. intros z Hz. cbv beta in Hz. unfold follows. lia.
    + intros Hnil. destruct (Iadj Hnil) as [Hto Hfl]. split; [|assumption].
      apply consecutive_snoc; [assumption|].
      eapply ends_with_impl; [|exact (Cex Hnil)]. intros z Hz. cbv beta in Hz. unfold touches. lia.
  - constructor; cbn; [lia | |intros _]; apply ends_with_snoc; unfold span_end; lia.
Qed.

(** A frame with an illegal date only leaves a debug trace. *)
Lemma take_frame_drop st H d :
  Inv' st -> Cursor H st -> parse_at mm H = Ok d ->
  date_to_timestamp (date d) = None ->
  take_frame args startoffset H d st
  = Ok (set_world st (add_debug (world st) (date d, H))) /\
  Inv' (set_world st (add_debug (world st) (date d, H))) /\
  Cursor (H + frame_length d) (set_world st (add_debug (world st) (date d, H))).
Proof.
  intros HI HC Hp Ht. destruct (parse_at_fields _ _ _ Hp) as [Hoff Hlen].
  destruct HI as [Idates Ilen Its Iall Isel Irall Irsel Iord Ifl Iwr Iadj], HC as [Cnn Caft Cex]. split; [unfold take_frame; now rewrite Ht|]. split.
  - constructor; cbn; try assumption.
    intros Hnil. now apply app_eq_nil in Hnil.
  - constructor; cbn; [lia | |].
    + eapply ends_with_impl; [|exact Caft]. intros z Hz. cbv beta in Hz. lia.
    + intros Hnil. now apply app_eq_nil in Hnil.
Qed.

Lemma inv_after_last_flush st first rest tstamp w :
  Inv' st -> frames st = first :: rest ->
  alloutputfile w = alloutputfile (world st) ->
  selectionoutputfile w = selectionoutputfile (world st) ->
  debug_log w = debug_log (world st) ->
  written w = written (world st) ++ exported args (frames st) tstamp ->
  Inv' (set_world (note_flush st) w).
Proof.
  intros HI E Hall Hsel Hdbg Hwr. destruct HI as [Idates Ilen Its Iall Isel Irall Irsel Iord Ifl Iwr Iadj].
  constructor; cbn; rewrite ?Hall, ?Hsel, ?Hdbg, ?Hwr; try assumption.
  - apply Forall_app. split; [assumption|]. constructor; [|constructor].
    split; [rewrite E; discriminate|]. split; assumption.
  - apply Forall_app. split.
    + eapply Forall_impl; [|exact Iwr].
      intros f (seg & Hin & Hf). exists seg. split; [|exact Hf].
      apply in_or_app. now left.
    + apply Forall_forall. intros f Hf. exists (frames st). split.
      * apply in_or_app. right. now left.
      * exact (exported_from _ _ _ Hf).
  - intros Hnil. destruct (Iadj Hnil) as [Ht Hfl].
    split; [assumption|].
    apply Forall_app. split; [assumption|]. constructor; [assumption|constructor].
Qed.

(** [close_run] never fails during a scan, and leaves the cursor free to
    move to the found header. *)
Lemma close_run_good st H :
  Good' st -> offset st <= H ->
  exists st1, close_run args H st = Ok st1 /\ Inv' st1 /\ Cursor H st1.
Proof.
  intros [HI HC] Hle.
  destruct (frames st) as [|first rest] eqn:E.
  - exists st. split; [apply close_run_keep; now right|]. split; [exact HI|].
    destruct HC as [Cnn Caft Cex]. constructor; [lia | |intros _]; rewrite E; apply ends_with_nil.
  - destruct (Z.eq_dec H (offset st)) as [->|Hne].
    + exists st. split; [apply close_run_keep; left; lia|]. now split.
    + destruct (close_run_flush st H first rest HI ltac:(lia) E)
        as (tstamp & w & Ht & Hw & Hc).
      destruct (export_spec (frames st) tstamp (world st)) as (w' & Hw' & Ha & Hs & _ & Hd & Hwr);
        [rewrite E; discriminate|].
      rewrite Hw in Hw'. injection Hw' as <-.
      eexists. split; [exact Hc|].
      destruct HC as [Cnn Caft Cex]. apply (good_after_flush st first rest tstamp w H HI E); auto; lia.
Qed.

Lemma inv_set_offset st o : Inv' st -> Inv' (set_offset st o).
Proof. intros H; destruct H. constructor; cbn; assumption. Qed.

Lemma good_set_offset c st : Inv' st -> Cursor c st -> Good' (set_offset st c).
Proof.
  intros HI HC. split; [now apply inv_set_offset|].
  destruct HC as [Cnn Caft Cex]. constructor; cbn; assumption.
Qed.

Lemma good_offset_nonneg st : Good' st -> 0 <= offset st.
Proof. intros [_ HC]. now destruct HC. Qed.

(** One pass keeps the invariant, however it ends. *)
Lemma loop_body_good st :
  Good' st ->
  match loop_body' st with
  | Continue s => Good' s
  | Break s | Raised _ s => Inv' s
  end.
Proof.
  intros HG. pose proof (good_offset_nonneg _ HG) as Hoff. unfold loop_body.
  destruct (mm_find mm DHAV (offset st)) as [H|] eqn:Ef.
  - pose proof (mm_find_bounds _ _ _ _ DHAV_nonempty Hoff Ef) as Hb.
    set (st0 := set_world st _).
    assert (HG0 : Good' st0).
    { destruct HG as [HI HC]. split; [now apply inv_add_info|].
      now apply cursor_add_info. }
    destruct (close_run_good st0 H HG0) as (st1 & Hc & HI1 & HC1); [cbn; lia|].
    rewrite Hc.
    destruct (parse_at mm H) as [d|e] eqn:Ep; [|exact HI1].
    destruct (date_to_timestamp (date d)) as [tstamp|] eqn:Ed.
    + destruct (take_frame_append st1 H d tstamp HI1 HC1 Ep Ed) as (w & _ & Ht & HI2 & HC2).
      rewrite Ht. now apply good_set_offset.
    + destruct (take_frame_drop st1 H d HI1 HC1 Ep Ed) as (Ht & HI2 & HC2).
      rewrite Ht. now apply good_set_offset.
  - destruct HG as [HI HC].
    destruct (frames st) as [|first rest] eqn:E; [exact HI|].
    destruct (timestamp_var st) as [tstamp|]; [|exact HI].
    destruct (export_spec (first :: rest) tstamp (world st)) as (w & Hw & Ha & Hs & _ & Hd & Hwr);
      [discriminate|].
    rewrite Hw. rewrite <- E in Hwr.
    exact (inv_after_last_flush st first rest tstamp w HI E Ha Hs Hd Hwr).
Qed.

Lemma iter_good k : forall st st', Good' st -> iter' k st = Some st' -> Good' st'.
Proof.
  induction k as [|k IH]; intros st st' HG; cbn.
  - now intros [= <-].
  - pose proof (loop_body_good st HG) as Hstep.
    destruct (loop_body' st) as [s| |]; try discriminate.
    apply IH, Hstep.
Qed.

Lemma loop_inv fuel : forall st st',
  Good' st -> final_state (loop' fuel st) = Some st' -> Inv' st'.
Proof.
  induction fuel as [|fuel IH]; intros st st' HG; cbn; [discriminate|].
  pose proof (loop_body_good st HG) as Hstep.
  destruct (loop_body' st) as [s|s|e s]; cbn.
  - now apply IH.
  - now intros [= <-].
  - now intros [= <-].
Qed.
End ScanFacts.

(** ** Single passes of the loop *)

Lemma reachable_good args mm startoffset k st :
  iter args mm startoffset k (initial args) = Some st -> Good args startoffset st.
Proof. apply iter_good, initial_good. Qed.

(** What a pass does when the found header lies beyond the cursor and
    frames are buffered. *)
Lemma gap_step args mm startoffset st H d :
  Good args startoffset st ->
  mm_find mm DHAV (offset st) = Some H -> offset st < H -> frames st <> [] ->
  parse_at mm H = Ok d ->
  exists first tstamp st',
    hd_error (frames st) = Some first /\
    date_to_timestamp (date first) = Some tstamp /\
    loop_body args mm startoffset st = Continue st' /\
    flushed st' = flushed st ++ [frames st] /\
    written (world st') = written (world st) ++ exported args (frames st) tstamp /\
    frames st' = match date_to_timestamp (date d) with Some _ => [d] | None => [] end /\
    offset st' = H + frame_length d.
Proof.
  intros [HI HC] Ef Hlt Hne Hp.
  destruct (frames st) as [|first rest] eqn:E; [contradiction|]. clear Hne.
  set (st0 := set_world st (add_info (world st) (H + startoffset, filesize mm startoffset))).
  assert (HI0 : Inv args startoffset st0) by now apply inv_add_info.
  assert (E0 : frames st0 = first :: rest) by exact E.
  destruct (close_run_flush args startoffset st0 H first rest HI0 Hlt E0)
    as (tstamp & w & Ht & Hw & Hc).
  destruct (export_spec args (frames st0) tstamp (world st0))
    as (w' & Hw' & Ha & Hs & _ & Hd & Hwr); [rewrite E0; discriminate|].
  rewrite Hw in Hw'. injection Hw' as <-.
  destruct HC as [Cnn _ _].
  destruct (good_after_flush args startoffset st0 first rest tstamp w H HI0 E0
              ltac:(lia) Ha Hs Hd Hwr) as [HI1 HC1].
  exists first, tstamp.
  unfold loop_body. rewrite Ef. fold st0. rewrite Hc, Hp.
  destruct (date_to_timestamp (date d)) as [td|] eqn:Ed.
  - destruct (take_frame_append args mm startoffset _ H d td HI1 HC1 Hp Ed)
      as (w2 & Hw2 & Htf & _ & _).
    destruct (write_csv_spec args startoffset td H d _ (inv_all _ _ _ HI1)
                (inv_selection _ _ _ HI1))
      as (w3 & Hw3 & Hwr3 & _ & Hd3 & _).
    rewrite Hw2 in Hw3. injection Hw3 as <-.
    rewrite Htf. eexists. split; [reflexivity|]. split; [exact Ht|].
    split; [reflexivity|]. unfold st0 in Hwr. cbn in Hwr3, Hwr |- *.
    rewrite Hwr3, Hwr, E. auto.
  - destruct (take_frame_drop args mm startoffset _ H d HI1 HC1 Hp Ed) as (Htf & _ & _).
    rewrite Htf. eexists. split; [reflexivity|]. split; [exact Ht|].
    split; [reflexivity|]. unfold st0 in Hwr. cbn in Hwr |- *.
    rewrite Hwr, E. auto.
Qed.

(** What a pass does with a frame whose date does not decode. *)
Lemma illegal_step args mm startoffset st H d :
  Good args startoffset st ->
  mm_find mm DHAV (offset st) = Some H -> parse_at mm H = Ok d ->
  date_to_timestamp (date d) = None ->
  exists st',
    loop_body args mm startoffset st = Continue st' /\
    offset st' = H + frame_length d /\
    frames st' = (if offset st <? H then [] else frames st) /\
    alloutputfile (world st') = alloutputfile (world st) /\
    selectionoutputfile (world st') = selectionoutputfile (world st) /\
    debug_log (world st') = debug_log (world st) ++ [(date d, H)] /\
    (forall f, In f (written (world st')) ->
               In f (written (world st)) \/ snd f = List.concat (map data (frames st))) /\
    (forall seg, In seg (flushed st') -> In seg (flushed st) \/ seg = frames st).
Proof.
  intros HG Ef Hp Ed.
  pose proof (good_offset_nonneg _ _ _ HG) as Hnn.
  pose proof (mm_find_bounds _ _ _ _ DHAV_nonempty Hnn Ef) as Hb.
  destruct HG as [HI HC].
  set (st0 := set_world st (add_info (world st) (H + startoffset, filesize mm startoffset))).
  assert (HI0 : Inv args startoffset st0) by now apply inv_add_info.
  assert (HC0 : Cursor (offset st) st0) by now apply cursor_add_info.
  unfold loop_body. rewrite Ef. fold st0.
  destruct (frames st) as [|first rest] eqn:E.
  - (* nothing buffered *)
    rewrite (close_run_keep args st0 H) by (right; exact E). rewrite Hp.
    assert (HC1 : Cursor H st0).
    { destruct HC0 as [Cnn Caft Cex].
      constructor; [lia | |intros _]; cbn; rewrite E; apply ends_with_nil. }
    destruct (take_frame_drop args mm startoffset st0 H d HI0 HC1 Hp Ed) as (Htf & _ & _).
    rewrite Htf. eexists. split; [reflexivity|]. cbn. rewrite E.
    destruct (offset st <? H); auto 10.
  - destruct (Z.eq_dec H (offset st)) as [->|Hne].
    + rewrite (close_run_keep args st0 (offset st)) by (left; cbn; lia). rewrite Hp.
      destruct (take_frame_drop args mm startoffset st0 _ d HI0 HC0 Hp Ed) as (Htf & _ & _).
      rewrite Htf. eexists. split; [reflexivity|]. cbn. rewrite E, Z.ltb_irrefl. auto 10.
    + assert (Hlt : offset st0 < H) by (cbn; lia).
      assert (E0 : frames st0 = first :: rest) by exact E.
      destruct (close_run_flush args startoffset st0 H first rest HI0 Hlt E0)
        as (tstamp & w & Ht & Hw & Hc).
      destruct (export_spec args (frames st0) tstamp (world st0))
        as (w' & Hw' & Ha & Hs & _ & Hd & Hwr); [rewrite E0; discriminate|].
      rewrite Hw in Hw'. injection Hw' as <-.
      destruct (good_after_flush args startoffset st0 first rest tstamp w H HI0 E0
                  ltac:(lia) Ha Hs Hd Hwr) as [HI1 HC1].
      rewrite Hc, Hp.
      destruct (take_frame_drop args mm startoffset _ H d HI1 HC1 Hp Ed) as (Htf & _ & _).
      rewrite Htf. eexists. split; [reflexivity|].
      unfold st0 in Ha, Hs, Hd, Hwr. cbn in Ha, Hs, Hd, Hwr |- *.
      rewrite Ha, Hs, Hd, Hwr, E.
      assert (Hlt' : (offset st <? H) = true) by (apply Z.ltb_lt; lia). rewrite Hlt'.
      repeat split; auto.
      * intros f Hf. apply in_app_or in Hf. destruct Hf as [Hf|Hf]; [now left|].
        right. exact (exported_from _ _ _ _ Hf).
      * intros seg Hs'. apply in_app_or in Hs'. destruct Hs' as [Hs'|[<-|[]]]; auto.
Qed.

(** A pass that finds and parses a frame goes on, with the cursor at the
    end of the span the frame declares. *)
Lemma found_step args mm startoffset st H d :
  Good args startoffset st ->
  mm_find mm DHAV (offset st) = Some H -> parse_at mm H = Ok d ->
  exists st', loop_body args mm startoffset st = Continue st' /\
              offset st' = H + frame_length d.
Proof.
  intros HG Ef Hp.
  pose proof (mm_find_bounds _ _ _ _ DHAV_nonempty (good_offset_nonneg _ _ _ HG) Ef) as Hb.
  set (st0 := set_world st (add_info (world st) (H + startoffset, filesize mm startoffset))).
  assert (HG0 : Good args startoffset st0).
  { destruct HG as [HI HC]. split; [now apply inv_add_info | now apply cursor_add_info]. }
  destruct (close_run_good args startoffset st0 H HG0) as (st1 & Hc & HI1 & HC1); [cbn; lia|].
  unfold loop_body. rewrite Ef. fold st0. rewrite Hc, Hp.
  destruct (date_to_timestamp (date d)) as [tstamp|] eqn:Ed.
  - destruct (take_frame_append args mm startoffset st1 H d tstamp HI1 HC1 Hp Ed)
      as (w & _ & Ht & _). rewrite Ht. eexists. split; reflexivity.
  - destruct (take_frame_drop args mm startoffset st1 H d HI1 HC1 Hp Ed) as (Ht & _).
    rewrite Ht. eexists. split; reflexivity.
Qed.

Lemma loop_body_continue args mm startoffset st st' :
  loop_body args mm startoffset st = Continue st' ->
  exists H d, mm_find mm DHAV (offset st) = Some H /\ parse_at mm H = Ok d /\
              offset st' = H + frame_length d.
Proof.
  unfold loop_body.
  destruct (mm_find mm DHAV (offset st)) as [H|] eqn:Ef.
  - destruct (close_run _ _ _) as [st1|]; [|discriminate].
    destruct (parse_at mm H) as [d|] eqn:Ep; [|discriminate].
    destruct (take_frame _ _ _ _ _) as [st2|]; [|discriminate].
    intros [= <-]. exists H, d. repeat split; auto.
  - destruct (frames st); [discriminate|].
    destruct (timestamp_var st); [|discriminate].
    destruct (export _ _ _ _); discriminate.
Qed.

(** ** Runs of the loop *)

Section Runs.
Variable args : Args.
Variable mm : mmap.
Variable startoffset : Z.

Local Abbreviation Good' := (Good args startoffset).
Local Abbreviation loop_body' := (loop_body args mm startoffset).
Local Abbreviation iter' := (iter args mm startoffset).
Local Abbreviation loop' := (loop args mm startoffset).

Lemma iter_add k : forall m st st',
  iter' k st = Some st' -> iter' (k + m) st = iter' m st'.
Proof.
  induction k as [|k IH]; intros m st st'; cbn.
  - now intros [= <-].
  - destruct (loop_body' st) as [s| |]; try discriminate. apply IH.
Qed.

(** A run that is still going after [k] passes never stops if it never
    stops from there. *)
Lemma loop_stuck_from k : forall st st',
  iter' k st = Some st' ->
  (forall fuel, loop' fuel st' = OutOfFuel) ->
  forall fuel, loop' fuel st = OutOfFuel.
Proof.
  induction k as [|k IH]; intros st st'; cbn.
  - now intros [= <-].
  - destruct (loop_body' st) as [s| |] eqn:E; try discriminate.
    intros Hk Hst' [|fuel]; cbn; [reflexivity|]. rewrite E. now apply (IH s st').
Qed.

(** With every parsed frame at least one byte long, the loop is over
    before the cursor has gone through the map. *)
Lemma loop_terminates fuel : forall st,
  Good' st ->
  (Z.to_nat (mm_len mm + 1 - offset st) < fuel)%nat ->
  (forall k st' H d, iter' k st = Some st' ->
     mm_find mm DHAV (offset st') = Some H -> parse_at mm H = Ok d ->
     1 <= frame_length d) ->
  loop' fuel st <> OutOfFuel.
Proof.
  induction fuel as [|fuel IH]; intros st HG Hfuel Hlen; [lia|]. cbn.
  pose proof (loop_body_good args mm startoffset st HG) as Hstep.
  destruct (loop_body' st) as [s|s|e s] eqn:E; try discriminate.
  destruct (loop_body_continue _ _ _ _ _ E) as (H & d & Ef & Ep & Ho).
  pose proof (good_offset_nonneg _ _ _ HG) as Hnn.
  pose proof (mm_find_bounds _ _ _ _ DHAV_nonempty Hnn Ef) as Hb.
  pose proof (Hlen 0%nat st H d eq_refl Ef Ep) as Hd.
  apply IH; [exact Hstep | lia |].
  intros k st' H' d' Hk. apply (Hlen (S k)). cbn. now rewrite E.
Qed.

(** A frame that declares no length holds the cursor on its signature. *)
Lemma zero_length_step st H d :
  Good' st -> mm_find mm DHAV (offset st) = Some H -> parse_at mm H = Ok d ->
  frame_length d = 0 ->
  exists st', loop_body' st = Continue st' /\ Good' st' /\ offset st' = H /\
              mm_find mm DHAV (offset st') = Some H.
Proof.
  intros HG Ef Ep Hz.
  destruct (found_step args mm startoffset st H d HG Ef Ep) as (st' & Hs & Ho).
  exists st'. split; [exact Hs|].
  pose proof (loop_body_good args mm startoffset st HG) as Hstep. rewrite Hs in Hstep.
  split; [exact Hstep|]. rewrite Ho, Hz, Z.add_0_r. split; [reflexivity|].
  apply (mm_find_again mm DHAV (offset st) H DHAV_nonempty); [|exact Ef].
  exact (good_offset_nonneg _ _ _ HG).
Qed.

Lemma zero_length_iter n : forall st H d,
  Good' st -> mm_find mm DHAV (offset st) = Some H -> parse_at mm H = Ok d ->
  frame_length d = 0 ->
  exists st', iter' (S n) st = Some st' /\ offset st' = H /\
              mm_find mm DHAV (offset st') = Some H.
Proof.
  induction n as [|n IH]; intros st H d HG Ef Ep Hz;
    destruct (zero_length_step st H d HG Ef Ep Hz) as (s & Hs & HGs & Ho & Efs).
  - exists s. cbn. rewrite Hs. auto.
  - rewrite Ho in Efs.
    assert (Efs' : mm_find mm DHAV (offset s) = Some H) by now rewrite Ho.
    destruct (IH s H d HGs Efs' Ep Hz) as (st' & Hi & Ho' & Ef').
    exists st'. split; [|auto]. change (S (S n)) with (1 + S n)%nat.
    rewrite (iter_add 1 (S n) st s); [exact Hi|]. cbn. now rewrite Hs.
Qed.

Lemma zero_length_loop fuel : forall st H d,
  Good' st -> mm_find mm DHAV (offset st) = Some H -> parse_at mm H = Ok d ->
  frame_length d = 0 ->
  loop' fuel st = OutOfFuel.
Proof.
  induction fuel as [|fuel IH]; intros st H d HG Ef Ep Hz; [reflexivity|].
  destruct (zero_length_step st H d HG Ef Ep Hz) as (s & Hs & HGs & Ho & Efs).
  cbn. rewrite Hs. apply (IH s H d); auto.
Qed.
End Runs.

(** The state a run of [main] ends with satisfies the invariant. *)
Lemma main_inv granularity args file fuel st :
  final_state (main granularity args file fuel) = Some st ->
  Inv args (round_down granularity (skip args)) st.
Proof.
  unfold main. destruct (mmap_open file _) as [mm|e].
  - destruct (loop args mm _ fuel (initial args)) as [s|e s|] eqn:E.
    + assert (HI : Inv args (round_down granularity (skip args)) s).
      { apply (loop_inv args mm _ fuel (initial args)); [apply initial_good|].
        now rewrite E. }
      unfold close_csv. destruct (csv args); [|now intros [= <-]].
      destruct (selectionoutputfile (world s)); [|now intros [= <-]].
      destruct (alloutputfile (world s)); now intros [= <-].
    + intros [= <-]. apply (loop_inv args mm _ fuel (initial args)); [apply initial_good|].
      now rewrite E.
    + discriminate.
  - intros [= <-]. apply initial_good.
Qed.

(** * The claims *)

(** C1 (as amended).  When the scanner finds a header [H] beyond the cursor
    while frames are buffered, the pass goes on: the buffered frames reach
    the export decision as one segment, filtered on the first frame's
    timestamp, and the buffer afterwards holds the frame at [H] alone if its
    date decodes and nothing if it does not.  On frames at 0, 100 and 200 of
    100 bytes each and a frame at 500, the run flushes the segment of the
    first three frames, then the one that starts at 500. *)
Theorem gap_flushes_buffered_segment :
  (forall args mm startoffset k st H d,
     iter args mm startoffset k (initial args) = Some st ->
     mm_find mm DHAV (offset st) = Some H -> offset st < H -> frames st <> [] ->
     parse_at mm H = Ok d ->
     exists first tstamp st',
       hd_error (frames st) = Some first /\
       date_to_timestamp (date first) = Some tstamp /\
       loop_body args mm startoffset st = Continue st' /\
       flushed st' = flushed st ++ [frames st] /\
       written (world st') = written (world st) ++ exported args (frames st) tstamp /\
       frames st' = match date_to_timestamp (date d) with Some _ => [d] | None => [] end /\
       offset st' = H + frame_length d) /\
  (map header_offset (frames (state_after plain_args (map_of file_contiguity) 0 3))
   = [0; 100; 200] /\
   flushed (state_after plain_args (map_of file_contiguity) 0 3) = [] /\
   map header_offset (frames (state_after plain_args (map_of file_contiguity) 0 4))
   = [500] /\
   exists st, main 4096 plain_args file_contiguity 5 = Done st /\
              map (map header_offset) (flushed st) = [[0; 100; 200]; [500]] /\
              map snd (written (world st))
              = [firstn 300 file_contiguity; skipn 500 file_contiguity]).
Proof.
  split.
  - intros args mm startoffset k st H d Hk. apply gap_step.
    exact (reachable_good _ _ _ _ _ Hk).
  - split; [vm_compute; reflexivity|]. split; [vm_compute; reflexivity|].
    split; [vm_compute; reflexivity|].
    eexists. split; [vm_compute; reflexivity|]. split; vm_compute; reflexivity.
Qed.

Lemma gap_flushes_buffered_segment_witness :
  exists first tstamp st',
    hd_error (frames (state_after plain_args (map_of file_contiguity) 0 3)) = Some first /\
    date_to_timestamp (date first) = Some tstamp /\
    loop_body plain_args (map_of file_contiguity) 0
      (state_after plain_args (map_of file_contiguity) 0 3) = Continue st' /\
    flushed st' = flushed (state_after plain_args (map_of file_contiguity) 0 3)
                  ++ [frames (state_after plain_args (map_of file_contiguity) 0 3)] /\
    written (world st')
    = written (world (state_after plain_args (map_of file_contiguity) 0 3))
      ++ exported plain_args (frames (state_after plain_args (map_of file_contiguity) 0 3)) tstamp /\
    frames st' = match date_to_timestamp (date (frame_at (map_of file_contiguity) 500)) with
                 | Some _ => [frame_at (map_of file_contiguity) 500]
                 | None => []
                 end /\
    offset st' = 500 + frame_length (frame_at (map_of file_contiguity) 500).
Proof.
  apply (proj1 gap_flushes_buffered_segment plain_args (map_of file_contiguity) 0 3%nat
           (state_after plain_args (map_of file_contiguity) 0 3) 500
           (frame_at (map_of file_contiguity) 500)).
  - vm_compute; reflexivity.
  - vm_compute; reflexivity.
  - vm_compute; reflexivity.
  - vm_compute; discriminate.
  - vm_compute; reflexivity.
Defined.

(** C1, as stated, fails: after a frame at 0 and a hole, the frame found at
    30 has an illegal date; the buffered segment is flushed, but the frame
    at 30 starts no segment, the buffer stays empty. *)
Lemma gap_frame_with_illegal_date_starts_no_segment :
  exists st',
    iter plain_args (map_of file_gap_then_illegal) 0 1 (initial plain_args)
    = Some (state_after plain_args (map_of file_gap_then_illegal) 0 1) /\
    frames (state_after plain_args (map_of file_gap_then_illegal) 0 1) <> [] /\
    mm_find (map_of file_gap_then_illegal) DHAV
      (offset (state_after plain_args (map_of file_gap_then_illegal) 0 1)) = Some 30 /\
    offset (state_after plain_args (map_of file_gap_then_illegal) 0 1) < 30 /\
    loop_body plain_args (map_of file_gap_then_illegal) 0
      (state_after plain_args (map_of file_gap_then_illegal) 0 1) = Continue st' /\
    flushed st' = [frames (state_after plain_args (map_of file_gap_then_illegal) 0 1)] /\
    frames st' = [] /\
    frames st' <> [frame_at (map_of file_gap_then_illegal) 30].
Proof.
  eexists. split; [vm_compute; reflexivity|]. split; [vm_compute; discriminate|].
  split; [vm_compute; reflexivity|]. split; [vm_compute; reflexivity|].
  split; [vm_compute; reflexivity|]. split; [vm_compute; reflexivity|].
  split; [vm_compute; reflexivity | vm_compute; discriminate].
Qed.

(** C2.  Packing a calendar-valid date-time with a year in 2000..2063 into
    the bit fields of the packed date gives a 32-bit word, and
    [date_to_timestamp] decodes that word to the date-time packed. *)
Theorem packed_date_round_trip (t : datetime) :
  representable t ->
  0 <= pack_date t < 2 ^ 32 /\ date_to_timestamp (pack_date t) = Some t.
Proof.
  intros [Hy Hv].
  destruct (valid_datetime_bounds _ _ _ _ _ _ Hv) as (Hmo & Hd & Hh & Hmi & Hs).
  pose proof (pack_date_sum t ltac:(lia) ltac:(lia) ltac:(lia) ltac:(lia) ltac:(lia)) as Hsum.
  split; [rewrite Hsum; lia|].
  unfold date_to_timestamp.
  change 63 with (Z.ones 6). change 31 with (Z.ones 5). change 15 with (Z.ones 4).
  rewrite !Z.land_ones, !Z.shiftr_div_pow2 by lia.
  rewrite Hsum.
  set (word := second t + 64 * minute t + 4096 * hour t + 131072 * day t
               + 4194304 * month t + 67108864 * (year t - 2000)).
  assert (E1 : word mod 2 ^ 6 = second t)
    by (subst word; Z.div_mod_to_equations; lia).
  assert (E2 : (word / 2 ^ 6) mod 2 ^ 6 = minute t)
    by (subst word; Z.div_mod_to_equations; lia).
  assert (E3 : (word / 2 ^ 12) mod 2 ^ 5 = hour t)
    by (subst word; Z.div_mod_to_equations; lia).
  assert (E4 : (word / 2 ^ 17) mod 2 ^ 5 = day t)
    by (subst word; Z.div_mod_to_equations; lia).
  assert (E5 : (word / 2 ^ 22) mod 2 ^ 4 = month t)
    by (subst word; Z.div_mod_to_equations; lia).
  assert (E6 : (word / 2 ^ 26) mod 2 ^ 6 = year t - 2000)
    by (subst word; Z.div_mod_to_equations; lia).
  rewrite E1, E2, E3, E4, E5, E6.
  replace (year t - 2000 + 2000) with (year t) by lia.
  unfold new_datetime. rewrite Hv. destruct t; reflexivity.
Qed.

Lemma packed_date_round_trip_witness :
  0 <= pack_date (mk_dt 2024 2 29 23 59 59) < 2 ^ 32 /\
  date_to_timestamp (pack_date (mk_dt 2024 2 29 23 59 59))
  = Some (mk_dt 2024 2 29 23 59 59).
Proof.
  apply (packed_date_round_trip (mk_dt 2024 2 29 23 59 59)).
  split; [cbn; lia | vm_compute; reflexivity].
Defined.

(** C3.  A frame whose date does not decode does not stop the scan.  The
    pass goes on with the cursor at the frame's header offset plus its
    declared length; the frame is not in the buffer afterwards (which is
    what it was, or empty after a flush); no CSV row is written; the one
    new output is the debug trace; a file written in this pass holds the
    previously buffered frames only.  Throughout a run, every buffered or
    flushed frame has a date that decodes, every written file is the
    concatenation of a flushed segment, and every CSV row comes from a frame
    whose date decodes. *)
Theorem illegal_date_frame_is_skipped :
  (forall args mm startoffset k st H d,
     iter args mm startoffset k (initial args) = Some st ->
     mm_find mm DHAV (offset st) = Some H -> parse_at mm H = Ok d ->
     date_to_timestamp (date d) = None ->
     exists st',
       loop_body args mm startoffset st = Continue st' /\
       offset st' = H + frame_length d /\
       frames st' = (if offset st <? H then [] else frames st) /\
       ~ In d (frames st') /\
       alloutputfile (world st') = alloutputfile (world st) /\
       selectionoutputfile (world st') = selectionoutputfile (world st) /\
       debug_log (world st') = debug_log (world st) ++ [(date d, H)] /\
       (forall f, In f (written (world st')) ->
                  In f (written (world st)) \/ snd f = List.concat (map data (frames st))) /\
       (forall seg, In seg (flushed st') -> ~ In d seg)) /\
  (forall granularity args file fuel st,
     final_state (main granularity args file fuel) = Some st ->
     Forall date_ok (frames st) /\
     Forall (Forall date_ok) (flushed st) /\
     Forall (fun f => exists seg, In seg (flushed st) /\ snd f = List.concat (map data seg))
            (written (world st)) /\
     (forall rows, alloutputfile (world st) = Some rows ->
                   Forall (row_from_frame (round_down granularity (skip args))) rows) /\
     (forall rows, selectionoutputfile (world st) = Some rows ->
                   Forall (row_from_frame (round_down granularity (skip args))) rows)).
Proof.
  split.
  - intros args mm startoffset k st H d Hk Ef Ep Ed.
    pose proof (reachable_good _ _ _ _ _ Hk) as HG.
    assert (Hnot : forall fs, Forall date_ok fs -> ~ In d fs).
    { intros fs Hfs Hin. rewrite Forall_forall in Hfs. apply (Hfs d Hin). exact Ed. }
    destruct (illegal_step args mm startoffset st H d HG Ef Ep Ed)
      as (st' & Hs & Ho & Hf & Ha & Hse & Hd & Hw & Hfl).
    exists st'. destruct HG as [HI _].
    repeat (split; [assumption|]). split.
    + rewrite Hf. destruct (offset st <? H); [intros []|].
      apply Hnot, (inv_dates _ _ _ HI).
    + repeat (split; [assumption|]).
      intros seg Hseg. destruct (Hfl seg Hseg) as [Hin| ->].
      * pose proof (inv_flushed _ _ _ HI) as Hall. rewrite Forall_forall in Hall.
        apply Hnot, (Hall seg Hin).
      * apply Hnot, (inv_dates _ _ _ HI).
  - intros granularity args file fuel st Hst.
    pose proof (main_inv _ _ _ _ _ Hst) as HI.
    split; [exact (inv_dates _ _ _ HI)|]. split.
    + eapply Forall_impl; [|exact (inv_flushed _ _ _ HI)]. intros seg H. apply H.
    + split; [exact (inv_written _ _ _ HI)|].
      split; [exact (inv_rows_all _ _ _ HI) | exact (inv_rows_selection _ _ _ HI)].
Qed.

Lemma illegal_date_frame_is_skipped_witness :
  exists st',
    loop_body plain_args (map_of file_gap_then_illegal) 0
      (state_after plain_args (map_of file_gap_then_illegal) 0 1) = Continue st' /\
    offset st' = 30 + frame_length (frame_at (map_of file_gap_then_illegal) 30) /\
    frames st'
    = (if offset (state_after plain_args (map_of file_gap_then_illegal) 0 1) <? 30
       then [] else frames (state_after plain_args (map_of file_gap_then_illegal) 0 1)) /\
    ~ In (frame_at (map_of file_gap_then_illegal) 30) (frames st') /\
    alloutputfile (world st')
    = alloutputfile (world (state_after plain_args (map_of file_gap_then_illegal) 0 1)) /\
    selectionoutputfile (world st')
    = selectionoutputfile (world (state_after plain_args (map_of file_gap_then_illegal) 0 1)) /\
    debug_log (world st')
    = debug_log (world (state_after plain_args (map_of file_gap_then_illegal) 0 1))
      ++ [(date (frame_at (map_of file_gap_then_illegal) 30), 30)] /\
    (forall f, In f (written (world st')) ->
               In f (written (world (state_after plain_args (map_of file_gap_then_illegal) 0 1)))
               \/ snd f = List.concat
                            (map data (frames (state_after plain_args
                                                 (map_of file_gap_then_illegal) 0 1)))) /\
    (forall seg, In seg (flushed st') -> ~ In (frame_at (map_of file_gap_then_illegal) 30) seg).
Proof.
  apply (proj1 illegal_date_frame_is_skipped plain_args (map_of file_gap_then_illegal) 0 1%nat
           (state_after plain_args (map_of file_gap_then_illegal) 0 1) 30
           (frame_at (map_of file_gap_then_illegal) 30)).
  - vm_compute; reflexivity.
  - vm_compute; reflexivity.
  - vm_compute; reflexivity.
  - vm_compute; reflexivity.
Defined.

(** C4 (the code departs from the claim).  The flush at the end of the scan
    filters on the variable [timestamp], which holds the date of the last
    buffered frame.  With [--start 20240301000000] and two adjacent frames,
    the first of 1 January 2024 and the second of 1 June 2024, the segment
    is written although the filter rejects its first frame's timestamp. *)
Theorem last_flush_filters_on_last_frame :
  exists st a b ta,
    main 4096 args_from_march file_two_dates 5 = Done st /\
    flushed st = [[a; b]] /\
    date_to_timestamp (date a) = Some ta /\
    timestamp_ok ta (starttime args_from_march) (stoptime args_from_march) = false /\
    timestamp_var st = date_to_timestamp (date b) /\
    map snd (written (world st)) = [file_two_dates].
Proof.
  do 4 eexists. split; [vm_compute; reflexivity|].
  split; [vm_compute; reflexivity|]. split; [vm_compute; reflexivity|].
  split; [vm_compute; reflexivity|]. split; vm_compute; reflexivity.
Qed.

(** C5 (the code departs from the claim).  A header cut after its date
    field, two bytes into the input: the reads stop at the end of the map,
    the relative seek of 22 bytes lands on offset 0, and the exported file
    holds the first 20 bytes of the input, not the 20 bytes from the frame's
    offset 2. *)
Theorem cut_header_exports_the_wrong_span :
  exists st d,
    main 4096 plain_args file_cut_header 5 = Done st /\
    flushed st = [[d]] /\
    header_offset d = 2 /\ frame_length d = 20 /\
    map snd (written (world st)) = [firstn 20 file_cut_header] /\
    firstn 20 file_cut_header
    <> firstn (Z.to_nat (frame_length d)) (skipn (Z.to_nat (header_offset d)) file_cut_header).
Proof.
  do 2 eexists. split; [vm_compute; reflexivity|].
  split; [vm_compute; reflexivity|]. split; [vm_compute; reflexivity|].
  split; [vm_compute; reflexivity|]. split; [vm_compute; reflexivity|].
  vm_compute. discriminate.
Qed.

(** C6 (the code departs from the claim).  With [--skip 4096] on a platform
    whose granularity is 4096 and an input of 8192 bytes with signatures at
    0 and at 4096 only, the map is the first 4096 bytes of the input: the
    one progress line reports the frame of offset 0 at 4096, with a file
    size of 12288, and the frame at 4096 is never found. *)
Theorem skip_maps_the_head_of_the_file :
  exists st mm,
    mmap_open file_two_pages (round_down 4096 (skip args_skip_page)) = Ok mm /\
    mm_data mm = firstn 4096 file_two_pages /\
    main 4096 args_skip_page file_two_pages 5 = Done st /\
    info_log (world st) = [(4096, 12288)] /\
    map (map header_offset) (flushed st) = [[0]] /\
    mm_find (map_of file_two_pages) DHAV 0 = Some 0 /\
    mm_find (map_of file_two_pages) DHAV 1 = Some 4096 /\
    mm_find (map_of file_two_pages) DHAV 4097 = None.
Proof.
  do 2 eexists. split; [vm_compute; reflexivity|].
  split; [vm_compute; reflexivity|]. split; [vm_compute; reflexivity|].
  split; [vm_compute; reflexivity|]. split; [vm_compute; reflexivity|].
  split; [vm_compute; reflexivity|]. split; vm_compute; reflexivity.
Qed.

(** C9.  If every frame the loop parses declares a length of at least 1,
    the cursor grows with every pass and the loop is over within as many
    passes as the map has bytes, plus two.  If some parsed frame declares a
    length of 0, every later pass finds the same header offset again and the
    loop never ends. *)
Theorem scan_loop_termination args mm startoffset :
  ((forall k st H d,
      iter args mm startoffset k (initial args) = Some st ->
      mm_find mm DHAV (offset st) = Some H -> parse_at mm H = Ok d ->
      1 <= frame_length d) ->
   (forall k st st',
      iter args mm startoffset k (initial args) = Some st ->
      loop_body args mm startoffset st = Continue st' -> offset st < offset st') /\
   loop args mm startoffset (S (S (List.length (mm_data mm)))) (initial args) <> OutOfFuel) /\
  (forall k st H d,
     iter args mm startoffset k (initial args) = Some st ->
     mm_find mm DHAV (offset st) = Some H -> parse_at mm H = Ok d ->
     frame_length d = 0 ->
     (forall n, exists st',
        iter args mm startoffset (k + S n) (initial args) = Some st' /\
        offset st' = H /\ mm_find mm DHAV (offset st') = Some H) /\
     (forall fuel, loop args mm startoffset fuel (initial args) = OutOfFuel)).
Proof.
  split.
  - intros Hlen. split.
    + intros k st st' Hk Hs.
      destruct (loop_body_continue _ _ _ _ _ Hs) as (H & d & Ef & Ep & Ho).
      pose proof (reachable_good _ _ _ _ _ Hk) as HG.
      pose proof (mm_find_bounds _ _ _ _ DHAV_nonempty (good_offset_nonneg _ _ _ HG) Ef).
      pose proof (Hlen k st H d Hk Ef Ep). lia.
    + apply loop_terminates; [apply initial_good | unfold mm_len; cbn; lia | exact Hlen].
  - intros k st H d Hk Ef Ep Hz.
    pose proof (reachable_good _ _ _ _ _ Hk) as HG. split.
    + intros n.
      destruct (zero_length_iter args mm startoffset n st H d HG Ef Ep Hz) as (st' & Hi & Ho).
      exists st'. split; [|exact Ho].
      rewrite (iter_add args mm startoffset k (S n) _ st Hk). exact Hi.
    + apply (loop_stuck_from args mm startoffset k _ st Hk).
      intros fuel. exact (zero_length_loop args mm startoffset fuel st H d HG Ef Ep Hz).
Qed.

Lemma scan_loop_termination_witness :
  ((forall k st st',
      iter plain_args (map_of file_two_dates) 0 k (initial plain_args) = Some st ->
      loop_body plain_args (map_of file_two_dates) 0 st = Continue st' ->
      offset st < offset st') /\
   loop plain_args (map_of file_two_dates) 0
     (S (S (List.length (mm_data (map_of file_two_dates))))) (initial plain_args) <> OutOfFuel) /\
  ((forall n, exists st',
      iter plain_args (map_of file_zero_length) 0 (0 + S n) (initial plain_args) = Some st' /\
      offset st' = 0 /\ mm_find (map_of file_zero_length) DHAV (offset st') = Some 0) /\
   (forall fuel,
      loop plain_args (map_of file_zero_length) 0 fuel (initial plain_args) = OutOfFuel)).
Proof.
  split.
  - apply (proj1 (scan_loop_termination plain_args (map_of file_two_dates) 0)).
    intros k st H d Hk Ef Ep.
    destruct k as [|[|[|k]]].
    + injection Hk as <-. vm_compute in Ef. injection Ef as <-.
      vm_compute in Ep. injection Ep as <-. vm_compute. discriminate.
    + vm_compute in Hk. injection Hk as <-. vm_compute in Ef. injection Ef as <-.
      vm_compute in Ep. injection Ep as <-. vm_compute. discriminate.
    + vm_compute in Hk. injection Hk as <-. vm_compute in Ef. discriminate.
    + vm_compute in Hk. discriminate.
  - apply (proj2 (scan_loop_termination plain_args (map_of file_zero_length) 0) 0%nat
             (initial plain_args) 0 (frame_at (map_of file_zero_length) 0)).
    + reflexivity.
    + vm_compute; reflexivity.
    + vm_compute; reflexivity.
    + vm_compute; reflexivity.
Defined.

(** ** More on the header parser *)

Lemma f_read_at n bytes pos :
  0 <= pos <= Z.of_nat (List.length bytes) -> 0 <= n ->
  f_read n bytes pos
  = Ok (firstn (Z.to_nat n) (skipn (Z.to_nat pos) bytes),
        Z.min (pos + n) (Z.of_nat (List.length bytes))).
Proof.
  intros Hpos Hn. unfold f_read.
  destruct (Z.ltb_spec n 0); [lia|].
  rewrite length_firstn, length_skipn. do 2 f_equal. lia.
Qed.

Lemma from_bytes_little_bound bs :
  0 <= from_bytes_little bs < 256 ^ Z.of_nat (List.length bs).
Proof.
  induction bs as [|b t IH]; cbn [from_bytes_little List.length]; [cbn; lia|].
  rewrite Nat2Z.inj_succ, Z.pow_succ_r by lia.
  assert (0 <= byte_val b < 256).
  { unfold byte_val. pose proof (Byte.to_N_bounded b). lia. }
  lia.
Qed.

Lemma from_bytes_little_below bs n :
  (List.length bs <= n)%nat -> 0 <= from_bytes_little bs < 256 ^ Z.of_nat n.
Proof.
  intros Hn. pose proof (from_bytes_little_bound bs) as Hb.
  assert (256 ^ Z.of_nat (List.length bs) <= 256 ^ Z.of_nat n)
    by (apply Z.pow_le_mono_r; lia).
  lia.
Qed.

Lemma f_read_length n bytes pos got pos' :
  0 <= n -> f_read n bytes pos = Ok (got, pos') -> (List.length got <= Z.to_nat n)%nat.
Proof.
  intros Hn. unfold f_read. destruct (Z.ltb_spec n 0); [lia|].
  intros [= <- _]. rewrite length_firstn. lia.
Qed.

(** The position after the nine reads of the header fields, and what the
    relative seek makes of it. *)
Lemma read_data_unfold bytes pos :
  0 <= pos <= Z.of_nat (List.length bytes) ->
  let sl o n := firstn (Z.to_nat n) (skipn (Z.to_nat o) bytes) in
  let size := Z.of_nat (List.length bytes) in
  let p1 := Z.min (pos + 4) size in
  let p2 := Z.min (p1 + 1) size in
  let p3 := Z.min (p2 + 1) size in
  let p4 := Z.min (p3 + 1) size in
  let p5 := Z.min (p4 + 1) size in
  let p6 := Z.min (p5 + 4) size in
  let p7 := Z.min (p6 + 4) size in
  let p8 := Z.min (p7 + 4) size in
  let p9 := Z.min (p8 + 2) size in
  read_data bytes pos
  = if p9 - 22 <? 0 then Raise ValueError
    else Ok (mk_dhav (sl pos 4) (sl p1 1) (sl p2 1)
               (from_bytes_big (sl p3 1)) (from_bytes_big (sl p4 1))
               (from_bytes_little (sl p5 4)) (from_bytes_little (sl p6 4))
               (from_bytes_little (sl p7 4)) (from_bytes_little (sl p8 2))
               (sl (p9 - 22) (from_bytes_little (sl p6 4))) pos,
             Z.min (p9 - 22 + from_bytes_little (sl p6 4)) size).
Proof.
  intros Hpos sl size p1 p2 p3 p4 p5 p6 p7 p8 p9.
  unfold read_data, bind, f_tell.
  rewrite (f_read_at 4 bytes pos) by lia. fold size p1.
  rewrite (f_read_at 1 bytes p1) by lia. fold size p2.
  rewrite (f_read_at 1 bytes p2) by lia. fold size p3.
  rewrite (f_read_at 1 bytes p3) by lia. fold size p4.
  rewrite (f_read_at 1 bytes p4) by lia. fold size p5.
  rewrite (f_read_at 4 bytes p5) by lia. fold size p6.
  rewrite (f_read_at 4 bytes p6) by lia. fold size p7.
  rewrite (f_read_at 4 bytes p7) by lia. fold size p8.
  rewrite (f_read_at 2 bytes p8) by lia. fold size p9.
  unfold f_seek_cur. fold size. change (p9 + -22) with (p9 - 22).
  destruct (Z.ltb_spec (p9 - 22) 0) as [Hneg|Hpos9]; [reflexivity|].
  destruct (Z.ltb_spec size (p9 - 22)); [lia|]. cbn [orb].
  pose proof (from_bytes_little_nonneg
                (firstn (Z.to_nat 4) (skipn (Z.to_nat p6) bytes))) as Hlen.
  rewrite (f_read_at _ bytes (p9 - 22)) by lia. reflexivity.
Qed.

(** X1.  The layout of a header that lies within the map: the signature in
    bytes 0-3, type, subtype, channel and sub-number in bytes 4 to 7, then
    the little-endian frame number (bytes 8-11), frame length (12-15), packed
    date (16-19) and extra timestamp (20-21); the raw bytes are the map's
    bytes from the header offset on, as many as the frame declares. *)
Theorem header_layout mm H :
  0 <= H -> H + 22 <= mm_len mm ->
  exists d,
    parse_at mm H = Ok d /\
    signature d = slice mm H 4 /\
    type d = slice mm (H + 4) 1 /\
    subtype d = slice mm (H + 5) 1 /\
    channel d = from_bytes_big (slice mm (H + 6) 1) /\
    frame_subnumber d = from_bytes_big (slice mm (H + 7) 1) /\
    frame_number d = from_bytes_little (slice mm (H + 8) 4) /\
    frame_length d = from_bytes_little (slice mm (H + 12) 4) /\
    date d = from_bytes_little (slice mm (H + 16) 4) /\
    timestamp d = from_bytes_little (slice mm (H + 20) 2) /\
    data d = slice mm H (frame_length d).
Proof.
  unfold mm_len. intros H0 Hfit. unfold parse_at.
  rewrite read_data_unfold by lia. cbv zeta.
  set (size := Z.of_nat (List.length (mm_data mm))) in *.
  replace (Z.min (H + 4) size) with (H + 4) by lia.
  replace (Z.min (H + 4 + 1) size) with (H + 5) by lia.
  replace (Z.min (H + 5 + 1) size) with (H + 6) by lia.
  replace (Z.min (H + 6 + 1) size) with (H + 7) by lia.
  replace (Z.min (H + 7 + 1) size) with (H + 8) by lia.
  replace (Z.min (H + 8 + 4) size) with (H + 12) by lia.
  replace (Z.min (H + 12 + 4) size) with (H + 16) by lia.
  replace (Z.min (H + 16 + 4) size) with (H + 20) by lia.
  replace (Z.min (H + 20 + 2) size) with (H + 22) by lia.
  replace (H + 22 - 22) with H by lia.
  destruct (Z.ltb_spec H 0); [lia|].
  eexists. split; [reflexivity|]. cbn [signature type subtype channel frame_subnumber
    frame_number frame_length date timestamp data]. unfold slice. auto 12.
Qed.

Lemma header_layout_witness :
  exists d,
    parse_at (map_of file_contiguity) 100 = Ok d /\
    signature d = slice (map_of file_contiguity) 100 4 /\
    type d = slice (map_of file_contiguity) (100 + 4) 1 /\
    subtype d = slice (map_of file_contiguity) (100 + 5) 1 /\
    channel d = from_bytes_big (slice (map_of file_contiguity) (100 + 6) 1) /\
    frame_subnumber d = from_bytes_big (slice (map_of file_contiguity) (100 + 7) 1) /\
    frame_number d = from_bytes_little (slice (map_of file_contiguity) (100 + 8) 4) /\
    frame_length d = from_bytes_little (slice (map_of file_contiguity) (100 + 12) 4) /\
    date d = from_bytes_little (slice (map_of file_contiguity) (100 + 16) 4) /\
    timestamp d = from_bytes_little (slice (map_of file_contiguity) (100 + 20) 2) /\
    data d = slice (map_of file_contiguity) 100 (frame_length d).
Proof.
  apply (header_layout (map_of file_contiguity) 100).
  - lia.
  - vm_compute; discriminate.
Defined.


Lemma parse_at_outcome mm H :
  0 <= H <= mm_len mm ->
  (mm_len mm < 22 -> parse_at mm H = Raise ValueError) /\
  (22 <= mm_len mm -> exists d, parse_at mm H = Ok d).
Proof.
  unfold mm_len. intros HH. unfold parse_at.
  rewrite read_data_unfold by lia. cbv zeta.
  set (size := Z.of_nat (List.length (mm_data mm))) in *.
  match goal with
  | |- context [if ?c <? 0 then _ else _] => set (target := c)
  end.
  assert (Ht : target = Z.min (H + 22) size - 22) by (subst target; lia).
  split; intros Hsize.
  - destruct (Z.ltb_spec target 0); [reflexivity | lia].
  - destruct (Z.ltb_spec target 0); [lia|]. eexists. reflexivity.
Qed.

(** X2.  When the header parser fails: at an offset within the map it
    raises [ValueError], from the relative seek, if the map has fewer than
    22 bytes, and returns a frame if the map has 22 bytes or more, also
    when the header is cut by the end of the map. *)
Theorem parser_fails_on_tiny_maps_only mm H :
  0 <= H <= mm_len mm ->
  (mm_len mm < 22 -> parse_at mm H = Raise ValueError) /\
  (22 <= mm_len mm -> exists d, parse_at mm H = Ok d).
Proof. exact (parse_at_outcome mm H). Qed.

Lemma parser_fails_on_tiny_maps_only_witness :
  (mm_len (map_of DHAV) < 22 -> parse_at (map_of DHAV) 0 = Raise ValueError) /\
  (22 <= mm_len (map_of DHAV) -> exists d, parse_at (map_of DHAV) 0 = Ok d).
Proof.
  apply (parser_fails_on_tiny_maps_only (map_of DHAV) 0).
  vm_compute. split; discriminate.
Defined.


(** X3.  A header cut by the end of the map: when fewer than 22 bytes
    follow the header offset (in a map of at least 22), the frame's raw
    bytes are read from 22 bytes before the end of the map, which is before
    the header offset. *)
Theorem cut_header_reads_before_the_frame mm H :
  22 <= mm_len mm -> mm_len mm - 22 < H <= mm_len mm ->
  exists d,
    parse_at mm H = Ok d /\
    header_offset d = H /\
    data d = slice mm (mm_len mm - 22) (frame_length d) /\
    mm_len mm - 22 < header_offset d.
Proof.
  unfold mm_len. intros Hsize HH. unfold parse_at.
  rewrite read_data_unfold by lia. cbv zeta.
  set (size := Z.of_nat (List.length (mm_data mm))) in *.
  match goal with
  | |- context [if ?c <? 0 then _ else _] => set (target := c)
  end.
  assert (Ht : target = size - 22) by (subst target; lia).
  destruct (Z.ltb_spec target 0); [lia|].
  eexists. split; [reflexivity|]. cbn [header_offset data frame_length].
  rewrite Ht. unfold slice. repeat split; auto; lia.
Qed.

Lemma cut_header_reads_before_the_frame_witness :
  exists d,
    parse_at (map_of file_cut_header) 2 = Ok d /\
    header_offset d = 2 /\
    data d = slice (map_of file_cut_header) (mm_len (map_of file_cut_header) - 22)
               (frame_length d) /\
    mm_len (map_of file_cut_header) - 22 < header_offset d.
Proof.
  apply (cut_header_reads_before_the_frame (map_of file_cut_header) 2).
  - vm_compute; discriminate.
  - vm_compute. split; [reflexivity | discriminate].
Defined.


Lemma from_bytes_big_below bs n :
  (List.length bs <= n)%nat -> 0 <= from_bytes_big bs < 256 ^ Z.of_nat n.
Proof.
  intros Hn. unfold from_bytes_big. apply from_bytes_little_below.
  now rewrite length_rev.
Qed.

Lemma read_data_ranges bytes pos d p :
  read_data bytes pos = Ok (d, p) ->
  (List.length (signature d) <= 4)%nat /\
  (List.length (type d) <= 1)%nat /\ (List.length (subtype d) <= 1)%nat /\
  0 <= channel d < 256 /\ 0 <= frame_subnumber d < 256 /\
  0 <= frame_number d < 2 ^ 32 /\ 0 <= frame_length d < 2 ^ 32 /\
  0 <= date d < 2 ^ 32 /\ 0 <= timestamp d < 2 ^ 16 /\
  Z.of_nat (List.length (data d)) <= frame_length d.
Proof.
  unfold read_data. intros E.
  apply bind_Ok in E. destruct E as (start & p0 & _ & E).
  apply bind_Ok in E. destruct E as (sig & p1 & R1 & E).
  apply bind_Ok in E. destruct E as (ty & p2 & R2 & E).
  apply bind_Ok in E. destruct E as (sty & p3 & R3 & E).
  apply bind_Ok in E. destruct E as (ch & p4 & R4 & E).
  apply bind_Ok in E. destruct E as (sub & p5 & R5 & E).
  apply bind_Ok in E. destruct E as (num & p6 & R6 & E).
  apply bind_Ok in E. destruct E as (len & p7 & R7 & E).
  apply bind_Ok in E. destruct E as (dat & p8 & R8 & E).
  apply bind_Ok in E. destruct E as (ts & p9 & R9 & E).
  apply bind_Ok in E. destruct E as (u & p10 & _ & E).
  apply bind_Ok in E. destruct E as (raw & p11 & R11 & E).
  unfold ret in E. injection E as <- _.
  cbn [signature type subtype channel frame_subnumber frame_number frame_length
       date timestamp data].
  pose proof (f_read_length 4 _ _ _ _ ltac:(lia) R1) as L1.
  pose proof (f_read_length 1 _ _ _ _ ltac:(lia) R2) as L2.
  pose proof (f_read_length 1 _ _ _ _ ltac:(lia) R3) as L3.
  pose proof (f_read_length 1 _ _ _ _ ltac:(lia) R4) as L4.
  pose proof (f_read_length 1 _ _ _ _ ltac:(lia) R5) as L5.
  pose proof (f_read_length 4 _ _ _ _ ltac:(lia) R6) as L6.
  pose proof (f_read_length 4 _ _ _ _ ltac:(lia) R7) as L7.
  pose proof (f_read_length 4 _ _ _ _ ltac:(lia) R8) as L8.
  pose proof (f_read_length 2 _ _ _ _ ltac:(lia) R9) as L9.
  pose proof (f_read_length _ _ _ _ _ (from_bytes_little_nonneg len) R11) as L11.
  pose proof (from_bytes_big_below ch 1 L4) as B4.
  pose proof (from_bytes_big_below sub 1 L5) as B5.
  pose proof (from_bytes_little_below num 4 L6) as B6.
  pose proof (from_bytes_little_below len 4 L7) as B7.
  pose proof (from_bytes_little_below dat 4 L8) as B8.
  pose proof (from_bytes_little_below ts 2 L9) as B9.
  change (256 ^ Z.of_nat 1) with 256 in B4, B5.
  change (256 ^ Z.of_nat 4) with 4294967296 in B6, B7, B8.
  change (256 ^ Z.of_nat 2) with 65536 in B9.
  change (2 ^ 32) with 4294967296. change (2 ^ 16) with 65536.
  change (Z.to_nat 4) with 4%nat in L1. change (Z.to_nat 1) with 1%nat in L2, L3.
  repeat (split; [assumption|]). lia.
Qed.

(** X4.  The ranges of the header fields, for every frame the parser
    returns: one-byte channel and sub-number, 32-bit frame number, frame
    length and packed date, 16-bit extra timestamp, and never more raw bytes
    than the frame declares. *)
Theorem header_field_ranges mm H d :
  parse_at mm H = Ok d ->
  (List.length (signature d) <= 4)%nat /\
  (List.length (type d) <= 1)%nat /\ (List.length (subtype d) <= 1)%nat /\
  0 <= channel d < 256 /\ 0 <= frame_subnumber d < 256 /\
  0 <= frame_number d < 2 ^ 32 /\ 0 <= frame_length d < 2 ^ 32 /\
  0 <= date d < 2 ^ 32 /\ 0 <= timestamp d < 2 ^ 16 /\
  Z.of_nat (List.length (data d)) <= frame_length d.
Proof.
  unfold parse_at.
  destruct (read_data (mm_data mm) H) as [[d' p]|e] eqn:E; [|discriminate].
  intros [= ->]. exact (read_data_ranges _ _ _ _ E).
Qed.

Lemma header_field_ranges_witness :
  (List.length (signature (frame_at (map_of file_short_frame) 0)) <= 4)%nat /\
  (List.length (type (frame_at (map_of file_short_frame) 0)) <= 1)%nat /\
  (List.length (subtype (frame_at (map_of file_short_frame) 0)) <= 1)%nat /\
  0 <= channel (frame_at (map_of file_short_frame) 0) < 256 /\
  0 <= frame_subnumber (frame_at (map_of file_short_frame) 0) < 256 /\
  0 <= frame_number (frame_at (map_of file_short_frame) 0) < 2 ^ 32 /\
  0 <= frame_length (frame_at (map_of file_short_frame) 0) < 2 ^ 32 /\
  0 <= date (frame_at (map_of file_short_frame) 0) < 2 ^ 32 /\
  0 <= timestamp (frame_at (map_of file_short_frame) 0) < 2 ^ 16 /\
  Z.of_nat (List.length (data (frame_at (map_of file_short_frame) 0)))
  <= frame_length (frame_at (map_of file_short_frame) 0).
Proof.
  apply (header_field_ranges (map_of file_short_frame) 0).
  vm_compute; reflexivity.
Defined.

(** ** What one pass does, in full *)

Section Passes.
Variable args : Args.
Variable mm : mmap.
Variable startoffset : Z.

Local Abbreviation Inv' := (Inv args startoffset).
Local Abbreviation Good' := (Good args startoffset).
Local Abbreviation loop_body' := (loop_body args mm startoffset).
Local Abbreviation iter' := (iter args mm startoffset).
Local Abbreviation loop' := (loop args mm startoffset).

(** Lines 185-191 within a scan. *)
Lemma close_phase st H :
  Good' st -> offset st <= H ->
  exists st1,
    close_run args H st = Ok st1 /\ Inv' st1 /\ Cursor H st1 /\
    history st1 = history st /\ offset st1 = offset st /\
    alloutputfile (world st1) = alloutputfile (world st) /\
    selectionoutputfile (world st1) = selectionoutputfile (world st) /\
    info_log (world st1) = info_log (world st) /\
    debug_log (world st1) = debug_log (world st) /\
    written (world st1) = written (world st) ++ gap_export args st H.
Proof.
  intros [HI HC] Hle. unfold gap_export.
  destruct (frames st) as [|first rest] eqn:E.
  - exists st. rewrite close_run_keep by now right.
    rewrite andb_false_r, app_nil_r. split; [reflexivity|]. split; [exact HI|].
    split; [|auto 10].
    destruct HC as [Cnn Caft Cex].
    constructor; [lia | |intros _]; rewrite E; apply ends_with_nil.
  - destruct (Z.eq_dec H (offset st)) as [->|Hne].
    + exists st. rewrite close_run_keep by (left; lia).
      rewrite Z.ltb_irrefl, app_nil_r. cbn [andb]. auto 12.
    + destruct (close_run_flush args startoffset st H first rest HI ltac:(lia) E)
        as (tstamp & w & Ht & Hw & Hc).
      destruct (export_spec args (frames st) tstamp (world st))
        as (w' & Hw' & Ha & Hs & Hi & Hd & Hwr); [rewrite E; discriminate|].
      rewrite Hw in Hw'. injection Hw' as <-.
      destruct HC as [Cnn Caft Cex].
      destruct (good_after_flush args startoffset st first rest tstamp w H HI E
                  ltac:(lia) Ha Hs Hd Hwr) as [HI1 HC1].
      eexists. split; [exact Hc|]. split; [exact HI1|]. split; [exact HC1|].
      assert (Hlt : (offset st <? H) = true) by (apply Z.ltb_lt; lia).
      rewrite Hlt, Ht. cbn [nonempty andb].
      unfold history. cbn [flushed frames set_frames set_world note_flush set_timestamp
                           world offset].
      rewrite concat_app. cbn [List.concat]. rewrite !app_nil_r, E in *.
      auto 12.
Qed.

(** Lines 195-207 within a scan. *)
Lemma take_phase st H d :
  Inv' st -> Cursor H st -> parse_at mm H = Ok d ->
  exists st2,
    take_frame args startoffset H d st = Ok st2 /\
    Inv' st2 /\ Cursor (H + frame_length d) st2 /\
    offset st2 = offset st /\ written (world st2) = written (world st) /\
    info_log (world st2) = info_log (world st) /\
    match date_to_timestamp (date d) with
    | Some tstamp =>
        history st2 = history st ++ [d] /\
        debug_log (world st2) = debug_log (world st) /\
        alloutputfile (world st2)
        = (if csv args
           then snoc_row (row_of startoffset tstamp H d) (alloutputfile (world st))
           else alloutputfile (world st)) /\
        selectionoutputfile (world st2)
        = (if csv args && window args
              && timestamp_ok tstamp (starttime args) (stoptime args)
           then snoc_row (row_of startoffset tstamp H d) (selectionoutputfile (world st))
           else selectionoutputfile (world st))
    | None =>
        history st2 = history st /\
        debug_log (world st2) = debug_log (world st) ++ [(date d, H)] /\
        alloutputfile (world st2) = alloutputfile (world st) /\
        selectionoutputfile (world st2) = selectionoutputfile (world st)
    end.
Proof.
  intros HI HC Hp.
  destruct (date_to_timestamp (date d)) as [tstamp|] eqn:Ed.
  - destruct (take_frame_append args mm startoffset st H d tstamp HI HC Hp Ed)
      as (w & Hw & Ht & HI2 & HC2).
    destruct (write_csv_spec args startoffset tstamp H d (world st)
                (inv_all _ _ _ HI) (inv_selection _ _ _ HI))
      as (w' & Hw' & Hwr & Hinfo & Hdbg & Hall & Hsel).
    rewrite Hw in Hw'. injection Hw' as <-.
    eexists. split; [exact Ht|]. split; [exact HI2|]. split; [exact HC2|].
    unfold history, window. cbn. rewrite app_assoc. auto 12.
  - destruct (take_frame_drop args mm startoffset st H d HI HC Hp Ed) as (Ht & HI2 & HC2).
    eexists. split; [exact Ht|]. split; [exact HI2|]. split; [exact HC2|].
    unfold history. cbn. auto 12.
Qed.

(** A pass that finds a header and parses it. *)
Lemma continue_spec st H d :
  Good' st -> mm_find mm DHAV (offset st) = Some H -> parse_at mm H = Ok d ->
  exists st',
    loop_body' st = Continue st' /\ Good' st' /\
    offset st' = H + frame_length d /\
    written (world st') = written (world st) ++ gap_export args st H /\
    info_log (world st')
    = info_log (world st) ++ [(H + startoffset, filesize mm startoffset)] /\
    match date_to_timestamp (date d) with
    | Some tstamp =>
        history st' = history st ++ [d] /\
        debug_log (world st') = debug_log (world st) /\
        alloutputfile (world st')
        = (if csv args
           then snoc_row (row_of startoffset tstamp H d) (alloutputfile (world st))
           else alloutputfile (world st)) /\
        selectionoutputfile (world st')
        = (if csv args && window args
              && timestamp_ok tstamp (starttime args) (stoptime args)
           then snoc_row (row_of startoffset tstamp H d) (selectionoutputfile (world st))
           else selectionoutputfile (world st))
    | None =>
        history st' = history st /\
        debug_log (world st') = debug_log (world st) ++ [(date d, H)] /\
        alloutputfile (world st') = alloutputfile (world st) /\
        selectionoutputfile (world st') = selectionoutputfile (world st)
    end.
Proof.
  intros HG Ef Hp.
  pose proof (good_offset_nonneg _ _ _ HG) as Hnn.
  pose proof (mm_find_bounds _ _ _ _ DHAV_nonempty Hnn Ef) as Hb.
  set (st0 := set_world st (add_info (world st) (H + startoffset, filesize mm startoffset))).
  assert (HG0 : Good' st0).
  { destruct HG as [HI HC]. split; [now apply inv_add_info | now apply cursor_add_info]. }
  destruct (close_phase st0 H HG0) as
    (st1 & Hc & HI1 & HC1 & Hh1 & Ho1 & Ha1 & Hs1 & Hi1 & Hd1 & Hw1); [cbn; lia|].
  destruct (take_phase st1 H d HI1 HC1 Hp) as (st2 & Ht & HI2 & HC2 & Ho2 & Hw2 & Hi2 & Hrest).
  exists (set_offset st2 (H + frame_length d)).
  split. { unfold loop_body. rewrite Ef. fold st0. rewrite Hc, Hp, Ht. reflexivity. }
  split; [apply good_set_offset; assumption|]. split; [reflexivity|].
  change (gap_export args st0 H) with (gap_export args st H) in Hw1.
  change (history st0) with (history st) in Hh1.
  change (history (set_offset st2 (H + frame_length d))) with (history st2).
  cbn [world set_offset].
  split; [rewrite Hw2, Hw1; reflexivity|]. split; [rewrite Hi2, Hi1; reflexivity|].
  destruct (date_to_timestamp (date d)) as [tstamp|];
    destruct Hrest as (Hh & Hd & Ha & Hs);
    rewrite Hh, Hd, Ha, Hs, Hh1, Hd1, Ha1, Hs1; auto.
Qed.

(** A pass that finds a header and fails to parse it. *)
Lemma raise_spec st H e :
  Good' st -> mm_find mm DHAV (offset st) = Some H -> parse_at mm H = Raise e ->
  exists st', loop_body' st = Raised e st'.
Proof.
  intros HG Ef Hp.
  pose proof (good_offset_nonneg _ _ _ HG) as Hnn.
  pose proof (mm_find_bounds _ _ _ _ DHAV_nonempty Hnn Ef) as Hb.
  set (st0 := set_world st (add_info (world st) (H + startoffset, filesize mm startoffset))).
  assert (HG0 : Good' st0).
  { destruct HG as [HI HC]. split; [now apply inv_add_info | now apply cursor_add_info]. }
  destruct (close_phase st0 H HG0) as (st1 & Hc & _); [cbn; lia|].
  exists st1. unfold loop_body. rewrite Ef. fold st0. rewrite Hc, Hp. reflexivity.
Qed.

Lemma last_timestamp st first rest :
  Inv' st -> frames st = first :: rest ->
  exists tstamp,
    timestamp_var st = Some tstamp /\
    date_to_timestamp (date (last (frames st) first)) = Some tstamp.
Proof.
  intros HI E.
  destruct (exists_last (l := frames st)) as (body & z & Hz); [rewrite E; discriminate|].
  pose proof (inv_timestamp _ _ _ HI body z Hz) as Hts. cbv beta in Hts.
  pose proof (inv_dates _ _ _ HI) as Hd. rewrite Hz in Hd.
  apply Forall_app in Hd. destruct Hd as [_ Hd]. inversion Hd as [|? ? Hok _].
  rewrite Hz, last_last. unfold date_ok in Hok.
  destruct (date_to_timestamp (date z)) as [t|]; [|contradiction].
  exists t. split; [exact Hts | reflexivity].
Qed.

(** The pass in which the search finds nothing. *)
Lemma break_spec st :
  Good' st -> mm_find mm DHAV (offset st) = None ->
  exists st',
    loop_body' st = Break st' /\ Inv' st' /\
    offset st' = offset st /\ frames st' = frames st /\
    List.concat (flushed st') = history st /\
    alloutputfile (world st') = alloutputfile (world st) /\
    selectionoutputfile (world st') = selectionoutputfile (world st) /\
    info_log (world st') = info_log (world st) /\
    debug_log (world st') = debug_log (world st) /\
    written (world st') = written (world st) ++ last_export args st.
Proof.
  intros HG Ef. pose proof (loop_body_good args mm startoffset st HG) as Hstep.
  destruct HG as [HI HC]. unfold loop_body in *. rewrite Ef in *.
  unfold last_export, history.
  destruct (frames st) as [|first rest] eqn:E.
  - exists st. rewrite !app_nil_r. auto 12.
  - destruct (last_timestamp st first rest HI E) as (tstamp & Hts & _).
    rewrite Hts in *.
    destruct (export_spec args (first :: rest) tstamp (world st))
      as (w & Hw & Ha & Hs & Hi & Hd & Hwr); [discriminate|].
    rewrite Hw in *. eexists. split; [reflexivity|]. split; [exact Hstep|].
    cbn. rewrite concat_app, E. cbn. rewrite app_nil_r. auto 12.
Qed.
End Passes.

(** ** The outputs of a scan *)

Lemma frame_rows_app startoffset fs gs :
  frame_rows startoffset (fs ++ gs)
  = frame_rows startoffset fs ++ frame_rows startoffset gs.
Proof. unfold frame_rows. apply flat_map_app. Qed.

Lemma frame_rows_one startoffset d tstamp :
  date_to_timestamp (date d) = Some tstamp ->
  frame_rows startoffset [d] = [row_of startoffset tstamp (header_offset d) d].
Proof. intros E. unfold frame_rows. cbn. now rewrite E. Qed.

Section Traces.
Variable args : Args.
Variable mm : mmap.
Variable startoffset : Z.

Local Abbreviation Good' := (Good args startoffset).
Local Abbreviation Trace' := (Trace args mm startoffset).
Local Abbreviation loop_body' := (loop_body args mm startoffset).
Local Abbreviation iter' := (iter args mm startoffset).
Local Abbreviation loop' := (loop args mm startoffset).

Lemma trace_initial : Trace' (initial args).
Proof.
  constructor; cbn; try (constructor; fail);
    try apply consecutive_nil; try apply ends_with_nil.
  - intros Hc. rewrite Hc. reflexivity.
  - unfold window. intros Hc. rewrite Hc. reflexivity.
Qed.

Lemma trace_step st st' :
  Good' st -> Trace' st -> loop_body' st = Continue st' -> Trace' st'.
Proof.
  intros HG HT Hs.
  destruct (loop_body_continue _ _ _ _ _ Hs) as (H & d & Ef & Ep & _).
  destruct (continue_spec args mm startoffset st H d HG Ef Ep)
    as (st'' & Hs' & _ & Ho & _ & Hinfo & Hrest).
  rewrite Hs in Hs'. injection Hs' as <-.
  pose proof (good_offset_nonneg _ _ _ HG) as Hnn.
  pose proof (mm_find_bounds _ _ _ _ DHAV_nonempty Hnn Ef) as Hb.
  destruct (parse_at_fields _ _ _ Ep) as [Hoff Hlen].
  assert (Hfound : found_at mm d).
  { exists (offset st). rewrite Hoff. split; [exact Hnn|]. split; [exact Ef | exact Ep]. }
  destruct HT as [Tfound Tdates Torder Tcursor Tall Tsel Tinfo Tdebug Tcount].
  assert (Hinfo' : Forall (fun line => exists H o, 0 <= o /\ mm_find mm DHAV o = Some H /\
                             line = (H + startoffset, filesize mm startoffset))
                          (info_log (world st'))).
  { rewrite Hinfo. apply Forall_app. split; [exact Tinfo|].
    constructor; [|constructor]. exists H, (offset st).
    split; [exact Hnn|]. split; [exact Ef | reflexivity]. }
  destruct (date_to_timestamp (date d)) as [tstamp|] eqn:Ed;
    destruct Hrest as (Hh & Hd & Ha & Hse).
  - constructor; rewrite ?Hh, ?Hd, ?Ha, ?Hse, ?Ho; try assumption.
    + apply Forall_app. split; [assumption|]. constructor; [assumption|constructor].
    + apply Forall_app. split; [assumption|]. constructor; [|constructor].
      unfold date_ok. rewrite Ed. discriminate.
    + apply consecutive_snoc; [assumption|].
      eapply ends_with_impl; [|exact Tcursor]. intros z Hz. cbv beta in Hz.
      unfold follows. lia.
    + apply ends_with_snoc. unfold span_end. lia.
    + intros Hcsv. rewrite Hcsv, (Tall Hcsv). unfold snoc_row. cbn [option_map].
      rewrite frame_rows_app, (frame_rows_one _ _ _ Ed), Hoff. reflexivity.
    + intros Hcw. rewrite Hcw, (Tsel Hcw). cbn [andb].
      rewrite frame_rows_app, (frame_rows_one _ _ _ Ed), Hoff, filter_app.
      cbn [filter].
      change (in_window args (row_of startoffset tstamp H d))
        with (timestamp_ok tstamp (starttime args) (stoptime args)).
      destruct (timestamp_ok tstamp (starttime args) (stoptime args));
        unfold snoc_row; cbn [option_map]; rewrite ?app_nil_r; reflexivity.
    + rewrite Hinfo, !length_app, Tcount. cbn. lia.
  - constructor; rewrite ?Hh, ?Hd, ?Ha, ?Hse, ?Ho; try assumption.
    + eapply ends_with_impl; [|exact Tcursor]. intros z Hz. cbv beta in Hz. lia.
    + apply Forall_app. split; [assumption|]. constructor; [|constructor].
      exists d. rewrite Hoff. split; [exact Hfound|]. split; [exact Ed | reflexivity].
    + rewrite Hinfo, !length_app, Tcount. cbn. lia.
Qed.

Lemma trace_iter k : forall st st',
  Good' st -> Trace' st -> iter' k st = Some st' -> Trace' st'.
Proof.
  induction k as [|k IH]; intros st st' HG HT; cbn.
  - intros [= <-]. exact HT.
  - pose proof (loop_body_good args mm startoffset st HG) as Hstep.
    destruct (loop_body' st) as [s| |] eqn:E; try discriminate.
    apply IH; [exact Hstep | exact (trace_step st s HG HT E)].
Qed.

Lemma reachable_trace k st :
  iter' k (initial args) = Some st -> Trace' st.
Proof. apply trace_iter; [apply initial_good | apply trace_initial]. Qed.

(** A run that ends without an exception ends in a pass that finds
    nothing. *)
Lemma loop_done fuel : forall st0 st',
  loop' fuel st0 = Done st' ->
  exists k st, iter' k st0 = Some st /\ loop_body' st = Break st'.
Proof.
  induction fuel as [|fuel IH]; intros st0 st'; cbn; [discriminate|].
  destruct (loop_body' st0) as [s|s|e s] eqn:E; try discriminate.
  - intros Hl. destruct (IH s st' Hl) as (k & st & Hk & Hb).
    exists (S k), st. cbn. rewrite E. split; [exact Hk | exact Hb].
  - intros [= <-]. exists 0%nat, st0. split; [reflexivity | exact E].
Qed.

Lemma loop_body_break st st' :
  loop_body' st = Break st' -> mm_find mm DHAV (offset st) = None.
Proof.
  unfold loop_body. destruct (mm_find mm DHAV (offset st)) as [H|]; [|reflexivity].
  destruct (close_run _ _ _); [|discriminate].
  destruct (parse_at mm H); [|discriminate].
  destruct (take_frame _ _ _ _ _); discriminate.
Qed.

(** The state a completed scan ends with, from the state before its last
    pass. *)
Lemma done_spec fuel st' :
  loop' fuel (initial args) = Done st' ->
  exists k st,
    iter' k (initial args) = Some st /\ Good' st /\ Trace' st /\
    mm_find mm DHAV (offset st) = None /\
    Inv args startoffset st' /\
    offset st' = offset st /\ frames st' = frames st /\
    List.concat (flushed st') = history st /\
    alloutputfile (world st') = alloutputfile (world st) /\
    selectionoutputfile (world st') = selectionoutputfile (world st) /\
    info_log (world st') = info_log (world st) /\
    debug_log (world st') = debug_log (world st) /\
    written (world st') = written (world st) ++ last_export args st.
Proof.
  intros Hl. destruct (loop_done fuel _ _ Hl) as (k & st & Hk & Hb).
  pose proof (reachable_good _ _ _ _ _ Hk) as HG.
  pose proof (loop_body_break _ _ Hb) as Ef.
  destruct (break_spec args mm startoffset st HG Ef) as (s & Hs & Hrest).
  rewrite Hb in Hs. injection Hs as <-.
  exists k, st. split; [exact Hk|]. split; [exact HG|].
  split; [exact (reachable_trace _ _ Hk)|]. split; [exact Ef | exact Hrest].
Qed.
End Traces.

(** ** Facts about rows and signatures *)

Lemma frame_rows_length startoffset fs :
  Forall date_ok fs ->
  List.length (frame_rows startoffset fs) = List.length fs.
Proof.
  induction 1 as [|d fs Hd _ IH]; [reflexivity|].
  change (d :: fs) with ([d] ++ fs). rewrite frame_rows_app, length_app, IH.
  unfold date_ok in Hd. destruct (date_to_timestamp (date d)) as [t|] eqn:E; [|contradiction].
  rewrite (frame_rows_one _ _ _ E). reflexivity.
Qed.

(** Neighbouring rows come from neighbouring frames. *)
Lemma frame_rows_consecutive startoffset (R : Row -> Row -> Prop) fs :
  (forall a b ta tb,
     In a fs -> In b fs -> follows a b ->
     date_to_timestamp (date a) = Some ta -> date_to_timestamp (date b) = Some tb ->
     R (row_of startoffset ta (header_offset a) a) (row_of startoffset tb (header_offset b) b)) ->
  Forall date_ok fs -> consecutive follows fs ->
  consecutive R (frame_rows startoffset fs).
Proof.
  intros HR Hd. revert HR.
  induction Hd as [|d fs Hdd Hfs IH]; intros HR Hc.
  - apply consecutive_nil.
  - unfold date_ok in Hdd.
    destruct (date_to_timestamp (date d)) as [td|] eqn:Ed; [|contradiction].
    change (d :: fs) with ([d] ++ fs). rewrite frame_rows_app, (frame_rows_one _ _ _ Ed).
    assert (Hc' : consecutive follows fs).
    { intros pre a b post E. apply (Hc (d :: pre) a b post). now rewrite E. }
    assert (IH' : consecutive R (frame_rows startoffset fs)).
    { apply IH; [|exact Hc']. intros a b ta tb Ha Hb. apply HR; now right. }
    destruct fs as [|e fs']; [apply consecutive_one|].
    inversion Hfs as [|? ? Hde _]. unfold date_ok in Hde.
    destruct (date_to_timestamp (date e)) as [te|] eqn:Ee; [|contradiction].
    change (e :: fs') with ([e] ++ fs') in *.
    rewrite frame_rows_app, (frame_rows_one _ _ _ Ee) in *.
    intros pre a b post E. destruct pre as [|p pre].
    + cbn in E. injection E as <- <- _.
      apply HR; [now left | right; now left | | exact Ed | exact Ee].
      apply (Hc [] d e fs'). reflexivity.
    + cbn in E. injection E as _ E. exact (IH' pre a b post E).
Qed.

Lemma starts_with_firstn sub l :
  starts_with sub l = true -> firstn (List.length sub) l = sub.
Proof.
  revert l. induction sub as [|a sub IH]; intros [|b l]; cbn; try reflexivity;
    try discriminate.
  intros H. apply andb_true_iff in H. destruct H as [Hab Hs].
  apply Byte.byte_dec_bl in Hab. subst. now rewrite IH.
Qed.

(** What the search returns is the offset of a signature. *)
Lemma mm_find_signature mm o H :
  0 <= o -> mm_find mm DHAV o = Some H -> slice mm H 4 = DHAV.
Proof.
  intros Ho Ef. pose proof (mm_find_bounds _ _ _ _ DHAV_nonempty Ho Ef) as Hb.
  unfold mm_find, mm_len in *. destruct (Z.ltb_spec o 0); [lia|].
  apply find_in_starts in Ef. rewrite skipn_skipn in Ef.
  apply starts_with_firstn in Ef. unfold slice.
  etransitivity; [|exact Ef].
  change (Z.to_nat 4) with (List.length DHAV). do 2 f_equal. lia.
Qed.

Lemma read_data_signature bytes pos d p :
  0 <= pos <= Z.of_nat (List.length bytes) ->
  read_data bytes pos = Ok (d, p) ->
  signature d = firstn 4 (skipn (Z.to_nat pos) bytes).
Proof.
  intros Hpos. unfold read_data. intros E.
  apply bind_Ok in E. destruct E as (start & p0 & Htell & E).
  unfold f_tell in Htell. injection Htell as <- <-.
  apply bind_Ok in E. destruct E as (sig & p1 & R1 & E).
  do 10 (apply bind_Ok in E; destruct E as (? & ? & _ & E)).
  unfold ret in E. injection E as <- _. cbn [signature].
  rewrite f_read_at in R1 by lia. now injection R1 as <- _.
Qed.

Lemma parse_at_Ok mm H d :
  parse_at mm H = Ok d -> exists p, read_data (mm_data mm) H = Ok (d, p).
Proof.
  unfold parse_at.
  destruct (read_data (mm_data mm) H) as [[d' p]|e]; [|discriminate].
  intros [= ->]. now exists p.
Qed.

Lemma found_at_signature mm d :
  found_at mm d ->
  signature d = DHAV /\ 0 <= header_offset d /\ header_offset d + 4 <= mm_len mm.
Proof.
  intros (o & Ho & Ef & Ep).
  pose proof (mm_find_bounds _ _ _ _ DHAV_nonempty Ho Ef) as Hb.
  pose proof (mm_find_signature _ _ _ Ho Ef) as Hsig.
  assert (Hfit : header_offset d + 4 <= mm_len mm).
  { unfold slice, mm_len in *.
    assert (Hl : List.length (firstn (Z.to_nat 4) (skipn (Z.to_nat (header_offset d)) (mm_data mm)))
                 = 4%nat) by now rewrite Hsig.
    rewrite length_firstn, length_skipn in Hl.
    pose proof (Nat.le_min_r (Z.to_nat 4)
                  (List.length (mm_data mm) - Z.to_nat (header_offset d))) as Hm.
    rewrite Hl in Hm. lia. }
  split; [|lia].
  assert (Hin : 0 <= header_offset d <= Z.of_nat (List.length (mm_data mm)))
    by (unfold mm_len in *; lia).
  destruct (parse_at_Ok _ _ _ Ep) as (p & E).
  rewrite (read_data_signature _ _ _ _ Hin E). exact Hsig.
Qed.

(** * Further properties of the scan *)

Lemma flushed_frame_found args mm startoffset fuel st seg d :
  loop args mm startoffset fuel (initial args) = Done st ->
  In seg (flushed st) -> In d seg ->
  parse_at mm (header_offset d) = Ok d /\
  signature d = DHAV /\
  slice mm (header_offset d) 4 = DHAV /\
  0 <= header_offset d /\ header_offset d + 4 <= mm_len mm.
Proof.
  intros Hl Hseg Hd.
  destruct (done_spec args mm startoffset fuel st Hl)
    as (k & s & _ & _ & HT & _ & _ & _ & _ & Hh & _).
  assert (Hin : In d (history s)).
  { rewrite <- Hh. apply in_concat. exists seg. split; assumption. }
  pose proof (tr_found _ _ _ _ HT) as Hf. rewrite Forall_forall in Hf.
  specialize (Hf d Hin).
  destruct (found_at_signature mm d Hf) as (Hsig & H0 & Hfit).
  destruct Hf as (o & Ho & Ef & Ep).
  split; [exact Ep|]. split; [exact Hsig|].
  split; [exact (mm_find_signature _ _ _ Ho Ef)|]. split; [exact H0 | exact Hfit].
Qed.

(** X5.  In a completed scan, every frame of every segment that reached the
    export decision is what the parser reads at its header offset, which
    the search returned: the four bytes there are the signature, and they
    are the frame's [signature]. *)
Theorem flushed_frames_start_with_the_signature args mm startoffset fuel st seg d :
  loop args mm startoffset fuel (initial args) = Done st ->
  In seg (flushed st) -> In d seg ->
  parse_at mm (header_offset d) = Ok d /\
  signature d = DHAV /\
  slice mm (header_offset d) 4 = DHAV /\
  0 <= header_offset d /\ header_offset d + 4 <= mm_len mm.
Proof. exact (flushed_frame_found args mm startoffset fuel st seg d). Qed.

Lemma flushed_frames_start_with_the_signature_witness :
  parse_at (map_of file_contiguity)
    (header_offset (frame_at (map_of file_contiguity) 100))
  = Ok (frame_at (map_of file_contiguity) 100) /\
  signature (frame_at (map_of file_contiguity) 100) = DHAV /\
  slice (map_of file_contiguity)
    (header_offset (frame_at (map_of file_contiguity) 100)) 4 = DHAV /\
  0 <= header_offset (frame_at (map_of file_contiguity) 100) /\
  header_offset (frame_at (map_of file_contiguity) 100) + 4
  <= mm_len (map_of file_contiguity).
Proof.
  apply (flushed_frames_start_with_the_signature plain_args (map_of file_contiguity) 0 5
           (final_of (loop plain_args (map_of file_contiguity) 0 5 (initial plain_args)))
           (hd [] (flushed (final_of (loop plain_args (map_of file_contiguity) 0 5
                                        (initial plain_args)))))
           (frame_at (map_of file_contiguity) 100)).
  - vm_compute; reflexivity.
  - vm_compute. left. reflexivity.
  - vm_compute. right. left. reflexivity.
Defined.

(** X6.  In a completed scan, every container file written holds the
    concatenation of the frames' raw bytes of one segment that reached the
    export decision; the raw bytes of each frame whose 22-byte header lies
    within the map are the map's bytes from its header offset on, as many
    as it declares (fewer at the end of the map).  So a file of a segment
    whose headers all lie within the map is the concatenation of these
    spans. *)
Theorem written_files_are_the_declared_spans args mm startoffset fuel st f :
  loop args mm startoffset fuel (initial args) = Done st ->
  In f (written (world st)) ->
  exists seg,
    In seg (flushed st) /\
    snd f = List.concat (map data seg) /\
    (forall d, In d seg -> header_offset d + 22 <= mm_len mm ->
               data d = slice mm (header_offset d) (frame_length d)) /\
    ((forall d, In d seg -> header_offset d + 22 <= mm_len mm) ->
     snd f = List.concat
               (map (fun d => slice mm (header_offset d) (frame_length d)) seg)).
Proof.
  intros Hl Hf.
  destruct (done_spec args mm startoffset fuel st Hl)
    as (k & s & _ & _ & HT & _ & HI & _ & _ & Hh & _).
  pose proof (inv_written _ _ _ HI) as Hw. rewrite Forall_forall in Hw.
  destruct (Hw f Hf) as (seg & Hseg & Hcontent).
  exists seg. split; [exact Hseg|]. split; [exact Hcontent|].
  assert (Hspan : forall d, In d seg -> header_offset d + 22 <= mm_len mm ->
                            data d = slice mm (header_offset d) (frame_length d)).
  { intros d Hd Hfit.
    destruct (flushed_frame_found _ _ _ _ _ _ _ Hl Hseg Hd)
      as (Ep & _ & _ & H0 & _).
    destruct (parse_at_complete mm (header_offset d) H0 Hfit) as (d' & Ep' & _ & Hdata).
    rewrite Ep in Ep'. injection Ep' as <-. exact Hdata. }
  split; [exact Hspan|].
  intros Hall. rewrite Hcontent. f_equal. apply map_ext_in.
  intros d Hd. apply Hspan; [exact Hd | exact (Hall d Hd)].
Qed.

Lemma written_files_are_the_declared_spans_witness :
  exists seg,
    In seg (flushed (final_of (loop plain_args (map_of file_contiguity) 0 5
                                 (initial plain_args)))) /\
    snd (hd (EmptyString, [])
           (written (world (final_of (loop plain_args (map_of file_contiguity) 0 5
                                        (initial plain_args))))))
    = List.concat (map data seg) /\
    (forall d, In d seg ->
               header_offset d + 22 <= mm_len (map_of file_contiguity) ->
               data d = slice (map_of file_contiguity) (header_offset d) (frame_length d)) /\
    ((forall d, In d seg -> header_offset d + 22 <= mm_len (map_of file_contiguity)) ->
     snd (hd (EmptyString, [])
            (written (world (final_of (loop plain_args (map_of file_contiguity) 0 5
                                         (initial plain_args))))))
     = List.concat
         (map (fun d => slice (map_of file_contiguity) (header_offset d) (frame_length d))
              seg)).
Proof.
  apply (written_files_are_the_declared_spans plain_args (map_of file_contiguity) 0 5
           (final_of (loop plain_args (map_of file_contiguity) 0 5 (initial plain_args)))).
  - vm_compute; reflexivity.
  - vm_compute. left. reflexivity.
Defined.

(** X7.  The flush at the end of a scan: when the search finds nothing more
    and frames are buffered, the pass ends the loop without an exception,
    the buffered frames reach the export decision as the last segment, and
    the decision is taken on the date of the LAST buffered frame, which is
    what the variable [timestamp] holds. *)
Theorem last_flush_decides_on_the_last_frame args mm startoffset k st first rest :
  iter args mm startoffset k (initial args) = Some st ->
  mm_find mm DHAV (offset st) = None ->
  frames st = first :: rest ->
  exists tstamp st',
    date_to_timestamp (date (last (frames st) first)) = Some tstamp /\
    timestamp_var st = Some tstamp /\
    loop_body args mm startoffset st = Break st' /\
    flushed st' = flushed st ++ [frames st] /\
    written (world st') = written (world st) ++ exported args (frames st) tstamp.
Proof.
  intros Hk Ef E. pose proof (reachable_good _ _ _ _ _ Hk) as HG.
  destruct HG as [HI HC].
  destruct (last_timestamp args startoffset st first rest HI E) as (tstamp & Hts & Hlast).
  destruct (export_spec args (frames st) tstamp (world st))
    as (w & Hw & _ & _ & _ & _ & Hwr); [rewrite E; discriminate|].
  exists tstamp. eexists. split; [exact Hlast|]. split; [exact Hts|].
  unfold loop_body. rewrite Ef, E, Hts. rewrite <- E, Hw.
  split; [reflexivity|]. cbn. split; [reflexivity | exact Hwr].
Qed.

Lemma last_flush_decides_on_the_last_frame_witness :
  exists tstamp st',
    date_to_timestamp
      (date (last (frames (state_after args_from_march (map_of file_two_dates) 0 2))
                  (frame_at (map_of file_two_dates) 0))) = Some tstamp /\
    timestamp_var (state_after args_from_march (map_of file_two_dates) 0 2) = Some tstamp /\
    loop_body args_from_march (map_of file_two_dates) 0
      (state_after args_from_march (map_of file_two_dates) 0 2) = Break st' /\
    flushed st'
    = flushed (state_after args_from_march (map_of file_two_dates) 0 2)
      ++ [frames (state_after args_from_march (map_of file_two_dates) 0 2)] /\
    written (world st')
    = written (world (state_after args_from_march (map_of file_two_dates) 0 2))
      ++ exported args_from_march
           (frames (state_after args_from_march (map_of file_two_dates) 0 2)) tstamp.
Proof.
  apply (last_flush_decides_on_the_last_frame args_from_march (map_of file_two_dates) 0 2%nat
           (state_after args_from_march (map_of file_two_dates) 0 2)
           (frame_at (map_of file_two_dates) 0)
           [frame_at (map_of file_two_dates) 22]).
  - vm_compute; reflexivity.
  - vm_compute; reflexivity.
  - vm_compute; reflexivity.
Defined.

(** ** Exceptions of the scan *)

Lemma parse_at_raises mm H e :
  0 <= H <= mm_len mm -> parse_at mm H = Raise e -> e = ValueError /\ mm_len mm < 22.
Proof.
  intros HH Hp.
  destruct (parse_at_outcome mm H HH) as [Hsmall Hbig].
  destruct (Z.lt_ge_cases (mm_len mm) 22) as [Hlt|Hge].
  - rewrite (Hsmall Hlt) in Hp. injection Hp as <-. split; [reflexivity | exact Hlt].
  - destruct (Hbig Hge) as (d & Hd). rewrite Hd in Hp. discriminate.
Qed.

(** A pass of a scan raises only from the header parser. *)
Lemma raised_spec args mm startoffset st e s :
  Good args startoffset st -> loop_body args mm startoffset st = Raised e s ->
  exists H, mm_find mm DHAV (offset st) = Some H /\ parse_at mm H = Raise e.
Proof.
  intros HG Hs.
  destruct (mm_find mm DHAV (offset st)) as [H|] eqn:Ef.
  - exists H. split; [reflexivity|].
    destruct (parse_at mm H) as [d|e'] eqn:Ep.
    + destruct (continue_spec args mm startoffset st H d HG Ef Ep) as (st' & Hc & _).
      rewrite Hs in Hc. discriminate.
    + destruct (raise_spec args mm startoffset st H e' HG Ef Ep) as (st' & Hr).
      rewrite Hs in Hr. injection Hr as -> _. reflexivity.
  - destruct (break_spec args mm startoffset st HG Ef) as (st' & Hb & _).
    rewrite Hs in Hb. discriminate.
Qed.

Lemma loop_failed args mm startoffset fuel : forall st e s,
  Good args startoffset st -> loop args mm startoffset fuel st = Failed e s ->
  e = ValueError /\ mm_len mm < 22.
Proof.
  induction fuel as [|fuel IH]; intros st e s HG; cbn; [discriminate|].
  pose proof (loop_body_good args mm startoffset st HG) as Hstep.
  destruct (loop_body args mm startoffset st) as [s'|s'|e' s'] eqn:E.
  - apply IH. exact Hstep.
  - discriminate.
  - intros [= -> ->].
    destruct (raised_spec args mm startoffset st e s HG E) as (H & Ef & Ep).
    pose proof (mm_find_bounds _ _ _ _ DHAV_nonempty (good_offset_nonneg _ _ _ HG) Ef) as Hb.
    pose proof (good_offset_nonneg _ _ _ HG).
    apply (parse_at_raises mm H e); [lia | exact Ep].
Qed.

(** X8.  The scan loop raises no exception on a map of 22 bytes or more.
    On a shorter map that holds the signature, the first pass fails with
    [ValueError], after the progress line and before anything is buffered or
    written. *)
Theorem scan_fails_on_tiny_maps_only args mm startoffset fuel :
  (22 <= mm_len mm ->
   forall e st, loop args mm startoffset fuel (initial args) <> Failed e st) /\
  (mm_len mm < 22 ->
   forall H, mm_find mm DHAV 0 = Some H ->
   loop args mm startoffset (S fuel) (initial args)
   = Failed ValueError
       (set_world (initial args)
          (add_info (world (initial args)) (H + startoffset, filesize mm startoffset)))).
Proof.
  split.
  - intros Hbig e st Hl.
    destruct (loop_failed args mm startoffset fuel _ e st (initial_good _ _) Hl). lia.
  - intros Hsmall H Ef.
    pose proof (mm_find_bounds _ _ _ _ DHAV_nonempty (Z.le_refl 0) Ef) as Hb.
    destruct (parse_at_outcome mm H ltac:(lia)) as [Hp _].
    cbn [loop]. unfold loop_body. cbn [offset initial]. rewrite Ef.
    rewrite close_run_keep by (right; reflexivity). rewrite (Hp Hsmall). reflexivity.
Qed.

Lemma scan_fails_on_tiny_maps_only_witness :
  (22 <= mm_len (map_of DHAV) ->
   forall e st, loop plain_args (map_of DHAV) 0 1 (initial plain_args) <> Failed e st) /\
  (mm_len (map_of DHAV) < 22 ->
   forall H, mm_find (map_of DHAV) DHAV 0 = Some H ->
   loop plain_args (map_of DHAV) 0 (S 1) (initial plain_args)
   = Failed ValueError
       (set_world (initial plain_args)
          (add_info (world (initial plain_args)) (H + 0, filesize (map_of DHAV) 0)))).
Proof.
  exact (scan_fails_on_tiny_maps_only plain_args (map_of DHAV) 0 1).
Defined.

Lemma round_down_spec granularity s :
  0 < granularity ->
  round_down granularity s mod granularity = 0 /\
  round_down granularity s <= s < round_down granularity s + granularity.
Proof.
  intros HG. unfold round_down.
  pose proof (Z.mod_pos_bound s granularity HG) as Hm.
  split; [|lia].
  rewrite Zminus_mod, Z.mod_mod, Z.sub_diag by lia. apply Z.mod_0_l. lia.
Qed.

Lemma round_down_negative granularity s :
  0 < granularity -> round_down granularity s < 0 -> s < 0.
Proof.
  intros HG Hneg. unfold round_down in Hneg.
  destruct (Z.lt_ge_cases s 0) as [|Hs]; [assumption|].
  pose proof (Z.mod_le s granularity Hs HG). lia.
Qed.

(** X9.  How a run of [main] can fail, on a platform with a positive
    granularity and a 64-bit [ssize_t].  It fails with [OverflowError]
    before anything is scanned when [--skip] is negative or its rounding is
    2^63 or more, and in these cases it always does; with [ValueError]
    before the scan when the input is empty or shorter than the rounded
    skip; with [ValueError] in the scan when the map has fewer than 22
    bytes; and with [UnboundLocalError] after a completed scan when [--csv]
    is given without a time window.  There is no other failure. *)
Theorem failures_of_main granularity args file fuel :
  0 < granularity ->
  ((skip args < 0 \/ 2 ^ 63 <= round_down granularity (skip args)) ->
   main granularity args file fuel = Failed OverflowError (initial args)) /\
  (forall e st,
     main granularity args file fuel = Failed e st ->
     (e = OverflowError /\ st = initial args /\
      (skip args < 0 \/ 2 ^ 63 <= round_down granularity (skip args))) \/
     (e = ValueError /\ st = initial args /\
      0 <= round_down granularity (skip args) < 2 ^ 63 /\
      (file = [] \/ Z.of_nat (List.length file) < round_down granularity (skip args))) \/
     (e = ValueError /\
      exists mm, mmap_open file (round_down granularity (skip args)) = Ok mm /\
                 mm_len mm < 22 /\
                 loop args mm (round_down granularity (skip args)) fuel (initial args)
                 = Failed e st) \/
     (e = UnboundLocalError /\ csv args = true /\ window args = false /\
      exists mm, mmap_open file (round_down granularity (skip args)) = Ok mm /\
                 loop args mm (round_down granularity (skip args)) fuel (initial args)
                 = Done st)).
Proof.
  intros HG.
  destruct (round_down_spec granularity (skip args) HG) as [_ Hrd].
  split.
  - intros Hover. unfold main, mmap_open.
    assert (E : (round_down granularity (skip args) <? 0)
                || (2 ^ 63 <=? round_down granularity (skip args)) = true).
    { apply orb_true_iff. destruct Hover as [Hneg|Hbig].
      - left. apply Z.ltb_lt. lia.
      - right. apply Z.leb_le. exact Hbig. }
    rewrite E. reflexivity.
  - intros e st. unfold main.
    destruct (mmap_open file (round_down granularity (skip args))) as [mm|e'] eqn:Em.
    + destruct (loop args mm _ fuel (initial args)) as [s|e' s|] eqn:El.
      * unfold close_csv. destruct (csv args) eqn:Hcsv; [|discriminate].
        assert (HI : Inv args (round_down granularity (skip args)) s).
        { apply (loop_inv args mm _ fuel (initial args)); [apply initial_good|].
          rewrite El. reflexivity. }
        destruct (selectionoutputfile (world s)) eqn:Hsel.
        -- destruct (alloutputfile (world s)) eqn:Hall; [discriminate|].
           destruct (inv_all _ _ _ HI Hcsv Hall).
        -- intros [= <- <-]. right. right. right.
           split; [reflexivity|]. split; [reflexivity|]. split.
           ++ pose proof (proj1 (inv_selection _ _ _ HI) Hsel) as Hw.
              rewrite Hcsv in Hw. exact Hw.
           ++ exists mm. split; [reflexivity | exact El].
      * intros [= -> ->]. right. right. left.
        destruct (loop_failed args mm _ fuel _ e st (initial_good _ _) El) as [-> Hsmall].
        split; [reflexivity|]. exists mm. split; [reflexivity|].
        split; [exact Hsmall | exact El].
      * discriminate.
    + intros [= -> <-]. unfold mmap_open in Em.
      destruct (Z.ltb_spec (round_down granularity (skip args)) 0) as [Hneg|Hpos].
      * injection Em as <-. left. split; [reflexivity|]. split; [reflexivity|].
        left. exact (round_down_negative _ _ HG Hneg).
      * destruct (Z.leb_spec (2 ^ 63) (round_down granularity (skip args))) as [Hbig|Hfit].
        -- injection Em as <-. left. split; [reflexivity|]. split; [reflexivity|].
           right. exact Hbig.
        -- cbn [orb] in Em. right. left.
           destruct (Z.eqb_spec (round_down granularity (skip args)) 0) as [Hz|Hnz].
           ++ destruct (Z.eqb_spec (Z.of_nat (List.length file)) 0) as [Hempty|];
                [|discriminate].
              injection Em as <-. split; [reflexivity|]. split; [reflexivity|].
              split; [split; assumption|]. left.
              destruct file; [reflexivity | cbn in Hempty; lia].
           ++ destruct (Z.ltb_spec (Z.of_nat (List.length file))
                          (round_down granularity (skip args))); [|discriminate].
              injection Em as <-. split; [reflexivity|]. split; [reflexivity|].
              split; [split; assumption|]. right. assumption.
Qed.

Lemma failures_of_main_witness :
  main 4096 args_skip_huge file_two_dates 5 = Failed OverflowError (initial args_skip_huge) /\
  ((UnboundLocalError = OverflowError /\
    final_of (main 4096 args_csv file_two_dates 5) = initial args_csv /\
    (skip args_csv < 0 \/ 2 ^ 63 <= round_down 4096 (skip args_csv))) \/
   (UnboundLocalError = ValueError /\
    final_of (main 4096 args_csv file_two_dates 5) = initial args_csv /\
    0 <= round_down 4096 (skip args_csv) < 2 ^ 63 /\
    (file_two_dates = [] \/
     Z.of_nat (List.length file_two_dates) < round_down 4096 (skip args_csv))) \/
   (UnboundLocalError = ValueError /\
    exists mm, mmap_open file_two_dates (round_down 4096 (skip args_csv)) = Ok mm /\
               mm_len mm < 22 /\
               loop args_csv mm (round_down 4096 (skip args_csv)) 5 (initial args_csv)
               = Failed UnboundLocalError (final_of (main 4096 args_csv file_two_dates 5))) \/
   (UnboundLocalError = UnboundLocalError /\ csv args_csv = true /\ window args_csv = false /\
    exists mm, mmap_open file_two_dates (round_down 4096 (skip args_csv)) = Ok mm /\
               loop args_csv mm (round_down 4096 (skip args_csv)) 5 (initial args_csv)
               = Done (final_of (main 4096 args_csv file_two_dates 5)))).
Proof.
  split.
  - apply (proj1 (failures_of_main 4096 args_skip_huge file_two_dates 5 ltac:(lia))).
    right. vm_compute. discriminate.
  - apply (proj2 (failures_of_main 4096 args_csv file_two_dates 5 ltac:(lia))).
    vm_compute; reflexivity.
Defined.

(** X10.  An input without the signature is no error: the scan ends in its
    first pass having logged, buffered and written nothing, and [main] goes
    on to the cleanup with the variables as they were before the loop. *)
Theorem no_signature_no_output granularity args file mm fuel :
  mmap_open file (round_down granularity (skip args)) = Ok mm ->
  mm_find mm DHAV 0 = None ->
  loop args mm (round_down granularity (skip args)) (S fuel) (initial args)
  = Done (initial args) /\
  main granularity args file (S fuel) = close_csv args (initial args) /\
  written (world (initial args)) = [] /\ info_log (world (initial args)) = [] /\
  flushed (initial args) = [].
Proof.
  intros Hm Ef.
  assert (Hl : loop args mm (round_down granularity (skip args)) (S fuel) (initial args)
               = Done (initial args)).
  { cbn [loop]. unfold loop_body. cbn [offset initial frames]. rewrite Ef. reflexivity. }
  split; [exact Hl|]. split.
  - unfold main. rewrite Hm, Hl. reflexivity.
  - auto.
Qed.

Lemma no_signature_no_output_witness :
  loop plain_args (map_of [x00; x01]) (round_down 4096 (skip plain_args)) (S 0)
    (initial plain_args)
  = Done (initial plain_args) /\
  main 4096 plain_args [x00; x01] (S 0) = close_csv plain_args (initial plain_args) /\
  written (world (initial plain_args)) = [] /\
  info_log (world (initial plain_args)) = [] /\
  flushed (initial plain_args) = [].
Proof.
  apply (no_signature_no_output 4096 plain_args [x00; x01] (map_of [x00; x01]) 0).
  - vm_compute; reflexivity.
  - vm_compute; reflexivity.
Defined.

(** ** Dry runs *)

Lemma export_dry args fs tstamp w :
  fs <> [] ->
  exists w', export args fs tstamp w = Ok w' /\
             export (with_dryrun args true) fs tstamp
               (mk_world (alloutputfile w) (selectionoutputfile w) [] [] (info_log w) (debug_log w))
             = Ok (mk_world (alloutputfile w') (selectionoutputfile w') [] []
                     (info_log w') (debug_log w')).
Proof.
  intros Hfs. unfold export, write_dav. cbn [starttime stoptime dryrun with_dryrun negb].
  destruct fs as [|first rest]; [contradiction|].
  destruct (timestamp_ok tstamp (starttime args) (stoptime args));
    destruct (dryrun args); cbn [negb]; eexists; split; reflexivity.
Qed.

Lemma close_run_dry args H st :
  close_run (with_dryrun args true) H (without_files st)
  = match close_run args H st with
    | Ok st' => Ok (without_files st')
    | Raise e => Raise e
    end.
Proof.
  unfold close_run. cbn [offset frames without_files set_world].
  destruct ((offset st <? H) && nonempty (frames st)); [|reflexivity].
  destruct (frames st) as [|first rest] eqn:E; [reflexivity|].
  destruct (date_to_timestamp (date first)) as [tstamp|]; [|reflexivity].
  cbn [frames world set_timestamp without_files set_world]. rewrite E.
  destruct (export_dry args (first :: rest) tstamp (world st)) as (w' & Hw & Hd);
    [discriminate|].
  rewrite Hw, Hd. reflexivity.
Qed.

Lemma take_frame_dry args startoffset H d st :
  take_frame (with_dryrun args true) startoffset H d (without_files st)
  = match take_frame args startoffset H d st with
    | Ok st' => Ok (without_files st')
    | Raise e => Raise e
    end.
Proof.
  unfold take_frame.
  destruct (date_to_timestamp (date d)) as [tstamp|]; [|reflexivity].
  unfold write_csv. cbn [csv starttime stoptime with_dryrun world set_timestamp
                         without_files set_world].
  destruct (csv args); [|reflexivity].
  unfold write_selection, write_all, write_row.
  cbn [alloutputfile selectionoutputfile written info_log debug_log].
  destruct (truthy (starttime args) || truthy (stoptime args));
    [destruct (timestamp_ok tstamp (starttime args) (stoptime args))|];
    destruct (selectionoutputfile (world st));
    destruct (alloutputfile (world st)); reflexivity.
Qed.

Lemma loop_body_dry args mm startoffset st :
  loop_body (with_dryrun args true) mm startoffset (without_files st)
  = map_step without_files (loop_body args mm startoffset st).
Proof.
  unfold loop_body. change (offset (without_files st)) with (offset st).
  destruct (mm_find mm DHAV (offset st)) as [H|].
  - change (set_world (without_files st)
              (add_info (world (without_files st))
                 (H + startoffset, filesize mm startoffset)))
      with (without_files
              (set_world st (add_info (world st) (H + startoffset, filesize mm startoffset)))).
    rewrite close_run_dry.
    destruct (close_run args H _) as [st1|e]; [|reflexivity].
    destruct (parse_at mm H) as [d|e]; [|reflexivity].
    rewrite take_frame_dry.
    destruct (take_frame args startoffset H d st1) as [st2|e]; reflexivity.
  - change (frames (without_files st)) with (frames st).
    change (timestamp_var (without_files st)) with (timestamp_var st).
    change (world (without_files st))
      with (mk_world (alloutputfile (world st)) (selectionoutputfile (world st)) [] []
              (info_log (world st)) (debug_log (world st))).
    destruct (frames st) as [|first rest] eqn:E; [reflexivity|].
    destruct (timestamp_var st) as [tstamp|]; [|reflexivity].
    destruct (export_dry args (first :: rest) tstamp (world st)) as (w' & Hw & Hd);
      [discriminate|].
    rewrite Hw, Hd. reflexivity.
Qed.

Lemma loop_dry args mm startoffset fuel : forall st,
  loop (with_dryrun args true) mm startoffset fuel (without_files st)
  = map_outcome without_files (loop args mm startoffset fuel st).
Proof.
  induction fuel as [|fuel IH]; intros st; [reflexivity|].
  cbn [loop]. rewrite loop_body_dry.
  destruct (loop_body args mm startoffset st) as [s|s|e s]; cbn [map_step map_outcome];
    [apply IH | reflexivity | reflexivity].
Qed.

(** X11.  A dry run is the run without [--dryrun] less the container
    files: it ends the same way, with the same CSV tables, the same log
    lines and the same segments at the export decision, and it writes no
    container file. *)
Theorem dry_run_only_drops_the_files granularity args file fuel :
  main granularity (with_dryrun args true) file fuel
  = map_outcome without_files (main granularity args file fuel) /\
  (forall st, final_state (main granularity (with_dryrun args true) file fuel) = Some st ->
              written (world st) = []).
Proof.
  assert (Hmain : main granularity (with_dryrun args true) file fuel
                  = map_outcome without_files (main granularity args file fuel)).
  { unfold main. cbn [skip with_dryrun].
    destruct (mmap_open file (round_down granularity (skip args))) as [mm|e];
      [|reflexivity].
    change (initial (with_dryrun args true)) with (without_files (initial args)).
    rewrite loop_dry.
    destruct (loop args mm _ fuel (initial args)) as [s|e s|]; cbn [map_outcome];
      [|reflexivity|reflexivity].
    unfold close_csv. cbn [csv with_dryrun world without_files set_world
                           selectionoutputfile alloutputfile].
    destruct (csv args); [|reflexivity].
    destruct (selectionoutputfile (world s)); [|reflexivity].
    destruct (alloutputfile (world s)); reflexivity. }
  split; [exact Hmain|].
  intros st. rewrite Hmain.
  destruct (main granularity args file fuel) as [s|e s|]; cbn; try discriminate;
    intros [= <-]; reflexivity.
Qed.

(** ** The CSV tables and the logs of a completed scan *)

(** X12.  With [--csv], when the scan completes, the table of all frames
    has one row for each frame of the segments that reached the export
    decision, in their order, whether or not the segment was written: the
    row of a frame holds its decoded date, its header offset plus the
    rounded skip, and its header fields. *)
Theorem found_all_lists_the_flushed_frames args mm startoffset fuel st :
  csv args = true ->
  loop args mm startoffset fuel (initial args) = Done st ->
  alloutputfile (world st) = Some (frame_rows startoffset (List.concat (flushed st))) /\
  List.length (frame_rows startoffset (List.concat (flushed st)))
  = List.length (List.concat (flushed st)).
Proof.
  intros Hcsv Hl.
  destruct (done_spec args mm startoffset fuel st Hl)
    as (k & s & _ & _ & HT & _ & _ & _ & _ & Hh & Ha & _).
  rewrite Hh, Ha. split; [exact (tr_all _ _ _ _ HT Hcsv)|].
  apply frame_rows_length, (tr_dates _ _ _ _ HT).
Qed.

Lemma found_all_lists_the_flushed_frames_witness :
  alloutputfile
    (world (final_of (loop args_csv (map_of file_illegal_between) 0 5 (initial args_csv))))
  = Some (frame_rows 0
            (List.concat
               (flushed (final_of (loop args_csv (map_of file_illegal_between) 0 5
                                     (initial args_csv)))))) /\
  List.length
    (frame_rows 0
       (List.concat
          (flushed (final_of (loop args_csv (map_of file_illegal_between) 0 5
                                (initial args_csv))))))
  = List.length
      (List.concat
         (flushed (final_of (loop args_csv (map_of file_illegal_between) 0 5
                               (initial args_csv))))).
Proof.
  apply (found_all_lists_the_flushed_frames args_csv (map_of file_illegal_between) 0 5).
  - reflexivity.
  - vm_compute; reflexivity.
Defined.

(** X13.  With [--csv] and a time window, the selection table is, at every
    point of the scan and when it completes, the table of all frames
    filtered by each row's own timestamp, whatever the export decision on
    the row's segment was. *)
Theorem selection_is_the_filtered_table args mm startoffset :
  csv args = true -> window args = true ->
  (forall k st,
     iter args mm startoffset k (initial args) = Some st ->
     exists rows, alloutputfile (world st) = Some rows /\
                  selectionoutputfile (world st) = Some (filter (in_window args) rows)) /\
  (forall fuel st,
     loop args mm startoffset fuel (initial args) = Done st ->
     exists rows, alloutputfile (world st) = Some rows /\
                  selectionoutputfile (world st) = Some (filter (in_window args) rows)).
Proof.
  intros Hcsv Hwin.
  assert (Hcw : csv args && window args = true) by (rewrite Hcsv, Hwin; reflexivity).
  assert (Hreach : forall k st,
             iter args mm startoffset k (initial args) = Some st ->
             exists rows, alloutputfile (world st) = Some rows /\
                          selectionoutputfile (world st) = Some (filter (in_window args) rows)).
  { intros k st Hk. pose proof (reachable_trace args mm startoffset k st Hk) as HT.
    exists (frame_rows startoffset (history st)).
    split; [exact (tr_all _ _ _ _ HT Hcsv) | exact (tr_selection _ _ _ _ HT Hcw)]. }
  split; [exact Hreach|].
  intros fuel st Hl.
  destruct (done_spec args mm startoffset fuel st Hl)
    as (k & s & Hk & _ & _ & _ & _ & _ & _ & _ & Ha & Hs & _).
  rewrite Ha, Hs. exact (Hreach k s Hk).
Qed.

Lemma selection_is_the_filtered_table_witness :
  (forall k st,
     iter args_csv_from_march
       (map_of file_two_dates) 0 k
       (initial args_csv_from_march) = Some st ->
     exists rows,
       alloutputfile (world st) = Some rows /\
       selectionoutputfile (world st)
       = Some (filter (in_window args_csv_from_march)
                 rows)) /\
  (forall fuel st,
     loop args_csv_from_march
       (map_of file_two_dates) 0 fuel
       (initial args_csv_from_march) = Done st ->
     exists rows,
       alloutputfile (world st) = Some rows /\
       selectionoutputfile (world st)
       = Some (filter (in_window args_csv_from_march)
                 rows)).
Proof.
  apply (selection_is_the_filtered_table
           args_csv_from_march
           (map_of file_two_dates) 0); reflexivity.
Defined.

(** X14.  With [--csv], the rows of the table of all frames of a completed
    scan are in byte order and do not overlap: each row's offset is at or
    after the previous row's offset plus its frame length. *)
Theorem rows_are_in_byte_order args mm startoffset fuel st rows :
  loop args mm startoffset fuel (initial args) = Done st ->
  csv args = true -> alloutputfile (world st) = Some rows ->
  consecutive (fun r1 r2 => row_offset r1 + row_frame_length r1 <= row_offset r2) rows.
Proof.
  intros Hl Hcsv Hrows.
  destruct (done_spec args mm startoffset fuel st Hl)
    as (k & s & _ & _ & HT & _ & _ & _ & _ & _ & Ha & _).
  rewrite Ha, (tr_all _ _ _ _ HT Hcsv) in Hrows. injection Hrows as <-.
  apply frame_rows_consecutive;
    [| exact (tr_dates _ _ _ _ HT) | exact (tr_order _ _ _ _ HT)].
  intros a b ta tb _ _ Hab _ _. unfold follows, span_end in Hab. cbn. lia.
Qed.

Lemma rows_are_in_byte_order_witness :
  consecutive (fun r1 r2 => row_offset r1 + row_frame_length r1 <= row_offset r2)
    (frame_rows 0
       (List.concat
          (flushed (final_of (loop args_csv (map_of file_illegal_between) 0 5
                                (initial args_csv)))))).
Proof.
  apply (rows_are_in_byte_order args_csv (map_of file_illegal_between) 0 5
           (final_of (loop args_csv (map_of file_illegal_between) 0 5 (initial args_csv)))).
  - vm_compute; reflexivity.
  - reflexivity.
  - vm_compute; reflexivity.
Defined.



(** ** The order of date-times and the time window *)

Lemma lex_ltb_irrefl a : lex_ltb a a = false.
Proof.
  induction a as [|x a IH]; [reflexivity|]. cbn.
  rewrite Z.ltb_irrefl, Z.eqb_refl, IH. reflexivity.
Qed.

Lemma lex_ltb_trans a : forall b c,
  lex_ltb a b = true -> lex_ltb b c = true -> lex_ltb a c = true.
Proof.
  induction a as [|x a IH]; intros [|y b] [|z c]; cbn; try discriminate; try reflexivity.
  intros Hab Hbc.
  apply orb_true_iff in Hab. apply orb_true_iff in Hbc. apply orb_true_iff.
  destruct Hab as [Hxy|Hxy]; destruct Hbc as [Hyz|Hyz];
    rewrite ?andb_true_iff, ?Z.ltb_lt, ?Z.eqb_eq in *.
  - left. lia.
  - left. lia.
  - left. lia.
  - right. destruct Hxy as [-> Hab], Hyz as [-> Hbc]. split; [reflexivity|].
    exact (IH b c Hab Hbc).
Qed.

Lemma lex_ltb_total a : forall b,
  List.length a = List.length b ->
  lex_ltb a b = false -> lex_ltb b a = false -> a = b.
Proof.
  induction a as [|x a IH]; intros [|y b]; cbn; try discriminate; try reflexivity.
  intros [= Hlen] Hab Hba.
  apply orb_false_iff in Hab, Hba. destruct Hab as [Hxy Hab], Hba as [Hyx Hba].
  apply Z.ltb_ge in Hxy, Hyx. assert (x = y) by lia. subst y.
  rewrite Z.eqb_refl in Hab, Hba. cbn in Hab, Hba. f_equal. exact (IH b Hlen Hab Hba).
Qed.

Lemma dt_ltb_total a b : dt_ltb a b = false -> dt_ltb b a = false -> a = b.
Proof.
  unfold dt_ltb. intros Hab Hba.
  pose proof (lex_ltb_total (dt_key a) (dt_key b) eq_refl Hab Hba) as E.
  destruct a, b. unfold dt_key in E. cbn in E. now injection E as -> -> -> -> -> ->.
Qed.

(** [a <= b < c] gives [a < c]. *)
Lemma dt_leb_ltb_trans a b c :
  dt_leb a b = true -> dt_ltb b c = true -> dt_ltb a c = true.
Proof.
  unfold dt_leb. intros Hab Hbc. apply negb_true_iff in Hab.
  destruct (dt_ltb a b) eqn:Hlt.
  - exact (lex_ltb_trans _ _ _ Hlt Hbc).
  - rewrite (dt_ltb_total a b Hlt Hab). exact Hbc.
Qed.

(** [a < b <= c] gives [a < c]. *)
Lemma dt_ltb_leb_trans a b c :
  dt_ltb a b = true -> dt_leb b c = true -> dt_ltb a c = true.
Proof.
  unfold dt_leb. intros Hab Hbc. apply negb_true_iff in Hbc.
  destruct (dt_ltb b c) eqn:Hlt.
  - exact (lex_ltb_trans _ _ _ Hab Hlt).
  - rewrite <- (dt_ltb_total b c Hlt Hbc). exact Hab.
Qed.

Lemma timestamp_ok_true t starttime stoptime :
  timestamp_ok t starttime stoptime = true <->
  (forall s, starttime = Some s -> dt_leb s t = true) /\
  (forall s, stoptime = Some s -> dt_leb t s = true).
Proof.
  unfold timestamp_ok, dt_leb. split.
  - intros H. split; intros s ->.
    + destruct (dt_ltb t s); [discriminate | reflexivity].
    + destruct starttime as [s0|]; [destruct (dt_ltb t s0); [discriminate|]|];
        (destruct (dt_ltb s t); [discriminate | reflexivity]).
  - intros [Hs He].
    destruct starttime as [s|].
    + specialize (Hs s eq_refl). apply negb_true_iff in Hs. rewrite Hs.
      destruct stoptime as [e|]; [|reflexivity].
      specialize (He e eq_refl). apply negb_true_iff in He. rewrite He. reflexivity.
    + destruct stoptime as [e|]; [|reflexivity].
      specialize (He e eq_refl). apply negb_true_iff in He. rewrite He. reflexivity.
Qed.

(** X16.  The time window is a closed interval of date-times.  Without
    bounds every timestamp passes; a timestamp equal to a bound passes;
    between two timestamps that pass, every timestamp passes; and when
    [--start] is later than [--stop], none does. *)
Theorem time_window_is_a_closed_interval :
  (forall t, timestamp_ok t None None = true) /\
  (forall t, timestamp_ok t (Some t) (Some t) = true) /\
  (forall a b c starttime stoptime,
     timestamp_ok a starttime stoptime = true ->
     timestamp_ok c starttime stoptime = true ->
     dt_leb a b = true -> dt_leb b c = true ->
     timestamp_ok b starttime stoptime = true) /\
  (forall t starttime stoptime,
     dt_ltb stoptime starttime = true ->
     timestamp_ok t (Some starttime) (Some stoptime) = false).
Proof.
  split; [reflexivity|]. split.
  { intros t. unfold timestamp_ok, dt_ltb. now rewrite lex_ltb_irrefl. }
  split.
  - intros a b c starttime stoptime Ha Hc Hab Hbc.
    apply timestamp_ok_true in Ha, Hc. apply timestamp_ok_true.
    destruct Ha as [Ha _], Hc as [_ Hc]. split.
    + intros s Hs. specialize (Ha s Hs). unfold dt_leb in *.
      apply negb_true_iff. destruct (dt_ltb b s) eqn:Hbs; [|reflexivity].
      pose proof (dt_leb_ltb_trans a b s Hab Hbs) as Has.
      unfold dt_leb in Has. rewrite Has in Ha. discriminate.
    + intros s Hs. specialize (Hc s Hs). unfold dt_leb in *.
      apply negb_true_iff. destruct (dt_ltb s b) eqn:Hsb; [|reflexivity].
      pose proof (dt_ltb_leb_trans s b c Hsb Hbc) as Hsc.
      rewrite Hsc in Hc. discriminate.
  - intros t starttime stoptime Hlate.
    destruct (timestamp_ok t (Some starttime) (Some stoptime)) eqn:Hok; [|reflexivity].
    apply timestamp_ok_true in Hok. destruct Hok as [Hs He].
    specialize (Hs _ eq_refl). specialize (He _ eq_refl).
    pose proof (dt_ltb_leb_trans stoptime starttime t Hlate Hs) as Hlt.
    unfold dt_leb in He. rewrite Hlt in He. discriminate.
Qed.

(** ** The start of the scan *)

(** X17.  The rounding of [--skip] (lines 154-155), for a positive
    granularity: the result is the largest multiple of the granularity that
    is not above the skip; it is 0 for a skip below the granularity, and
    negative exactly for a negative skip. *)
Theorem skip_is_rounded_down_to_the_granularity granularity s :
  0 < granularity ->
  round_down granularity s = granularity * (s / granularity) /\
  round_down granularity s <= s < round_down granularity s + granularity /\
  (0 <= s < granularity -> round_down granularity s = 0) /\
  (round_down granularity s < 0 <-> s < 0).
Proof.
  intros HG. unfold round_down.
  pose proof (Z.mod_pos_bound s granularity HG) as Hm.
  pose proof (Z.div_mod s granularity ltac:(lia)) as Hdm.
  split; [lia|]. split; [lia|]. split.
  - intros Hs. rewrite Z.mod_small by lia. lia.
  - split; intros Hneg; [|lia].
    destruct (Z.lt_ge_cases s 0) as [|Hs]; [assumption|].
    pose proof (Z.mod_le s granularity Hs HG). lia.
Qed.

Lemma skip_is_rounded_down_to_the_granularity_witness :
  round_down 4096 5000 = 4096 * (5000 / 4096) /\
  round_down 4096 5000 <= 5000 < round_down 4096 5000 + 4096 /\
  (0 <= 5000 < 4096 -> round_down 4096 5000 = 0) /\
  (round_down 4096 5000 < 0 <-> 5000 < 0).
Proof.
  apply (skip_is_rounded_down_to_the_granularity 4096 5000). lia.
Defined.

Lemma round_down_small granularity s :
  0 <= s < granularity -> round_down granularity s = 0.
Proof. intros Hs. unfold round_down. rewrite Z.mod_small by lia. lia. Qed.

Lemma mmap_open_whole file mm :
  mmap_open file 0 = Ok mm -> mm = map_of file /\ file <> [].
Proof.
  unfold mmap_open. cbn. destruct (Z.eqb_spec (Z.of_nat (List.length file)) 0) as [E|E];
    [discriminate|].
  intros [= <-]. split; [reflexivity|]. intros ->. now apply E.
Qed.

Lemma rows_of_found_frames mm fs :
  Forall (found_at mm) fs -> Forall date_ok fs ->
  Forall (fun r => slice mm (row_offset r) 4 = DHAV) (frame_rows 0 fs).
Proof.
  intros Hf Hd. induction fs as [|d fs IH]; [constructor|].
  inversion Hf as [|? ? Hfd Hffs]. inversion Hd as [|? ? Hdd Hdfs]. subst.
  change (d :: fs) with ([d] ++ fs). rewrite frame_rows_app. apply Forall_app.
  split; [|exact (IH Hffs Hdfs)].
  unfold date_ok in Hdd. destruct (date_to_timestamp (date d)) as [t|] eqn:Ed;
    [|contradiction].
  rewrite (frame_rows_one _ _ _ Ed). constructor; [|constructor].
  cbn [row_offset row_of]. rewrite Z.add_0_r.
  destruct Hfd as (o & Ho & Ef & _). exact (mm_find_signature _ o _ Ho Ef).
Qed.

(** X18.  With a skip below the granularity, as by default, the whole input
    is mapped, and when the scan completes every offset it reported is the
    position of a signature in the input: in each progress line, which also
    gives the input's size, and with [--csv] in each row of the table of all
    frames. *)
Theorem small_skip_reports_true_offsets granularity args file mm fuel st :
  0 < granularity -> 0 <= skip args < granularity ->
  mmap_open file (round_down granularity (skip args)) = Ok mm ->
  loop args mm (round_down granularity (skip args)) fuel (initial args) = Done st ->
  round_down granularity (skip args) = 0 /\ mm_data mm = file /\
  Forall (fun line => firstn 4 (skipn (Z.to_nat (fst line)) file) = DHAV /\
                      snd line = Z.of_nat (List.length file))
         (info_log (world st)) /\
  (csv args = true ->
   exists rows, alloutputfile (world st) = Some rows /\
                Forall (fun r => firstn 4 (skipn (Z.to_nat (row_offset r)) file) = DHAV) rows).
Proof.
  intros HG Hskip Hm Hl.
  pose proof (round_down_small granularity (skip args) Hskip) as Hz. rewrite Hz in *.
  destruct (mmap_open_whole file mm Hm) as [-> _].
  split; [reflexivity|]. split; [reflexivity|].
  destruct (done_spec args (map_of file) 0 fuel st Hl)
    as (k & s & _ & _ & HT & _ & _ & _ & _ & Hh & Ha & _ & Hi & _).
  split.
  - rewrite Hi. eapply Forall_impl; [|exact (tr_info _ _ _ _ HT)].
    intros line (H & o & Ho & Ef & ->). cbn [fst snd].
    rewrite Z.add_0_r. split; [exact (mm_find_signature _ o H Ho Ef)|].
    unfold filesize, mapsize. cbn. reflexivity.
  - intros Hcsv. rewrite Ha, (tr_all _ _ _ _ HT Hcsv). eexists. split; [reflexivity|].
    exact (rows_of_found_frames (map_of file) _ (tr_found _ _ _ _ HT) (tr_dates _ _ _ _ HT)).
Qed.

Lemma small_skip_reports_true_offsets_witness :
  round_down 4096 (skip args_csv) = 0 /\
  mm_data (map_of file_contiguity) = file_contiguity /\
  Forall (fun line => firstn 4 (skipn (Z.to_nat (fst line)) file_contiguity) = DHAV /\
                      snd line = Z.of_nat (List.length file_contiguity))
         (info_log (world (final_of (loop args_csv (map_of file_contiguity)
                                       (round_down 4096 (skip args_csv)) 5
                                       (initial args_csv))))) /\
  (csv args_csv = true ->
   exists rows,
     alloutputfile (world (final_of (loop args_csv (map_of file_contiguity)
                                       (round_down 4096 (skip args_csv)) 5
                                       (initial args_csv)))) = Some rows /\
     Forall (fun r => firstn 4 (skipn (Z.to_nat (row_offset r)) file_contiguity) = DHAV)
            rows).
Proof.
  apply (small_skip_reports_true_offsets 4096 args_csv file_contiguity
           (map_of file_contiguity) 5).
  - lia.
  - cbn; lia.
  - vm_compute; reflexivity.
  - vm_compute; reflexivity.
Defined.

(** ** More on the packed date *)

Lemma land_mask_range x k : 0 <= k -> 0 <= Z.land x (Z.ones k) < 2 ^ k.
Proof.
  intros Hk. rewrite Z.land_ones by assumption. apply Z.mod_pos_bound.
  apply Z.pow_pos_nonneg; lia.
Qed.

(** The six sub-fields of a packed date. *)
Lemma date_fields_range d :
  0 <= Z.land d 63 < 64 /\ 0 <= Z.land (Z.shiftr d 6) 63 < 64 /\
  0 <= Z.land (Z.shiftr d 12) 31 < 32 /\ 0 <= Z.land (Z.shiftr d 17) 31 < 32 /\
  0 <= Z.land (Z.shiftr d 22) 15 < 16 /\ 0 <= Z.land (Z.shiftr d 26) 63 < 64.
Proof.
  change 63 with (Z.ones 6). change 31 with (Z.ones 5). change 15 with (Z.ones 4).
  change 64 with (2 ^ 6). change 32 with (2 ^ 5). change 16 with (2 ^ 4).
  repeat split; apply land_mask_range; lia.
Qed.

Lemma decoded_fields d t :
  date_to_timestamp d = Some t ->
  second t = Z.land d 63 /\ minute t = Z.land (Z.shiftr d 6) 63 /\
  hour t = Z.land (Z.shiftr d 12) 31 /\ day t = Z.land (Z.shiftr d 17) 31 /\
  month t = Z.land (Z.shiftr d 22) 15 /\ year t = Z.land (Z.shiftr d 26) 63 + 2000 /\
  valid_datetime (year t) (month t) (day t) (hour t) (minute t) (second t) = true.
Proof.
  cbv beta zeta delta [date_to_timestamp new_datetime].
  destruct (valid_datetime _ _ _ _ _ _) eqn:Hv; [|discriminate].
  intros E. apply (f_equal (fun o => match o with Some x => x | None => t end)) in E.
  subst t. cbv beta iota delta [year month day hour minute second].
  repeat (split; [reflexivity|]). exact Hv.
Qed.

(** A 32-bit word is the sum of its six sub-fields. *)
Lemma word_is_its_fields d :
  0 <= d < 2 ^ 32 ->
  d = Z.land d 63 + 64 * Z.land (Z.shiftr d 6) 63 + 4096 * Z.land (Z.shiftr d 12) 31
      + 131072 * Z.land (Z.shiftr d 17) 31 + 4194304 * Z.land (Z.shiftr d 22) 15
      + 67108864 * Z.land (Z.shiftr d 26) 63.
Proof.
  intros Hd.
  change 63 with (Z.ones 6). change 31 with (Z.ones 5). change 15 with (Z.ones 4).
  rewrite !Z.land_ones, !Z.shiftr_div_pow2 by lia.
  Z.div_mod_to_equations. lia.
Qed.

Lemma decode_then_pack d t :
  0 <= d < 2 ^ 32 -> date_to_timestamp d = Some t -> pack_date t = d.
Proof.
  intros Hd Ht.
  destruct (decoded_fields d t Ht) as (Hs & Hmi & Hh & Hda & Hmo & Hy & _).
  pose proof (date_fields_range d) as (Rs & Rmi & Rh & Rda & Rmo & Ry).
  rewrite pack_date_sum by lia.
  rewrite Hs, Hmi, Hh, Hda, Hmo, Hy.
  rewrite (word_is_its_fields d Hd) at 7. lia.
Qed.

(** X19.  What the decoder returns is a calendar-valid date-time of the
    years 2000-2063, and two different 32-bit packed dates never decode to
    the same date-time. *)
Theorem decoded_dates_identify_the_word :
  (forall d t, date_to_timestamp d = Some t ->
               2000 <= year t <= 2063 /\
               valid_datetime (year t) (month t) (day t) (hour t) (minute t) (second t)
               = true) /\
  (forall d1 d2 t,
     0 <= d1 < 2 ^ 32 -> 0 <= d2 < 2 ^ 32 ->
     date_to_timestamp d1 = Some t -> date_to_timestamp d2 = Some t -> d1 = d2).
Proof.
  split.
  - intros d t Ht. destruct (decoded_fields d t Ht) as (_ & _ & _ & _ & _ & Hy & Hv).
    pose proof (date_fields_range d) as (_ & _ & _ & _ & _ & Ry).
    split; [lia | exact Hv].
  - intros d1 d2 t H1 H2 Ht1 Ht2.
    rewrite <- (decode_then_pack d1 t H1 Ht1). exact (decode_then_pack d2 t H2 Ht2).
Qed.

Lemma decoded_dates_identify_the_word_witness :
  (2000 <= year (mk_dt 2024 8 2 15 42 0) <= 2063 /\
   valid_datetime (year (mk_dt 2024 8 2 15 42 0)) (month (mk_dt 2024 8 2 15 42 0))
     (day (mk_dt 2024 8 2 15 42 0)) (hour (mk_dt 2024 8 2 15 42 0))
     (minute (mk_dt 2024 8 2 15 42 0)) (second (mk_dt 2024 8 2 15 42 0)) = true) /\
  1644493440 = date_2024_08_02.
Proof.
  split.
  - apply (proj1 decoded_dates_identify_the_word 1644493440). vm_compute; reflexivity.
  - apply (proj2 decoded_dates_identify_the_word 1644493440 date_2024_08_02
             (mk_dt 2024 8 2 15 42 0)).
    + lia.
    + vm_compute. split; [discriminate | reflexivity].
    + vm_compute; reflexivity.
    + vm_compute; reflexivity.
Defined.

(** ** Segments are maximal runs *)

Section Maximal.
Variable args : Args.
Variable mm : mmap.
Variable startoffset : Z.

Local Abbreviation Good' := (Good args startoffset).
Local Abbreviation loop_body' := (loop_body args mm startoffset).
Local Abbreviation iter' := (iter args mm startoffset).
Local Abbreviation loop' := (loop args mm startoffset).

(** The buffer and the flushed segments after a pass that goes on. *)
Lemma continue_buffers st H d :
  Good' st -> mm_find mm DHAV (offset st) = Some H -> parse_at mm H = Ok d ->
  exists st',
    loop_body' st = Continue st' /\
    offset st' = H + frame_length d /\
    flushed st'
    = (if (offset st <? H) && nonempty (frames st)
       then flushed st ++ [frames st] else flushed st) /\
    frames st'
    = (if (offset st <? H) && nonempty (frames st) then [] else frames st)
      ++ match date_to_timestamp (date d) with Some _ => [d] | None => [] end.
Proof.
  intros HG Ef Hp.
  pose proof (good_offset_nonneg _ _ _ HG) as Hnn.
  pose proof (mm_find_bounds _ _ _ _ DHAV_nonempty Hnn Ef) as Hb.
  set (st0 := set_world st (add_info (world st) (H + startoffset, filesize mm startoffset))).
  assert (HG0 : Good' st0).
  { destruct HG as [HI HC]. split; [apply inv_add_info | apply cursor_add_info]; assumption. }
  destruct (close_run_good args startoffset st0 H HG0) as (st1 & Hc & HI1 & HC1); [cbn; lia|].
  assert (Hst1 : flushed st1
                 = (if (offset st <? H) && nonempty (frames st)
                    then flushed st ++ [frames st] else flushed st) /\
                 frames st1
                 = (if (offset st <? H) && nonempty (frames st) then [] else frames st)).
  { destruct (frames st) as [|first rest] eqn:E.
    - rewrite close_run_keep in Hc by (right; exact E). injection Hc as <-.
      rewrite andb_false_r. cbn. rewrite E. split; reflexivity.
    - destruct (Z.eq_dec H (offset st)) as [->|Hne].
      + rewrite close_run_keep in Hc by (left; cbn; lia). injection Hc as <-.
        rewrite Z.ltb_irrefl. cbn. rewrite E. split; reflexivity.
      + destruct HG0 as [HI0 _].
        destruct (close_run_flush args startoffset st0 H first rest HI0 ltac:(cbn; lia) E)
          as (tstamp & w & _ & _ & Hc').
        rewrite Hc' in Hc. injection Hc as <-.
        assert (Hlt : (offset st <? H) = true) by (apply Z.ltb_lt; lia).
        rewrite Hlt. cbn. rewrite E. split; reflexivity. }
  destruct Hst1 as [Hfl Hfr].
  unfold loop_body. rewrite Ef. fold st0. rewrite Hc, Hp.
  destruct (date_to_timestamp (date d)) as [tstamp|] eqn:Ed.
  - destruct (take_frame_append args mm startoffset st1 H d tstamp HI1 HC1 Hp Ed)
      as (w & _ & Ht & _).
    rewrite Ht. eexists. split; [reflexivity|]. cbn. rewrite Hfl, Hfr.
    split; [reflexivity|]. split; reflexivity.
  - destruct (take_frame_drop args mm startoffset st1 H d HI1 HC1 Hp Ed) as (Ht & _).
    rewrite Ht. eexists. split; [reflexivity|]. cbn. rewrite Hfl, Hfr, app_nil_r.
    split; [reflexivity|]. split; reflexivity.
Qed.

(** The flushed segments after the last pass. *)
Lemma break_buffers st st' :
  Good' st -> loop_body' st = Break st' ->
  flushed st' = match frames st with
                | [] => flushed st
                | _ :: _ => flushed st ++ [frames st]
                end.
Proof.
  intros [HI HC] Hs. unfold loop_body in Hs.
  destruct (mm_find mm DHAV (offset st)) as [H|].
  - destruct (close_run _ _ _); [|discriminate].
    destruct (parse_at mm H); [|discriminate].
    destruct (take_frame _ _ _ _ _); discriminate.
  - destruct (frames st) as [|first rest] eqn:E.
    + injection Hs as <-. reflexivity.
    + destruct (timestamp_var st) as [tstamp|]; [|discriminate].
      destruct (export args (first :: rest) tstamp (world st)); [|discriminate].
      injection Hs as <-. cbn. rewrite E. reflexivity.
Qed.

Lemma runs_initial : Runs (initial args).
Proof. constructor; cbn; [apply consecutive_nil | apply ends_with_nil]. Qed.

Lemma gap_before_weaken b c seg : b <= c -> gap_before b seg -> gap_before c seg.
Proof.
  intros Hbc. unfold gap_before. apply ends_with_impl. intros z Hz. lia.
Qed.

Lemma runs_step st st' :
  Good' st -> Runs st -> loop_body' st = Continue st' -> Runs st'.
Proof.
  intros HG HR Hs.
  destruct (loop_body_continue _ _ _ _ _ Hs) as (H & d & Ef & Ep & _).
  destruct (continue_buffers st H d HG Ef Ep) as (st'' & Hs' & Ho & Hfl & Hfr).
  rewrite Hs in Hs'. injection Hs' as <-.
  pose proof (good_offset_nonneg _ _ _ HG) as Hnn.
  pose proof (mm_find_bounds _ _ _ _ DHAV_nonempty Hnn Ef) as Hb.
  destruct (parse_at_fields _ _ _ Ep) as [Hoff Hlen].
  destruct HG as [HI HC]. destruct HC as [_ Caft _].
  destruct HR as [Rfl Rbuf].
  destruct ((offset st <? H) && nonempty (frames st)) eqn:Hgap.
  - (* the buffered run is closed *)
    apply andb_true_iff in Hgap. destruct Hgap as [Hlt Hne]. apply Z.ltb_lt in Hlt.
    destruct (frames st) as [|first rest] eqn:E; [discriminate|].
    constructor; rewrite Hfl.
    + apply consecutive_snoc; [exact Rfl|]. exact Rbuf.
    + apply ends_with_snoc. rewrite Hfr. cbn [app].
      assert (Hbefore : gap_before H (first :: rest)).
      { unfold gap_before. eapply ends_with_impl; [|exact Caft].
        intros z Hz. cbv beta in Hz. lia. }
      destruct (date_to_timestamp (date d)).
      * rewrite Hoff. exact Hbefore.
      * rewrite Ho. apply (gap_before_weaken H); [lia | exact Hbefore].
  - (* the buffer goes on *)
    constructor; rewrite Hfl; [exact Rfl|]. rewrite Hfr.
    destruct (frames st) as [|first rest] eqn:E.
    + cbn [app].
      destruct (date_to_timestamp (date d)).
      * eapply ends_with_impl; [|exact Rbuf]. intros s Hsg. cbv beta in Hsg.
        rewrite Hoff. apply (gap_before_weaken (offset st)); [lia | exact Hsg].
      * eapply ends_with_impl; [|exact Rbuf]. intros s Hsg. cbv beta in Hsg.
        rewrite Ho. apply (gap_before_weaken (offset st)); [lia | exact Hsg].
    + cbn [app]. exact Rbuf.
Qed.

Lemma runs_iter k : forall st st',
  Good' st -> Runs st -> iter' k st = Some st' -> Runs st'.
Proof.
  induction k as [|k IH]; intros st st' HG HR; cbn.
  - intros [= <-]. exact HR.
  - pose proof (loop_body_good args mm startoffset st HG) as Hstep.
    destruct (loop_body' st) as [s| |] eqn:E; try discriminate.
    apply IH; [exact Hstep | exact (runs_step st s HG HR E)].
Qed.

(** The segments of a completed scan lie apart. *)
Lemma done_apart fuel st :
  loop' fuel (initial args) = Done st -> consecutive apart (flushed st).
Proof.
  intros Hl. destruct (loop_done args mm startoffset fuel _ _ Hl) as (k & s & Hk & Hb).
  pose proof (reachable_good _ _ _ _ _ Hk) as HG.
  pose proof (runs_iter k _ _ (initial_good _ _) runs_initial Hk) as [Rfl Rbuf].
  rewrite (break_buffers s st HG Hb).
  destruct (frames s) as [|first rest]; [exact Rfl|].
  apply consecutive_snoc; [exact Rfl | exact Rbuf].
Qed.
End Maximal.

(** X20.  The segments of a completed scan are maximal runs: between the
    declared end of the last frame of a segment and the header of the first
    frame of the next segment there is at least one byte, so two segments
    that follow each other are never adjacent. *)
Theorem segments_are_separated_by_gaps args mm startoffset fuel st pre s1 s2 post :
  loop args mm startoffset fuel (initial args) = Done st ->
  flushed st = pre ++ s1 :: s2 :: post ->
  forall body z first rest,
    s1 = body ++ [z] -> s2 = first :: rest ->
    absolute_offset startoffset z + frame_length z < absolute_offset startoffset first.
Proof.
  intros Hl Hfl body z first rest E1 E2.
  pose proof (done_apart args mm startoffset fuel st Hl pre s1 s2 post Hfl) as Hap.
  unfold apart in Hap. rewrite E2 in Hap.
  pose proof (Hap body z E1) as Hz. cbv beta in Hz.
  unfold span_end in Hz. unfold absolute_offset. lia.
Qed.

Lemma segments_are_separated_by_gaps_witness :
  absolute_offset 0 (frame_at (map_of file_contiguity) 200)
  + frame_length (frame_at (map_of file_contiguity) 200)
  < absolute_offset 0 (frame_at (map_of file_contiguity) 500).
Proof.
  apply (segments_are_separated_by_gaps plain_args (map_of file_contiguity) 0 5
           (final_of (loop plain_args (map_of file_contiguity) 0 5 (initial plain_args)))
           []
           [frame_at (map_of file_contiguity) 0; frame_at (map_of file_contiguity) 100;
            frame_at (map_of file_contiguity) 200]
           [frame_at (map_of file_contiguity) 500]
           []
           ltac:(vm_compute; reflexivity) ltac:(vm_compute; reflexivity)
           [frame_at (map_of file_contiguity) 0; frame_at (map_of file_contiguity) 100]
           (frame_at (map_of file_contiguity) 200)
           (frame_at (map_of file_contiguity) 500)
           []
           eq_refl eq_refl).
Defined.

(** ** The dates in the file names *)

Lemma string_length_append (s1 s2 : string) :
  String.length (s1 ++ s2) = (String.length s1 + String.length s2)%nat.
Proof. induction s1 as [|c s1 IH]; cbn; [reflexivity | rewrite IH; reflexivity]. Qed.

Lemma all_digits_append (s1 s2 : string) :
  all_digits (s1 ++ s2) = all_digits s1 && all_digits s2.
Proof.
  unfold all_digits. induction s1 as [|c s1 IH]; cbn; [reflexivity|].
  rewrite IH, andb_assoc. reflexivity.
Qed.

(** A property of the numbers below a bound, checked one by one. *)
Lemma below_bound (P : Z -> bool) (n : nat) :
  forallb (fun k => P (Z.of_nat k)) (seq 0 n) = true ->
  forall x, 0 <= x < Z.of_nat n -> P x = true.
Proof.
  intros Hall x Hx. rewrite forallb_forall in Hall.
  rewrite <- (Z2Nat.id x) by lia. apply Hall. apply in_seq. lia.
Qed.

(** A number below 64 is printed, zero-filled, as two digits. *)
Lemma two_digits x :
  0 <= x < 64 ->
  String.length (zfill2 (str_of_int x)) = 2%nat /\ all_digits (zfill2 (str_of_int x)) = true.
Proof.
  intros Hx.
  pose proof (below_bound
                (fun x => (String.length (zfill2 (str_of_int x)) =? 2)%nat
                          && all_digits (zfill2 (str_of_int x))) 64
                ltac:(vm_compute; reflexivity) x Hx) as H.
  cbv beta in H. apply andb_true_iff in H. destruct H as [Hl Hd].
  apply Nat.eqb_eq in Hl. split; assumption.
Qed.

(** A year from 2000 to 2063 is printed as four digits. *)
Lemma four_digits x :
  0 <= x < 64 ->
  String.length (str_of_int (x + 2000)) = 4%nat /\ all_digits (str_of_int (x + 2000)) = true.
Proof.
  intros Hx.
  pose proof (below_bound
                (fun x => (String.length (str_of_int (x + 2000)) =? 4)%nat
                          && all_digits (str_of_int (x + 2000))) 64
                ltac:(vm_compute; reflexivity) x Hx) as H.
  cbv beta in H. apply andb_true_iff in H. destruct H as [Hl Hd].
  apply Nat.eqb_eq in Hl. split; assumption.
Qed.

Lemma date_fields_below d :
  0 <= Z.land d 63 < 64 /\ 0 <= Z.land (Z.shiftr d 6) 63 < 64 /\
  0 <= Z.land (Z.shiftr d 12) 31 < 64 /\ 0 <= Z.land (Z.shiftr d 17) 31 < 64 /\
  0 <= Z.land (Z.shiftr d 22) 15 < 64 /\ 0 <= Z.land (Z.shiftr d 26) 63 < 64.
Proof.
  pose proof (date_fields_range d) as (H1 & H2 & H3 & H4 & H5 & H6).
  repeat split; lia.
Qed.

(** X21.  The date in a container file's name.  [date_to_str] prints every
    packed date, also one that does not decode, as exactly 14 decimal
    digits (a four-digit year from 2000 to 2063 and five zero-filled
    two-digit fields); and for a date that decodes, these are the year,
    month, day, hour, minute and second of the date-time the decoder
    returns, so the file names and the CSV rows carry the same dates. *)
Theorem file_name_dates_are_fourteen_digits :
  (forall d, String.length (date_to_str d) = 14%nat /\ all_digits (date_to_str d) = true) /\
  (forall d t, date_to_timestamp d = Some t -> date_to_str d = datetime_digits t).
Proof.
  split.
  - intros d.
    pose proof (date_fields_below d) as (Hs & Hmi & Hh & Hd & Hmo & Hy).
    destruct (two_digits _ Hs) as [Ls Ds]. destruct (two_digits _ Hmi) as [Lmi Dmi].
    destruct (two_digits _ Hh) as [Lh Dh]. destruct (two_digits _ Hd) as [Ld Dd].
    destruct (two_digits _ Hmo) as [Lmo Dmo]. destruct (four_digits _ Hy) as [Ly Dy].
    unfold date_to_str. cbv zeta.
    rewrite !string_length_append, !all_digits_append.
    rewrite Ls, Lmi, Lh, Ld, Lmo, Ly, Ds, Dmi, Dh, Dd, Dmo, Dy.
    split; reflexivity.
  - intros d t Ht. unfold date_to_timestamp, new_datetime in Ht. cbv zeta in Ht.
    destruct (valid_datetime _ _ _ _ _ _); [|discriminate].
    apply (f_equal (fun o => match o with Some t => datetime_digits t | None => EmptyString end)) in Ht.
    rewrite <- Ht. reflexivity.
Qed.

Lemma file_name_dates_are_fourteen_digits_witness :
  date_to_str date_2024_08_02 = "20240802154200"%string /\
  date_to_str 0 = "20000000000000"%string /\
  date_to_timestamp date_2024_08_02 = Some (mk_dt 2024 8 2 15 42 0) /\
  date_to_str date_2024_08_02 = datetime_digits (mk_dt 2024 8 2 15 42 0).
Proof.
  split; [vm_compute; reflexivity|]. split; [vm_compute; reflexivity|].
  split; [vm_compute; reflexivity|].
  apply (proj2 file_name_dates_are_fourteen_digits date_2024_08_02). vm_compute; reflexivity.
Defined.

(** ** The container files of a scan *)

Section Files.
Variable args : Args.
Variable mm : mmap.
Variable startoffset : Z.

Local Abbreviation Good' := (Good args startoffset).
Local Abbreviation loop_body' := (loop_body args mm startoffset).
Local Abbreviation iter' := (iter args mm startoffset).
Local Abbreviation loop' := (loop args mm startoffset).

(** While the scan goes on, the files written are those of the segments
    closed by a gap. *)
Lemma files_step st st' :
  Good' st -> loop_body' st = Continue st' ->
  written (world st) = flat_map (gap_files args) (flushed st) ->
  written (world st') = flat_map (gap_files args) (flushed st').
Proof.
  intros HG Hs Hw.
  destruct (loop_body_continue _ _ _ _ _ Hs) as (H & d & Ef & Ep & _).
  destruct (continue_buffers args mm startoffset st H d HG Ef Ep)
    as (s1 & Hs1 & _ & Hfl & _).
  destruct (continue_spec args mm startoffset st H d HG Ef Ep)
    as (s2 & Hs2 & _ & _ & Hwr & _).
  rewrite Hs in Hs1, Hs2. injection Hs1 as <-. injection Hs2 as <-.
  rewrite Hwr, Hfl, Hw. unfold gap_export.
  destruct ((offset st <? H) && nonempty (frames st)).
  - rewrite flat_map_app. cbn [flat_map]. rewrite app_nil_r.
    unfold gap_files. reflexivity.
  - rewrite app_nil_r. reflexivity.
Qed.

Lemma files_iter k : forall st st',
  Good' st -> written (world st) = flat_map (gap_files args) (flushed st) ->
  iter' k st = Some st' ->
  written (world st') = flat_map (gap_files args) (flushed st').
Proof.
  induction k as [|k IH]; intros st st' HG Hw; cbn.
  - intros [= <-]. exact Hw.
  - pose proof (loop_body_good args mm startoffset st HG) as Hstep.
    destruct (loop_body' st) as [s| |] eqn:E; try discriminate.
    apply IH; [exact Hstep | exact (files_step st s HG E Hw)].
Qed.

(** The files of a completed scan. *)
Lemma files_done fuel st :
  loop' fuel (initial args) = Done st ->
  exists gaps,
    flushed st = gaps ++ match frames st with [] => [] | _ :: _ => [frames st] end /\
    written (world st) = flat_map (gap_files args) gaps ++ end_files args (frames st).
Proof.
  intros Hl.
  destruct (loop_done args mm startoffset fuel _ _ Hl) as (k & s & Hk & Hb).
  pose proof (reachable_good _ _ _ _ _ Hk) as HG.
  pose proof (loop_body_break _ _ _ _ _ Hb) as Ef.
  destruct (break_spec args mm startoffset s HG Ef)
    as (x & Hx & _ & _ & Hfr & _ & _ & _ & _ & _ & Hwr).
  rewrite Hb in Hx. injection Hx as <-.
  pose proof (break_buffers args mm startoffset s st HG Hb) as Hfl.
  pose proof (files_iter k _ _ (initial_good args startoffset) eq_refl Hk) as Hw.
  exists (flushed s). rewrite Hfr, Hwr, Hw. split.
  - rewrite Hfl. destruct (frames s); [rewrite app_nil_r|]; reflexivity.
  - f_equal. unfold last_export, end_files.
    destruct (frames s) as [|first rest] eqn:E; [reflexivity|].
    destruct HG as [HI _].
    destruct (last_timestamp args startoffset s first rest HI E) as (tstamp & Hts & Hlast).
    rewrite E in Hlast. rewrite Hts, Hlast. reflexivity.
Qed.
End Files.

(** *** The files left in the output folder *)

Lemma file_at_put fs p c q :
  file_at (put_file fs p c) q = if String.eqb p q then Some c else file_at fs q.
Proof.
  unfold file_at, put_file. induction fs as [|[p' c'] fs IH]; cbn [filter app find fst snd].
  - destruct (String.eqb p q); reflexivity.
  - destruct (String.eqb_spec p' p) as [->|Hne]; cbn [negb].
    + rewrite IH. destruct (String.eqb p q); reflexivity.
    + cbn [app find fst snd]. destruct (String.eqb_spec p' q) as [->|Hq].
      * destruct (String.eqb_spec p q) as [->|_]; [contradiction | reflexivity].
      * exact IH.
Qed.

Lemma last_write_snoc calls p c q :
  last_write (calls ++ [(p, c)]) q
  = if String.eqb p q then Some c else last_write calls q.
Proof.
  unfold last_write, file_at. rewrite rev_app_distr. cbn [rev app find fst snd].
  destruct (String.eqb p q); reflexivity.
Qed.

Lemma stored_add_file w p c : Stored w -> Stored (add_file w p c).
Proof.
  intros Hw q. cbn [add_file files written].
  rewrite file_at_put, last_write_snoc, (Hw q). reflexivity.
Qed.

Lemma stored_same w w' :
  files w' = files w -> written w' = written w -> Stored w -> Stored w'.
Proof. intros Hf Hwr Hw q. rewrite Hf, Hwr. exact (Hw q). Qed.

Lemma stored_export args fs tstamp w w' :
  Stored w -> export args fs tstamp w = Ok w' -> Stored w'.
Proof.
  intros Hw. unfold export, write_dav.
  destruct (timestamp_ok tstamp (starttime args) (stoptime args));
    [|intros [= <-]; exact Hw].
  destruct (negb (dryrun args)); [|intros [= <-]; exact Hw].
  destruct fs as [|first rest]; [discriminate|].
  intros [= <-]. apply stored_add_file. exact Hw.
Qed.

Lemma stored_close_run args H st st' :
  Stored (world st) -> close_run args H st = Ok st' -> Stored (world st').
Proof.
  intros Hw. unfold close_run.
  destruct ((offset st <? H) && nonempty (frames st)); [|intros [= <-]; exact Hw].
  destruct (frames st) as [|first rest] eqn:Efr; [discriminate|].
  destruct (date_to_timestamp (date first)) as [tstamp|]; [|discriminate].
  cbv zeta. cbn [world frames set_timestamp]. rewrite Efr.
  destruct (export args (first :: rest) tstamp (world st)) as [w|e] eqn:E; [|discriminate].
  intros [= <-]. cbn [world set_frames set_world]. exact (stored_export _ _ _ _ _ Hw E).
Qed.

Lemma stored_write_csv args startoffset tstamp H d w w' :
  Stored w -> write_csv args startoffset tstamp H d w = Ok w' -> Stored w'.
Proof.
  intros Hw. unfold write_csv.
  destruct (csv args); [|intros [= <-]; exact Hw].
  assert (Hsel : forall r w1, write_selection w r = Ok w1 -> Stored w1).
  { intros r w1. unfold write_selection.
    destruct (write_row (selectionoutputfile w) r); [|discriminate].
    intros [= <-]. apply (stored_same w); [reflexivity | reflexivity | exact Hw]. }
  assert (Hall : forall r w0 w1, Stored w0 -> write_all w0 r = Ok w1 -> Stored w1).
  { intros r w0 w1 Hw0. unfold write_all.
    destruct (write_row (alloutputfile w0) r); [|discriminate].
    intros [= <-]. apply (stored_same w0); [reflexivity | reflexivity | exact Hw0]. }
  destruct (truthy (starttime args) || truthy (stoptime args)).
  - destruct (timestamp_ok tstamp (starttime args) (stoptime args)).
    + destruct (write_selection w _) as [w1|e] eqn:E; [|discriminate].
      apply Hall. exact (Hsel _ _ E).
    + apply Hall. exact Hw.
  - apply Hall. exact Hw.
Qed.

Lemma stored_take_frame args startoffset H d st st' :
  Stored (world st) -> take_frame args startoffset H d st = Ok st' -> Stored (world st').
Proof.
  intros Hw. unfold take_frame.
  destruct (date_to_timestamp (date d)) as [tstamp|].
  - cbv zeta. cbn [world frames set_timestamp].
    destruct (write_csv args startoffset tstamp H d (world st)) as [w|e] eqn:E; [|discriminate].
    intros [= <-]. cbn [world set_frames set_world].
    exact (stored_write_csv _ _ _ _ _ _ _ Hw E).
  - intros [= <-]. cbn [world set_world].
    apply (stored_same (world st)); [reflexivity | reflexivity | exact Hw].
Qed.

Lemma stored_body args mm startoffset st :
  Stored (world st) ->
  match loop_body args mm startoffset st with
  | Continue s | Break s => Stored (world s)
  | Raised _ _ => True
  end.
Proof.
  intros Hw. unfold loop_body.
  destruct (mm_find mm DHAV (offset st)) as [H|].
  - set (st0 := set_world st _).
    assert (Hw0 : Stored (world st0))
      by (apply (stored_same (world st)); [reflexivity | reflexivity | exact Hw]).
    destruct (close_run args H st0) as [st1|e] eqn:Ec; [|exact I].
    pose proof (stored_close_run _ _ _ _ Hw0 Ec) as Hw1.
    destruct (parse_at mm H) as [d|e]; [|exact I].
    destruct (take_frame args startoffset H d st1) as [st2|e] eqn:Et; [|exact I].
    exact (stored_take_frame _ _ _ _ _ _ Hw1 Et).
  - destruct (frames st) as [|first rest]; [exact Hw|].
    destruct (timestamp_var st) as [tstamp|]; [|exact I].
    destruct (export args (first :: rest) tstamp (world st)) as [w|e] eqn:E; [|exact I].
    cbn [world set_world]. exact (stored_export _ _ _ _ _ Hw E).
Qed.

Lemma stored_loop args mm startoffset fuel : forall st st',
  Stored (world st) -> loop args mm startoffset fuel st = Done st' -> Stored (world st').
Proof.
  induction fuel as [|fuel IH]; intros st st' Hw; cbn; [discriminate|].
  pose proof (stored_body args mm startoffset st Hw) as Hs.
  destruct (loop_body args mm startoffset st) as [s|s|e s].
  - apply IH. exact Hs.
  - intros [= <-]. exact Hs.
  - discriminate.
Qed.

Lemma stored_initial args : Stored (world (initial args)).
Proof. intros q. reflexivity. Qed.

(** X22.  The container files of a completed scan.  The segments that
    reached the export decision are those closed by a gap, followed by the
    frames still buffered when the search ended, if any.  The calls of
    [write_dav] that wrote are, in order: one for each segment closed by a
    gap if the date of its FIRST frame passes the time filter, then one for
    the frames buffered at the end if the date of their LAST frame passes
    it (none in a dry run).  Each writes, in the folder [video] under the
    output folder, the file named after the channel of the segment's first
    frame and the dates of its first and last frame, with the raw bytes of
    the segment's frames one after the other ([exported]).  The file is
    opened with ['wb']: what the output folder, empty at the start, holds
    at a path in the end is what the LAST of these calls to that path
    wrote, so of the segments that share a name only the last one is
    left. *)
Theorem written_files_account args mm startoffset fuel st :
  loop args mm startoffset fuel (initial args) = Done st ->
  exists gaps,
    flushed st = gaps ++ match frames st with [] => [] | _ :: _ => [frames st] end /\
    written (world st) = flat_map (gap_files args) gaps ++ end_files args (frames st) /\
    forall path,
      file_at (files (world st)) path
      = last_write (flat_map (gap_files args) gaps ++ end_files args (frames st)) path.
Proof.
  intros Hl. destruct (files_done args mm startoffset fuel st Hl) as (gaps & Hfl & Hw).
  exists gaps. split; [exact Hfl|]. split; [exact Hw|].
  intros path. rewrite <- Hw.
  exact (stored_loop args mm startoffset fuel _ _ (stored_initial args) Hl path).
Qed.

Lemma written_files_account_witness :
  (exists gaps,
     flushed (final_of (loop plain_args (map_of file_contiguity) 0 6 (initial plain_args)))
     = gaps ++ match frames (final_of (loop plain_args (map_of file_contiguity) 0 6
                                         (initial plain_args))) with
               | [] => []
               | _ :: _ => [frames (final_of (loop plain_args (map_of file_contiguity) 0 6
                                              (initial plain_args)))]
               end /\
     written (world (final_of (loop plain_args (map_of file_contiguity) 0 6
                                 (initial plain_args))))
     = flat_map (gap_files plain_args) gaps
       ++ end_files plain_args
            (frames (final_of (loop plain_args (map_of file_contiguity) 0 6
                                 (initial plain_args)))) /\
     forall path,
       file_at (files (world (final_of (loop plain_args (map_of file_contiguity) 0 6
                                          (initial plain_args))))) path
       = last_write
           (flat_map (gap_files plain_args) gaps
            ++ end_files plain_args
                 (frames (final_of (loop plain_args (map_of file_contiguity) 0 6
                                      (initial plain_args))))) path) /\
  List.length (written (world (final_of (loop plain_args (map_of file_contiguity) 0 6
                                           (initial plain_args))))) = 2%nat /\
  List.length (files (world (final_of (loop plain_args (map_of file_contiguity) 0 6
                                         (initial plain_args))))) = 1%nat.
Proof.
  split.
  - apply (written_files_account plain_args (map_of file_contiguity) 0 6
             (final_of (loop plain_args (map_of file_contiguity) 0 6 (initial plain_args)))).
    vm_compute; reflexivity.
  - split; vm_compute; reflexivity.
Defined.

(** ** Neighbours within a segment *)

Lemma joined_more log log' a b :
  incl log log' -> joined log a b -> joined log' a b.
Proof.
  intros Hi [Ht|(line & Hin & Hd & He & Hlt)]; [left; exact Ht|].
  right. exists line. split; [apply Hi; exact Hin|]. split; [exact Hd|].
  split; [exact He | exact Hlt].
Qed.

Lemma joined_to_more log log' c c' z :
  incl log log' -> c <= c' ->
  (exists line, In line log /\ date_to_timestamp (fst line) = None /\
                snd line = span_end z /\ snd line <= c) ->
  joined_to log' c' z.
Proof.
  intros Hi Hc (line & Hin & Hd & He & Hle). right. exists line.
  split; [apply Hi; exact Hin|]. split; [exact Hd|]. split; [exact He | lia].
Qed.

Section Tiling.
Variable args : Args.
Variable mm : mmap.
Variable startoffset : Z.

Local Abbreviation Good' := (Good args startoffset).
Local Abbreviation Trace' := (Trace args mm startoffset).
Local Abbreviation loop_body' := (loop_body args mm startoffset).
Local Abbreviation iter' := (iter args mm startoffset).
Local Abbreviation loop' := (loop args mm startoffset).

Lemma tiled_initial : Tiled (initial args).
Proof.
  constructor; cbn; [constructor | apply consecutive_nil | apply ends_with_nil].
Qed.

(** A frame whose date decodes is not parsed where a debug line says a
    frame was dropped. *)
Lemma dropped_elsewhere st H d line :
  Trace' st -> parse_at mm H = Ok d -> date_to_timestamp (date d) <> None ->
  In line (debug_log (world st)) -> snd line <> H.
Proof.
  intros HT Hp Hd Hin Heq.
  pose proof (tr_debug _ _ _ _ HT) as Hdbg. rewrite Forall_forall in Hdbg.
  destruct (Hdbg line Hin) as (d' & (o & _ & _ & Hp') & Hnone & ->).
  cbn [snd] in Heq. rewrite Heq, Hp in Hp'. injection Hp' as ->.
  apply Hd. exact Hnone.
Qed.

Lemma tiled_step st st' :
  Good' st -> Trace' st -> Tiled st -> loop_body' st = Continue st' -> Tiled st'.
Proof.
  intros HG HT [Tfl Tfr Tcur] Hs.
  destruct (loop_body_continue _ _ _ _ _ Hs) as (H & d & Ef & Ep & _).
  destruct (continue_buffers args mm startoffset st H d HG Ef Ep)
    as (s1 & Hs1 & Ho & Hfl & Hfr).
  destruct (continue_spec args mm startoffset st H d HG Ef Ep)
    as (s2 & Hs2 & _ & _ & _ & _ & Hrest).
  rewrite Hs in Hs1, Hs2. injection Hs1 as <-. injection Hs2 as <-.
  pose proof (good_offset_nonneg _ _ _ HG) as Hnn.
  pose proof (mm_find_bounds _ _ _ _ DHAV_nonempty Hnn Ef) as Hb.
  destruct (parse_at_fields _ _ _ Ep) as [Hoff Hlen].
  assert (Hlog : incl (debug_log (world st)) (debug_log (world st'))).
  { destruct (date_to_timestamp (date d)).
    - destruct Hrest as (_ & -> & _). apply incl_refl.
    - destruct Hrest as (_ & -> & _). apply incl_appl, incl_refl. }
  assert (Tfl' : Forall (consecutive (joined (debug_log (world st')))) (flushed st)).
  { eapply Forall_impl; [|exact Tfl]. intros seg Hseg.
    eapply consecutive_impl; [|exact Hseg]. intros a b. apply joined_more. exact Hlog. }
  assert (Tfr' : consecutive (joined (debug_log (world st'))) (frames st)).
  { eapply consecutive_impl; [|exact Tfr]. intros a b. apply joined_more. exact Hlog. }
  destruct ((offset st <? H) && nonempty (frames st)) eqn:Hgap.
  - (* the buffered run is closed *)
    constructor; rewrite ?Hfl, ?Hfr; cbn [app].
    + apply Forall_app. split; [exact Tfl'|]. constructor; [exact Tfr' | constructor].
    + destruct (date_to_timestamp (date d)); [apply consecutive_one | apply consecutive_nil].
    + destruct (date_to_timestamp (date d)); [|apply ends_with_nil].
      apply (ends_with_snoc _ []). left. rewrite Ho. unfold span_end. rewrite Hoff. reflexivity.
  - (* the buffer goes on *)
    assert (Hsame : frames st <> [] -> H = offset st).
    { intros Hne. apply andb_false_iff in Hgap. destruct Hgap as [Hge|Hemp].
      - apply Z.ltb_ge in Hge. lia.
      - revert Hne Hemp. generalize (frames st). intros [|f r] Hne Hemp.
        + exfalso. apply Hne. reflexivity.
        + discriminate Hemp. }
    assert (Hne : forall pre z, frames st = pre ++ [z] -> frames st <> []).
    { intros pre z E. rewrite E. destruct pre; discriminate. }
    destruct (date_to_timestamp (date d)) as [t|] eqn:Ed.
    + constructor; rewrite ?Hfl, ?Hfr.
      * exact Tfl'.
      * apply consecutive_snoc; [exact Tfr'|].
        intros pre z E. pose proof (Hsame (Hne pre z E)) as HH.
        destruct (Tcur pre z E) as [Hc|(line & Hin & Hd & He & Hle)].
        -- left. rewrite Hoff, HH. exact Hc.
        -- right. exists line. split; [apply Hlog; exact Hin|]. split; [exact Hd|].
           split; [exact He|]. rewrite Hoff.
           assert (Hneq : snd line <> H).
           { apply (dropped_elsewhere st H d line HT Ep); [|exact Hin].
             rewrite Ed. discriminate. }
           lia.
      * apply ends_with_snoc. left. rewrite Ho. unfold span_end. rewrite Hoff. reflexivity.
    + destruct Hrest as (_ & Hdbg & _).
      constructor; rewrite ?Hfl, ?Hfr, ?app_nil_r.
      * exact Tfl'.
      * exact Tfr'.
      * intros pre z E. pose proof (Hsame (Hne pre z E)) as HH.
        destruct (Tcur pre z E) as [Hc|Hline].
        -- right. exists (date d, H). rewrite Hdbg. split; [apply in_or_app; right; left; reflexivity|].
           cbn [fst snd]. split; [exact Ed|]. split; [lia|]. lia.
        -- apply (joined_to_more (debug_log (world st)) _ (offset st)); [exact Hlog | lia | exact Hline].
Qed.

Lemma tiled_iter k : forall st st',
  Good' st -> Trace' st -> Tiled st -> iter' k st = Some st' -> Tiled st'.
Proof.
  induction k as [|k IH]; intros st st' HG HT HTi; cbn.
  - intros [= <-]. exact HTi.
  - pose proof (loop_body_good args mm startoffset st HG) as Hstep.
    destruct (loop_body' st) as [s| |] eqn:E; try discriminate.
    apply IH; [exact Hstep | exact (trace_step args mm startoffset st s HG HT E)
               | exact (tiled_step st s HG HT HTi E)].
Qed.

Lemma reachable_tiled k st : iter' k (initial args) = Some st -> Tiled st.
Proof.
  apply tiled_iter; [apply initial_good | apply trace_initial | apply tiled_initial].
Qed.

(** A run that fails fails in a pass that raises. *)
Lemma loop_raised fuel : forall st0 e st',
  loop' fuel st0 = Failed e st' ->
  exists k st, iter' k st0 = Some st /\ loop_body' st = Raised e st'.
Proof.
  induction fuel as [|fuel IH]; intros st0 e st'; cbn; [discriminate|].
  destruct (loop_body' st0) as [s|s|e' s] eqn:E; try discriminate.
  - intros Hl. destruct (IH s e st' Hl) as (k & st & Hk & Hb).
    exists (S k), st. cbn. rewrite E. split; [exact Hk | exact Hb].
  - intros [= <- <-]. exists 0%nat, st0. split; [reflexivity | exact E].
Qed.

(** A pass that raises has no segment behind it: the parser fails on a
    map of fewer than 22 bytes only, from which no frame is ever read. *)
Lemma raised_no_segment st e st' :
  Good' st -> Trace' st -> loop_body' st = Raised e st' -> flushed st' = [].
Proof.
  intros HG HT Hs.
  pose proof (loop_body_good args mm startoffset st HG) as HI'. rewrite Hs in HI'.
  destruct (raised_spec args mm startoffset st e st' HG Hs) as (H & Ef & Ep).
  pose proof (good_offset_nonneg _ _ _ HG) as Hnn.
  pose proof (mm_find_bounds _ _ _ _ DHAV_nonempty Hnn Ef) as Hb.
  assert (Hsmall : mm_len mm < 22).
  { destruct (Z.lt_ge_cases (mm_len mm) 22) as [|Hbig]; [assumption|].
    destruct (proj2 (parse_at_outcome mm H ltac:(lia)) Hbig) as (d & Hd).
    rewrite Ep in Hd. discriminate. }
  assert (Hh : history st = []).
  { pose proof (tr_found _ _ _ _ HT) as Hf.
    destruct (history st) as [|d l]; [reflexivity|].
    inversion Hf as [|? ? (o & Ho & Efd & Epd) _].
    pose proof (mm_find_bounds _ _ _ _ DHAV_nonempty Ho Efd) as Hbd.
    rewrite (proj1 (parse_at_outcome mm (header_offset d) ltac:(lia)) Hsmall) in Epd.
    discriminate. }
  (* the state of the failing pass *)
  set (st0 := set_world st (add_info (world st) (H + startoffset, filesize mm startoffset))).
  assert (HG0 : Good' st0).
  { destruct HG as [HI HC]. split; [apply inv_add_info | apply cursor_add_info]; assumption. }
  destruct (close_phase args startoffset st0 H HG0) as (st1 & Hc & HI1 & _ & Hh1 & _);
    [cbn; lia|].
  unfold loop_body in Hs. rewrite Ef in Hs. fold st0 in Hs. rewrite Hc, Ep in Hs.
  injection Hs as <-.
  change (history st0) with (history st) in Hh1. rewrite Hh in Hh1.
  unfold history in Hh1. apply app_eq_nil in Hh1. destruct Hh1 as [Hcat _].
  pose proof (inv_flushed _ _ _ HI1) as Hfl.
  destruct (flushed st1) as [|seg l]; [reflexivity|].
  inversion Hfl as [|? ? (Hne & _) _]. cbn in Hcat.
  apply app_eq_nil in Hcat. destruct Hcat as [Hseg _]. contradiction.
Qed.

(** In every state of a scan, ended or not, the frames of a flushed
    segment are joined. *)
Lemma segments_joined st :
  (exists k, iter' k (initial args) = Some st) \/
  (exists fuel, final_state (loop' fuel (initial args)) = Some st) ->
  Forall (consecutive (joined (debug_log (world st)))) (flushed st).
Proof.
  intros [(k & Hk)|(fuel & Hf)].
  - exact (tiled_flushed _ (reachable_tiled k st Hk)).
  - destruct (loop' fuel (initial args)) as [s|e s|] eqn:El; cbn in Hf; try discriminate.
    + injection Hf as ->.
      destruct (loop_done args mm startoffset fuel _ _ El) as (k & s & Hk & Hb).
      pose proof (reachable_good _ _ _ _ _ Hk) as HG.
      destruct (reachable_tiled k s Hk) as [Tfl Tfr _].
      pose proof (loop_body_break _ _ _ _ _ Hb) as Ef.
      destruct (break_spec args mm startoffset s HG Ef)
        as (x & Hx & _ & _ & _ & _ & _ & _ & _ & Hdbg & _).
      rewrite Hb in Hx. injection Hx as <-.
      rewrite (break_buffers args mm startoffset s st HG Hb), Hdbg.
      destruct (frames s) as [|first rest]; [exact Tfl|].
      apply Forall_app. split; [exact Tfl|]. constructor; [exact Tfr | constructor].
    + injection Hf as ->.
      destruct (loop_raised fuel _ _ _ El) as (k & s & Hk & Hr).
      rewrite (raised_no_segment s e st (reachable_good _ _ _ _ _ Hk)
                 (reachable_trace args mm startoffset k s Hk) Hr).
      constructor.
Qed.
End Tiling.

(** The states of a run of [main] are the initial state or states of its
    scan. *)
Lemma reached_scan granularity args file st :
  reached granularity args file st ->
  Inv args (round_down granularity (skip args)) st /\
  (flushed st = [] \/
   exists mm,
     (exists k, iter args mm (round_down granularity (skip args)) k (initial args)
                = Some st) \/
     (exists fuel, final_state (loop args mm (round_down granularity (skip args)) fuel
                                  (initial args)) = Some st)).
Proof.
  intros [(fuel & Hf)|(mm & k & _ & Hk)].
  - split; [exact (main_inv _ _ _ _ _ Hf)|]. unfold main in Hf.
    destruct (mmap_open file _) as [mm|e].
    + right. exists mm. right. exists fuel.
      destruct (loop args mm _ fuel (initial args)) as [s|e s|] eqn:E.
      * cbn. unfold close_csv in Hf. destruct (csv args); [|exact Hf].
        destruct (selectionoutputfile (world s)); [|exact Hf].
        destruct (alloutputfile (world s)); exact Hf.
      * exact Hf.
      * discriminate.
    + left. injection Hf as <-. reflexivity.
  - split; [exact (proj1 (reachable_good _ _ _ _ _ Hk))|].
    right. exists mm. left. exists k. exact Hk.
Qed.

(** C7 (as amended).  Every segment that reaches the export decision, in a
    run that ends or in one that does not, is non-empty and in byte order
    without overlap: each frame starts at or after the end of the span its
    predecessor declares.  It starts exactly there unless a frame that was
    dropped for its date (a line of the debug log) starts there, before
    it. *)
Theorem flushed_segments_are_ordered granularity args file st seg :
  reached granularity args file st ->
  In seg (flushed st) ->
  seg <> [] /\
  consecutive (fun a b =>
                 absolute_offset (round_down granularity (skip args)) a + frame_length a
                 <= absolute_offset (round_down granularity (skip args)) b) seg /\
  consecutive (fun a b =>
                 absolute_offset (round_down granularity (skip args)) b
                 = absolute_offset (round_down granularity (skip args)) a + frame_length a \/
                 exists line,
                   In line (debug_log (world st)) /\
                   date_to_timestamp (fst line) = None /\
                   snd line + round_down granularity (skip args)
                   = absolute_offset (round_down granularity (skip args)) a + frame_length a /\
                   snd line + round_down granularity (skip args)
                   < absolute_offset (round_down granularity (skip args)) b) seg.
Proof.
  intros Hst Hin. destruct (reached_scan _ _ _ _ Hst) as [HI Hscan].
  pose proof (inv_flushed _ _ _ HI) as Hfl. rewrite Forall_forall in Hfl.
  destruct (Hfl seg Hin) as (Hne & _ & Hord).
  split; [exact Hne|]. split.
  - eapply consecutive_impl; [|exact Hord].
    intros a b. unfold follows, span_end, absolute_offset. lia.
  - destruct Hscan as [Hnil|(mm & Hmm)]; [rewrite Hnil in Hin; destruct Hin|].
    pose proof (segments_joined args mm _ st Hmm) as Hj. rewrite Forall_forall in Hj.
    eapply consecutive_impl; [|exact (Hj seg Hin)].
    intros a b [Ht|(line & Hl & Hd & He & Hlt)]; unfold span_end, absolute_offset in *.
    + left. lia.
    + right. exists line. split; [exact Hl|]. split; [exact Hd|]. split; lia.
Qed.

Lemma flushed_segments_are_ordered_witness :
  hd [] (flushed (final_of (main 4096 plain_args file_illegal_between 5))) <> [] /\
  consecutive (fun a b =>
                 absolute_offset (round_down 4096 (skip plain_args)) a + frame_length a
                 <= absolute_offset (round_down 4096 (skip plain_args)) b)
              (hd [] (flushed (final_of (main 4096 plain_args file_illegal_between 5)))) /\
  consecutive (fun a b =>
                 absolute_offset (round_down 4096 (skip plain_args)) b
                 = absolute_offset (round_down 4096 (skip plain_args)) a + frame_length a \/
                 exists line,
                   In line (debug_log
                              (world (final_of (main 4096 plain_args file_illegal_between 5)))) /\
                   date_to_timestamp (fst line) = None /\
                   snd line + round_down 4096 (skip plain_args)
                   = absolute_offset (round_down 4096 (skip plain_args)) a + frame_length a /\
                   snd line + round_down 4096 (skip plain_args)
                   < absolute_offset (round_down 4096 (skip plain_args)) b)
              (hd [] (flushed (final_of (main 4096 plain_args file_illegal_between 5)))).
Proof.
  apply (flushed_segments_are_ordered 4096 plain_args file_illegal_between
           (final_of (main 4096 plain_args file_illegal_between 5))
           (hd [] (flushed (final_of (main 4096 plain_args file_illegal_between 5))))).
  - left. exists 5%nat. vm_compute; reflexivity.
  - vm_compute. left. reflexivity.
Defined.

(** C7, as stated, fails: of three frames back to back, the one in the
    middle has an illegal date and is dropped; the first and the third are
    flushed as one segment, the third 44 bytes after the first, which
    declares 22. *)
Lemma dropped_frame_leaves_a_hole_in_the_segment :
  exists st a c,
    main 4096 plain_args file_illegal_between 5 = Done st /\
    flushed st = [[a; c]] /\
    frame_length a = 22 /\
    absolute_offset (round_down 4096 (skip plain_args)) a = 0 /\
    absolute_offset (round_down 4096 (skip plain_args)) c = 44 /\
    absolute_offset (round_down 4096 (skip plain_args)) c
    <> absolute_offset (round_down 4096 (skip plain_args)) a + frame_length a.
Proof.
  do 3 eexists. split; [vm_compute; reflexivity|].
  split; [vm_compute; reflexivity|]. split; [vm_compute; reflexivity|].
  split; [vm_compute; reflexivity|]. split; [vm_compute; reflexivity|].
  vm_compute. discriminate.
Qed.

(** ** Frames that declare more than the map holds *)

(** The search finds nothing from beyond the end of the map. *)
Lemma mm_find_beyond mm o : mm_len mm <= o -> mm_find mm DHAV o = None.
Proof.
  intros Ho. destruct (mm_find mm DHAV o) as [H|] eqn:Ef; [|reflexivity].
  assert (H0 : 0 <= o) by (unfold mm_len in Ho; lia).
  pose proof (mm_find_bounds _ _ _ _ DHAV_nonempty H0 Ef). lia.
Qed.

(** The pass that parses a frame whose header lies within the map, and the
    pass after it when the frame declares more than the map holds. *)
Lemma long_frame_pass args mm startoffset st H :
  Good args startoffset st ->
  mm_find mm DHAV (offset st) = Some H ->
  H + 22 <= mm_len mm ->
  exists d st',
    parse_at mm H = Ok d /\ header_offset d = H /\
    data d = firstn (Z.to_nat (frame_length d)) (skipn (Z.to_nat H) (mm_data mm)) /\
    loop_body args mm startoffset st = Continue st' /\
    offset st' = H + frame_length d /\
    (mm_len mm - H < frame_length d ->
     data d = skipn (Z.to_nat H) (mm_data mm) /\
     Z.of_nat (List.length (data d)) = mm_len mm - H /\
     mm_len mm < offset st' /\
     exists st'',
       loop_body args mm startoffset st' = Break st'' /\
       (date_to_timestamp (date d) <> None ->
        exists body, frames st' = body ++ [d] /\
                     flushed st'' = flushed st' ++ [body ++ [d]])).
Proof.
  intros HG Ef Hfit.
  pose proof (good_offset_nonneg _ _ _ HG) as Hnn.
  pose proof (mm_find_bounds _ _ _ _ DHAV_nonempty Hnn Ef) as Hb.
  assert (H0 : 0 <= H) by lia.
  destruct (parse_at_complete mm H H0 Hfit) as (d & Hp & _ & Hdata).
  destruct (continue_spec args mm startoffset st H d HG Ef Hp)
    as (st' & Hs & HG' & Ho & _).
  destruct (continue_buffers args mm startoffset st H d HG Ef Hp)
    as (s1 & Hs1 & _ & _ & Hfr).
  rewrite Hs in Hs1. injection Hs1 as <-.
  exists d, st'. split; [exact Hp|]. split; [exact (proj1 (parse_at_fields _ _ _ Hp))|].
  split; [exact Hdata|]. split; [exact Hs|]. split; [exact Ho|].
  intros Hlong.
  assert (E : data d = skipn (Z.to_nat H) (mm_data mm)).
  { rewrite Hdata. apply firstn_all2. rewrite length_skipn. unfold mm_len in *. lia. }
  split; [exact E|]. split; [rewrite E, length_skipn; unfold mm_len in *; lia|].
  split; [lia|].
  assert (Ef' : mm_find mm DHAV (offset st') = None) by (apply mm_find_beyond; lia).
  destruct (break_spec args mm startoffset st' HG' Ef') as (st'' & Hb' & _).
  exists st''. split; [exact Hb'|].
  intros Hdate. pose proof (break_buffers args mm startoffset st' st'' HG' Hb') as Hfl.
  destruct (date_to_timestamp (date d)) as [t|]; [|contradiction].
  exists (if (offset st <? H) && nonempty (frames st) then [] else frames st).
  split; [exact Hfr|]. rewrite Hfr in Hfl.
  destruct ((if (offset st <? H) && nonempty (frames st) then [] else frames st) ++ [d])
    as [|x l] eqn:Eapp; [|exact Hfl].
  apply app_eq_nil in Eapp. destruct Eapp as [_ Eapp]. discriminate.
Qed.

(** C8 (as amended).  When the loop finds a header whose 22 bytes lie
    within the map, the read does not fail, whatever length the frame
    declares: the frame's raw bytes are the declared number of bytes from
    the header offset, cut at the end of the map, and the pass goes on to
    the next with the cursor at the header offset plus the declared length.
    If the declared length exceeds what is left, the raw bytes are the bytes
    left, fewer than declared; the cursor is then beyond the end of the map,
    the next pass finds nothing and ends the loop without an exception, and
    the frame, if its date decodes, is the last one of the last segment
    that reaches the export decision. *)
Theorem long_frame_is_cut_at_the_end args mm startoffset k st H :
  iter args mm startoffset k (initial args) = Some st ->
  mm_find mm DHAV (offset st) = Some H ->
  H + 22 <= mm_len mm ->
  exists d st',
    parse_at mm H = Ok d /\ header_offset d = H /\
    data d = firstn (Z.to_nat (frame_length d)) (skipn (Z.to_nat H) (mm_data mm)) /\
    loop_body args mm startoffset st = Continue st' /\
    offset st' = H + frame_length d /\
    (mm_len mm - H < frame_length d ->
     data d = skipn (Z.to_nat H) (mm_data mm) /\
     Z.of_nat (List.length (data d)) = mm_len mm - H /\
     mm_len mm < offset st' /\
     exists st'',
       loop_body args mm startoffset st' = Break st'' /\
       (date_to_timestamp (date d) <> None ->
        exists body, frames st' = body ++ [d] /\
                     flushed st'' = flushed st' ++ [body ++ [d]])).
Proof.
  intros Hk. exact (long_frame_pass args mm startoffset st H (reachable_good _ _ _ _ _ Hk)).
Qed.

Lemma long_frame_is_cut_at_the_end_witness :
  exists d st',
    parse_at (map_of file_short_frame) 0 = Ok d /\ header_offset d = 0 /\
    data d = firstn (Z.to_nat (frame_length d))
               (skipn (Z.to_nat 0) (mm_data (map_of file_short_frame))) /\
    loop_body plain_args (map_of file_short_frame) 0 (initial plain_args) = Continue st' /\
    offset st' = 0 + frame_length d /\
    (mm_len (map_of file_short_frame) - 0 < frame_length d ->
     data d = skipn (Z.to_nat 0) (mm_data (map_of file_short_frame)) /\
     Z.of_nat (List.length (data d)) = mm_len (map_of file_short_frame) - 0 /\
     mm_len (map_of file_short_frame) < offset st' /\
     exists st'',
       loop_body plain_args (map_of file_short_frame) 0 st' = Break st'' /\
       (date_to_timestamp (date d) <> None ->
        exists body, frames st' = body ++ [d] /\
                     flushed st'' = flushed st' ++ [body ++ [d]])).
Proof.
  apply (long_frame_is_cut_at_the_end plain_args (map_of file_short_frame) 0 0
           (initial plain_args) 0).
  - reflexivity.
  - vm_compute; reflexivity.
  - vm_compute; discriminate.
Defined.

(** C8, as stated, fails: a frame at 0 declares 100 bytes in an input of
    30; the read succeeds with the 30 bytes there are, the run ends without
    an error and writes them. *)
Lemma long_frame_is_read_short :
  exists d st,
    parse_at (map_of file_short_frame) 0 = Ok d /\
    frame_length d = 100 /\
    mm_len (map_of file_short_frame) - header_offset d = 30 /\
    data d = file_short_frame /\
    main 4096 plain_args file_short_frame 5 = Done st /\
    map snd (written (world st)) = [file_short_frame].
Proof.
  do 2 eexists. split; [vm_compute; reflexivity|].
  split; [vm_compute; reflexivity|]. split; [vm_compute; reflexivity|].
  split; [vm_compute; reflexivity|]. split; vm_compute; reflexivity.
Qed.

(** ** The cleanup after the scan *)

(** C10.  With [--csv] and neither [--start] nor [--stop], the handle of
    the selection table is unbound during the whole scan, and a scan that
    completes is followed by an [UnboundLocalError] in the cleanup: the run
    fails in the state the scan ended with.  In that state the table of all
    frames is complete: it holds the row of every frame of the segments
    that reached the export decision, one row for each, in their order, and
    every header found has its row there unless its date did not decode
    (as many rows as progress lines less debug lines). *)
Theorem csv_without_window_fails_at_cleanup granularity args file fuel mm st :
  csv args = true -> starttime args = None -> stoptime args = None ->
  mmap_open file (round_down granularity (skip args)) = Ok mm ->
  loop args mm (round_down granularity (skip args)) fuel (initial args) = Done st ->
  main granularity args file fuel = Failed UnboundLocalError st /\
  selectionoutputfile (world st) = None /\
  (forall k s,
     iter args mm (round_down granularity (skip args)) k (initial args) = Some s ->
     selectionoutputfile (world s) = None) /\
  alloutputfile (world st)
  = Some (frame_rows (round_down granularity (skip args)) (List.concat (flushed st))) /\
  List.length (frame_rows (round_down granularity (skip args)) (List.concat (flushed st)))
  = List.length (List.concat (flushed st)) /\
  List.length (info_log (world st))
  = (List.length (frame_rows (round_down granularity (skip args))
                    (List.concat (flushed st)))
     + List.length (debug_log (world st)))%nat.
Proof.
  intros Hcsv Hstart Hstop Hmm Hloop.
  assert (Hwin : csv args && (truthy (starttime args) || truthy (stoptime args)) = false)
    by (rewrite Hstart, Hstop; apply andb_false_r).
  assert (HI : Inv args (round_down granularity (skip args)) st).
  { apply (loop_inv args mm _ fuel (initial args)); [apply initial_good|].
    rewrite Hloop. reflexivity. }
  assert (Hsel : selectionoutputfile (world st) = None)
    by (apply (inv_selection _ _ _ HI); exact Hwin).
  split.
  { unfold main. rewrite Hmm, Hloop. unfold close_csv. rewrite Hcsv, Hsel. reflexivity. }
  split; [exact Hsel|]. split.
  { intros k s Hk. destruct (reachable_good _ _ _ _ _ Hk) as [HIs _].
    apply (inv_selection _ _ _ HIs). exact Hwin. }
  destruct (done_spec args mm _ fuel st Hloop)
    as (k & s & _ & _ & HT & _ & _ & _ & _ & Hh & Ha & _ & Hi & Hd & _).
  assert (Hlen : List.length (frame_rows (round_down granularity (skip args)) (history s))
                 = List.length (history s))
    by (apply frame_rows_length, (tr_dates _ _ _ _ HT)).
  rewrite Hh, Ha, Hi, Hd, Hlen.
  split; [exact (tr_all _ _ _ _ HT Hcsv)|]. split; [reflexivity|].
  exact (tr_count _ _ _ _ HT).
Qed.

Lemma csv_without_window_fails_at_cleanup_witness :
  main 4096 args_csv file_two_dates 5
  = Failed UnboundLocalError
      (final_of (loop args_csv (map_of file_two_dates) (round_down 4096 (skip args_csv)) 5
                   (initial args_csv))) /\
  selectionoutputfile
    (world (final_of (loop args_csv (map_of file_two_dates)
                        (round_down 4096 (skip args_csv)) 5 (initial args_csv)))) = None /\
  (forall k s,
     iter args_csv (map_of file_two_dates) (round_down 4096 (skip args_csv)) k
       (initial args_csv) = Some s ->
     selectionoutputfile (world s) = None) /\
  alloutputfile
    (world (final_of (loop args_csv (map_of file_two_dates)
                        (round_down 4096 (skip args_csv)) 5 (initial args_csv))))
  = Some (frame_rows (round_down 4096 (skip args_csv))
            (List.concat
               (flushed (final_of (loop args_csv (map_of file_two_dates)
                                     (round_down 4096 (skip args_csv)) 5
                                     (initial args_csv)))))) /\
  List.length
    (frame_rows (round_down 4096 (skip args_csv))
       (List.concat
          (flushed (final_of (loop args_csv (map_of file_two_dates)
                                (round_down 4096 (skip args_csv)) 5
                                (initial args_csv))))))
  = List.length
      (List.concat
         (flushed (final_of (loop args_csv (map_of file_two_dates)
                               (round_down 4096 (skip args_csv)) 5
                               (initial args_csv))))) /\
  List.length
    (info_log
       (world (final_of (loop args_csv (map_of file_two_dates)
                           (round_down 4096 (skip args_csv)) 5 (initial args_csv)))))
  = (List.length
       (frame_rows (round_down 4096 (skip args_csv))
          (List.concat
             (flushed (final_of (loop args_csv (map_of file_two_dates)
                                   (round_down 4096 (skip args_csv)) 5
                                   (initial args_csv))))))
     + List.length
         (debug_log
            (world (final_of (loop args_csv (map_of file_two_dates)
                                (round_down 4096 (skip args_csv)) 5
                                (initial args_csv))))))%nat.
Proof.
  apply (csv_without_window_fails_at_cleanup 4096 args_csv file_two_dates 5
           (map_of file_two_dates)).
  - reflexivity.
  - reflexivity.
  - reflexivity.
  - vm_compute; reflexivity.
  - vm_compute; reflexivity.
Defined.
